(** * PocketMoneyTracker: period calendar and ledger engine

    A shallow embedding of [src/python/main.py] ([DataManager],
    [PeriodHelper], the validation steps of [KidDetailsView] and
    [EditEntryDialog], the series of the savings chart and the year menu
    of [PeriodSelectorWidget]) together with the properties stated about
    it.

    Numbers.  A Python [float] is an IEEE 754 binary64 number.  The ledger
    is computed here with the binary64 operations of the Standard Library's
    [SpecFloat] (precision 53, round to nearest, ties to even, with signed
    zeros, infinities and NaN), so a sum such as [0.1 + 0.2] has the value
    the interpreter gives it.  [round(x, 2)] is CPython's: the exact value
    of [x] is rounded to two decimals, ties going to the even neighbour,
    and the decimal is converted back to the nearest binary64 number.  The
    integers the code mixes in ([0], [100], an integer read from the file)
    stand for the binary64 number of the same value.

    The type [spec_float] also holds mantissa-exponent pairs that are not
    binary64 numbers; the examples below use binary64 numbers only, and
    the theorems hold whatever the pairs are.

    Storage.  [_load_data]/[_save_data] read and write the whole dataset;
    the dataset is threaded explicitly through every operation.  Fresh
    identifiers ([uuid4]) and time stamps ([datetime.now]) are inputs. *)

From Stdlib Require Import ZArith Zpower QArith Qround Qabs Qpower Lia Lqa.
From Stdlib Require Import SpecFloat.
From Stdlib Require Import Bool List String Ascii.
From Stdlib Require Import Sorted Permutation.
From Stdlib Require Import DecimalString DecimalZ DecimalPos.
Import ListNotations.

Local Open Scope string_scope.
Local Open Scope list_scope.
Local Open Scope Q_scope.

(* ================================================================== *)
(** * Numbers: binary64 *)
(* ================================================================== *)

Definition prec : Z := 53.
Definition emax : Z := 1024.

(** A Python [float]. *)
Definition float : Type := spec_float.

Definition fadd : float -> float -> float := SFadd prec emax.
Definition fsub : float -> float -> float := SFsub prec emax.
Definition fmul : float -> float -> float := SFmul prec emax.
Definition fdiv : float -> float -> float := SFdiv prec emax.
Definition fabs : float -> float := SFabs.

(** [x < y] and [x <= y]: false as soon as one side is NaN.  [x > y] is
    written [flt y x]. *)
Definition flt (x y : float) : bool := SFltb x y.
Definition fle (x y : float) : bool := SFleb x y.

(** The float of an integer (exact below 2^53). *)
Definition of_int (z : Z) : float := binary_normalize prec emax z 0 false.

(** The float written [n / 10^d] in decimal: the nearest one. *)
Definition decimal (n : Z) (d : nat) : float :=
  fdiv (of_int n) (of_int (10 ^ Z.of_nat d)).

(** The literal [0.01]. *)
Definition float_0_01 : float := decimal 1 2.

(** The float written 100.00999999999999. *)
Definition near_100_01 : float := S754_finite false 7037578105208176 (-46).

(** The value of a finite float, as a rational number. *)
Definition magnitude (m : positive) (e : Z) : Q := inject_Z (Zpos m) * 2 ^ e.

Definition exact (x : float) : Q :=
  match x with
  | S754_finite s m e => if s then - magnitude m e else magnitude m e
  | _ => 0
  end.

(** Zero or finite: neither an infinity nor NaN. *)
Definition is_finite (x : float) : bool :=
  match x with
  | S754_zero _ | S754_finite _ _ _ => true
  | _ => false
  end.

(** The sign bit of a number; NaN has none. *)
Definition signed (s : bool) (x : float) : Prop :=
  match x with
  | S754_zero s' | S754_infinity s' | S754_finite s' _ _ => s' = s
  | S754_nan => False
  end.

(** Neither a zero nor NaN. *)
Definition nonzero (x : float) : Prop :=
  match x with
  | S754_zero _ | S754_nan => False
  | _ => True
  end.


(* ================================================================== *)
(** * Rounding *)
(* ================================================================== *)

(** Nearest integer, ties to even. *)
Definition round_half_even (x : Q) : Z :=
  let f := Qfloor x in
  match Qcompare (x - inject_Z f) (1 # 2) with
  | Lt => f
  | Gt => (f + 1)%Z
  | Eq => if Z.even f then f else (f + 1)%Z
  end.

(** The float nearest to [z / 100], with the sign [s]: what the conversion
    of the decimal string gives. *)
Definition of_cents (s : bool) (z : Z) : float :=
  match z with
  | Zpos p => fdiv (S754_finite s p 0) (of_int 100)
  | _ => S754_zero s
  end.

(** The number of hundredths [round(x, 2)] keeps, with its sign. *)
Definition cents_of (x : float) : Z :=
  match x with
  | S754_finite s m e =>
      let z := round_half_even (magnitude m e * 100) in
      if s then (- z)%Z else z
  | _ => 0%Z
  end.

(** [round(x, 2)]: infinities and NaN round to themselves, a zero keeps
    its sign, and so does a number that rounds to zero. *)
Definition round2 (x : float) : float :=
  match x with
  | S754_finite s m e => of_cents s (round_half_even (magnitude m e * 100))
  | _ => x
  end.

(* ================================================================== *)
(** * Data model *)
(* ================================================================== *)

(** One element of [kid["entries"]], as the program writes it: every key
    is there.  (Entries of the file that lack keys are [StoredEntry]
    below.) *)
Record Entry := mkEntry {
  id : string;
  period : string;
  periodType : string;
  amount : float;
  spentPercent : float;
  savedPercent : float;
  givenPercent : float;
  spent : float;
  saved : float;
  given : float;
  usedFromSaved : float;
  interestRate : float;
  createdAt : string;
  updatedAt : option string
}.

(** [{**entry, "interestEarned": ..., "runningSaved": ...}] *)
Record ProcessedEntry := mkProcessed {
  base : Entry;
  interestEarned : float;
  runningSaved : float
}.

Record Totals := mkTotals {
  totalSpent : float;
  totalSaved : float;
  totalGiven : float;
  totalInterest : float;
  totalUsedFromSaved : float;
  grandTotal : float;
  entries : list ProcessedEntry
}.

Record Allocation := mkAllocation {
  alloc_spent : float;
  alloc_saved : float;
  alloc_given : float
}.

Record Kid := mkKid {
  kid_id : string;
  kid_name : string;
  allocation : Allocation;
  kid_interestRate : float;
  kid_entries : list Entry
}.

(** The dataset held in the JSON file (the settings play no part here). *)
Record Data := mkData {
  kids : list Kid;
  settings_period : string;
  settings_currency : string
}.

(* ================================================================== *)
(** * DataManager._calculate_totals *)
(* ================================================================== *)

(** [sorted(l, key=...)]: a stable sort on the code-point order of the key
    strings.  The result of a stable sort does not depend on the algorithm;
    insertion is used here. *)
Section Sorting.
Context {A : Type} (key : A -> string).

Fixpoint insert_by (x : A) (l : list A) : list A :=
    match l with
    | [] => [x]
    | h :: t =>
        if (key x <=? key h)%string then x :: h :: t
        else h :: insert_by x t
    end.

Fixpoint sorted (l : list A) : list A :=
    match l with
    | [] => []
    | x :: t => insert_by x (sorted t)
    end.
  (** The order of the keys, on the elements. *)
Definition key_le (a b : A) : Prop := (key a <=? key b)%string = true.
End Sorting.

(** The variables the [for] loop of [_calculate_totals] updates. *)
Record Loop := mkLoop {
  total_spent : float;
  total_given : float;
  total_interest : float;
  total_used_from_saved : float;
  running_saved : float;
  processed_entries : list ProcessedEntry
}.

Definition loop_init : Loop :=
  mkLoop (of_int 0) (of_int 0) (of_int 0) (of_int 0) (of_int 0) [].

(** One iteration of the loop, statement by statement. *)
Definition loop_body (st : Loop) (entry : Entry) : Loop :=
  let interest_rate := interestRate entry in
  let interest_amount := fmul (running_saved st) (fdiv interest_rate (of_int 100)) in
  let total_interest' := fadd (total_interest st) interest_amount in
  let running_saved1 := fadd (running_saved st) interest_amount in
  let total_spent' := fadd (total_spent st) (spent entry) in
  let running_saved2 := fadd running_saved1 (saved entry) in
  let total_given' := fadd (total_given st) (given entry) in
  let used_from_saved := usedFromSaved entry in
  let running_saved3 := fsub running_saved2 used_from_saved in
  let total_used_from_saved' := fadd (total_used_from_saved st) used_from_saved in
  let processed_entry :=
    mkProcessed entry (round2 interest_amount) (round2 running_saved3) in
  mkLoop total_spent' total_given' total_interest' total_used_from_saved'
         running_saved3 (processed_entries st ++ [processed_entry]).

Definition run_loop (l : list Entry) : Loop := fold_left loop_body l loop_init.

(** The dictionary returned after the loop. *)
Definition finish (st : Loop) : Totals :=
  let total_spent_with_used := fadd (total_spent st) (total_used_from_saved st) in
  mkTotals (round2 total_spent_with_used)
           (round2 (running_saved st))
           (round2 (total_given st))
           (round2 (total_interest st))
           (round2 (total_used_from_saved st))
           (round2 (fadd (fadd total_spent_with_used (running_saved st))
                         (total_given st)))
           (processed_entries st).

Definition _calculate_totals (kid : Kid) : Totals :=
  finish (run_loop (sorted period (kid_entries kid))).

(** ** Entries that lack keys

    An entry of the file is a JSON object and may lack keys.  Of the keys
    [_calculate_totals] reads, [entry[key]] raises [KeyError] on a missing
    one ([period], [spent], [saved], [given]) and [entry.get(key, 0)]
    reads 0 ([interestRate], [usedFromSaved]).  A stored entry is given by
    the values of its keys and by the keys it lacks; the value recorded
    for a lacking key is never read. *)
Record StoredEntry := mkStored {
  stored : Entry;
  lacks : list string
}.

Definition holds (s : StoredEntry) (key : string) : bool :=
  negb (existsb (String.eqb key) (lacks s)).

(** [entry[key]]; [None] stands for [KeyError]. *)
Definition item {A : Type} (s : StoredEntry) (key : string) (field : Entry -> A)
  : option A :=
  if holds s key then Some (field (stored s)) else None.

(** [entry.get(key, 0)] *)
Definition get_0 (s : StoredEntry) (key : string) (field : Entry -> float) : float :=
  if holds s key then field (stored s) else of_int 0.

(** The entry as the loop reads it, the two optional keys with their
    default. *)
Definition with_defaults (s : StoredEntry) : Entry :=
  let e := stored s in
  mkEntry (id e) (period e) (periodType e) (amount e)
          (spentPercent e) (savedPercent e) (givenPercent e)
          (spent e) (saved e) (given e)
          (get_0 s "usedFromSaved" usedFromSaved)
          (get_0 s "interestRate" interestRate)
          (createdAt e) (updatedAt e).

(** One iteration on a stored entry: the iteration of [loop_body], unless
    one of the keys read by index is missing.  (The processed entry is
    recorded with the two defaults filled in; the readers of the processed
    entries use the same defaults.) *)
Definition stored_loop_body (st : option Loop) (s : StoredEntry) : option Loop :=
  match st, item s "spent" spent, item s "saved" saved, item s "given" given with
  | Some st, Some _, Some _, Some _ => Some (loop_body st (with_defaults s))
  | _, _, _, _ => None
  end.

(** [_calculate_totals] on stored entries: the sort reads [x["period"]] of
    every entry before the loop starts. *)
Definition _calculate_totals_stored (l : list StoredEntry) : option Totals :=
  if forallb (fun s => holds s "period") l then
    option_map finish
      (fold_left stored_loop_body (sorted (fun s => period (stored s)) l)
                 (Some loop_init))
  else None.

(** The stored entry holds the four keys read by index. *)
Definition well_formed (s : StoredEntry) : bool :=
  holds s "period" && holds s "spent" && holds s "saved" && holds s "given".

(* ================================================================== *)
(** * DataManager: get_kid, add_entry, update_entry *)
(* ================================================================== *)

(** [get_kid]: the first kid with this id, with its totals;
    [{**kid, "totals": totals, "entries": totals["entries"]}]. *)
Fixpoint get_kid_in (ks : list Kid) (kid_id' : string) : option (Kid * Totals) :=
  match ks with
  | [] => None
  | kid :: rest =>
      if (kid_id kid =? kid_id')%string then Some (kid, _calculate_totals kid)
      else get_kid_in rest kid_id'
  end.

Definition get_kid (data : Data) (kid_id' : string) : option (Kid * Totals) :=
  get_kid_in (kids data) kid_id'.

Definition set_entries (kid : Kid) (es : list Entry) : Kid :=
  mkKid (kid_id kid) (kid_name kid) (allocation kid) (kid_interestRate kid) es.

Definition set_kids (data : Data) (ks : list Kid) : Data :=
  mkData ks (settings_period data) (settings_currency data).

(** The arguments of [add_entry] after [kid_id]. *)
Record EntryArgs := mkArgs {
  arg_period : string;
  arg_period_type : string;
  arg_amount : float;
  arg_interest_rate : float;
  arg_spent_pct : float;
  arg_saved_pct : float;
  arg_given_pct : float;
  arg_used_from_saved : float
}.

(** [round(amount * pct / 100, 2)] *)
Definition share (amount pct : float) : float :=
  round2 (fdiv (fmul amount pct) (of_int 100)).

(** The dictionary [new_entry]; [uuid] stands for [uuid.uuid4().hex[:12]]
    and [now] for [datetime.now().isoformat()]. *)
Definition new_entry (uuid now : string) (a : EntryArgs) : Entry :=
  mkEntry ("entry_" ++ uuid)%string (arg_period a) (arg_period_type a) (arg_amount a)
          (arg_spent_pct a) (arg_saved_pct a) (arg_given_pct a)
          (share (arg_amount a) (arg_spent_pct a))
          (share (arg_amount a) (arg_saved_pct a))
          (share (arg_amount a) (arg_given_pct a))
          (round2 (arg_used_from_saved a))
          (arg_interest_rate a) now None.

(** The inner [for entry in kid.get("entries", [])] of [add_entry]. *)
Definition has_period (es : list Entry) (p : string) : bool :=
  existsb (fun entry => (period entry =? p)%string) es.

(** The outer [for kid in data["kids"]] of [add_entry]: [None] when the
    function returns [None], else the new entry and the kids to save. *)
Fixpoint add_entry_in (ks : list Kid) (kid_id' uuid now : string) (a : EntryArgs)
  : option (Entry * list Kid) :=
  match ks with
  | [] => None
  | kid :: rest =>
      if (kid_id kid =? kid_id')%string then
        if has_period (kid_entries kid) (arg_period a) then None
        else
          let e := new_entry uuid now a in
          Some (e, set_entries kid (kid_entries kid ++ [e]) :: rest)
      else
        match add_entry_in rest kid_id' uuid now a with
        | Some (e, rest') => Some (e, kid :: rest')
        | None => None
        end
  end.

(** [add_entry]: the returned value and the dataset left in the file. *)
Definition add_entry (data : Data) (kid_id' uuid now : string) (a : EntryArgs)
  : option Entry * Data :=
  match add_entry_in (kids data) kid_id' uuid now a with
  | Some (e, ks) => (Some e, set_kids data ks)
  | None => (None, data)
  end.

(** The arguments of [update_entry] after [kid_id] and [entry_id]. *)
Record UpdateArgs := mkUpdate {
  upd_amount : float;
  upd_spent_pct : float;
  upd_saved_pct : float;
  upd_given_pct : float;
  upd_interest_rate : float;
  upd_used_from_saved : float;
  upd_period : option string;
  upd_period_type : option string
}.

(** Truth value of an optional string: [None] and [""] are false. *)
Definition truthy (s : option string) : option string :=
  match s with
  | Some "" => None
  | other => other
  end.

(** The assignments to [entry] in [update_entry]; [move] tells whether the
    period is replaced. *)
Definition updated_entry (entry : Entry) (now : string) (u : UpdateArgs) (move : bool)
  : Entry :=
  let period' :=
    match truthy (upd_period u), move with
    | Some p, true => p
    | _, _ => period entry
    end in
  let periodType' :=
    match truthy (upd_period_type u), move with
    | Some t, true => t
    | _, _ => periodType entry
    end in
  mkEntry (id entry) period' periodType' (upd_amount u)
          (upd_spent_pct u) (upd_saved_pct u) (upd_given_pct u)
          (share (upd_amount u) (upd_spent_pct u))
          (share (upd_amount u) (upd_saved_pct u))
          (share (upd_amount u) (upd_given_pct u))
          (round2 (upd_used_from_saved u))
          (upd_interest_rate u) (createdAt entry) (Some now).

Inductive Scan (A : Type) :=
| Returned (r : option A)   (* the function returned: [Some] is [True] *)
| Continue.                 (* the loop ended without a [return] *)
Arguments Returned {A} r.
Arguments Continue {A}.

(** [for entry in kid.get("entries", [])] of [update_entry]; [all] is the
    whole list, searched for a conflicting period. *)
Fixpoint update_entry_scan (all es : list Entry) (entry_id now : string)
  (u : UpdateArgs) : Scan (list Entry) :=
  match es with
  | [] => Continue
  | entry :: rest =>
      if (id entry =? entry_id)%string then
        match truthy (upd_period u) with
        | Some p =>
            if negb (p =? period entry)%string then
              if existsb (fun other =>
                            negb (id other =? entry_id)%string
                            && (period other =? p)%string) all
              then Returned None
              else Returned (Some (updated_entry entry now u true :: rest))
            else Returned (Some (updated_entry entry now u false :: rest))
        | None => Returned (Some (updated_entry entry now u false :: rest))
        end
      else
        match update_entry_scan all rest entry_id now u with
        | Returned (Some rest') => Returned (Some (entry :: rest'))
        | other => other
        end
  end.

Fixpoint update_entry_in (ks : list Kid) (kid_id' entry_id now : string)
  (u : UpdateArgs) : option (list Kid) :=
  match ks with
  | [] => None
  | kid :: rest =>
      let next :=
        match update_entry_in rest kid_id' entry_id now u with
        | Some rest' => Some (kid :: rest')
        | None => None
        end in
      if (kid_id kid =? kid_id')%string then
        match update_entry_scan (kid_entries kid) (kid_entries kid) entry_id now u with
        | Returned (Some es) => Some (set_entries kid es :: rest)
        | Returned None => None
        | Continue => next
        end
      else next
  end.

(** [update_entry]: the returned boolean and the dataset left in the file. *)
Definition update_entry (data : Data) (kid_id' entry_id now : string)
  (u : UpdateArgs) : bool * Data :=
  match update_entry_in (kids data) kid_id' entry_id now u with
  | Some ks => (true, set_kids data ks)
  | None => (false, data)
  end.

(* ================================================================== *)
(** * The validation steps in front of add_entry and update_entry *)
(* ================================================================== *)

(** What a call ends in: [Success], or the error whose message box is
    shown. *)
Inductive Outcome :=
| Success
| ValidationError   (* a number does not parse, amount <= 0, percentages
                       not summing to 100, negative withdrawal *)
| Overdraw          (* "Cannot use more than available saved ..." *)
| DuplicatePeriod   (* "Entry for this period already exists" *)
| PeriodConflict    (* "Failed to update entry. Period may conflict ..." *)
| NotFound.         (* the kid or the entry is not there *)

(** [abs(spent + saved + given - 100) > 0.01] *)
Definition off_100 (spent' saved' given' : float) : bool :=
  flt float_0_01 (fabs (fsub (fadd (fadd spent' saved') given') (of_int 100))).

(** The fields read by [KidDetailsView._add_entry]: the two text fields
    after [float(...)] ([None] when [float] raises [ValueError]; a text
    such as "nan" or "inf" parses) and the key and type given by the period
    selector. *)
Record AddForm := mkAddForm {
  add_amount : option float;
  add_used_from_saved : option float;
  add_period_key : string;
  add_period_type : string
}.

(** [KidDetailsView._add_entry].  The view reloads [self.kid] with
    [get_kid] after every change ([_refresh]), so [self.kid] is [get_kid]
    of the current dataset. *)
Definition _add_entry (data : Data) (kid_id' uuid now : string) (f : AddForm)
  : Outcome * Data :=
  match add_amount f with
  | None => (ValidationError, data)
  | Some amount =>
      if fle amount (of_int 0) then (ValidationError, data) else
      match add_used_from_saved f with
      | None => (ValidationError, data)
      | Some used_from_saved =>
          if flt used_from_saved (of_int 0) then (ValidationError, data) else
          match get_kid data kid_id' with
          | None => (NotFound, data)
          | Some (kid, totals) =>
              let available_saved := totalSaved totals in
              if flt available_saved used_from_saved then (Overdraw, data) else
              let period_key := add_period_key f in
              let period_type := add_period_type f in
              let alloc := allocation kid in
              let interest_rate := kid_interestRate kid in
              match add_entry data kid_id' uuid now
                      (mkArgs period_key period_type amount interest_rate
                              (alloc_spent alloc) (alloc_saved alloc)
                              (alloc_given alloc) used_from_saved) with
              | (None, data') => (DuplicatePeriod, data')
              | (Some _, data') => (Success, data')
              end
          end
      end
  end.

(** The loop of [KidDetailsView._edit_entry]: the target entry and the
    [runningSaved] of the entry before it. *)
Fixpoint find_target (l : list ProcessedEntry) (entry_id : string)
  (available_saved_before : float) : option (ProcessedEntry * float) :=
  match l with
  | [] => None
  | entry :: rest =>
      if (id (base entry) =? entry_id)%string
      then Some (entry, available_saved_before)
      else find_target rest entry_id (runningSaved entry)
  end.

Definition _edit_entry (totals : Totals) (entry_id : string)
  : option (ProcessedEntry * float) :=
  let sorted_entries := sorted (fun x => period (base x)) (entries totals) in
  find_target sorted_entries entry_id (of_int 0).

(** [EditEntryDialog.__init__]: [self.available_saved]. *)
Definition dialog_available_saved (entry : ProcessedEntry)
  (available_saved_before_entry : float) : float :=
  fadd available_saved_before_entry (saved (base entry)).

(** The fields of the dialog after [float(...)], and its period selector. *)
Record EditForm := mkEditForm {
  edit_amount : float;
  edit_spent_pct : float;
  edit_saved_pct : float;
  edit_given_pct : float;
  edit_interest_rate : float;
  edit_used_from_saved : float;
  edit_period_key : string;
  edit_period_type : string
}.

(** [EditEntryDialog._save] followed by
    [KidDetailsView._save_entry_changes]; the form is [None] when a
    [float(...)] raises [ValueError]. *)
Definition _save (data : Data) (kid_id' now : string) (entry : ProcessedEntry)
  (available_saved : float) (form : option EditForm) : Outcome * Data :=
  match form with
  | None => (ValidationError, data)
  | Some f =>
      if fle (edit_amount f) (of_int 0) then (ValidationError, data) else
      if off_100 (edit_spent_pct f) (edit_saved_pct f) (edit_given_pct f)
      then (ValidationError, data) else
      if flt (edit_used_from_saved f) (of_int 0) then (ValidationError, data) else
      if flt available_saved (edit_used_from_saved f) then (Overdraw, data) else
      match update_entry data kid_id' (id (base entry)) now
              (mkUpdate (edit_amount f) (edit_spent_pct f) (edit_saved_pct f)
                        (edit_given_pct f) (edit_interest_rate f)
                        (edit_used_from_saved f)
                        (Some (edit_period_key f)) (Some (edit_period_type f))) with
      | (false, data') => (PeriodConflict, data')
      | (true, data') => (Success, data')
      end
  end.

(** Editing an entry from the details view: [_edit_entry] opens the dialog
    on the target entry, [_save] validates and stores. *)
Definition edit_entry (data : Data) (kid_id' entry_id now : string)
  (form : option EditForm) : Outcome * Data :=
  match get_kid data kid_id' with
  | None => (NotFound, data)
  | Some (kid, totals) =>
      match _edit_entry totals entry_id with
      | None => (NotFound, data)
      | Some (target_entry, available_saved_before) =>
          _save data kid_id' now target_entry
                (dialog_available_saved target_entry available_saved_before) form
      end
  end.

(* ------------------------------------------------------------------ *)
(** ** The two-entry ledger of the interest example *)

Definition jan : Entry :=
  mkEntry "entry_1" "2024-01" "monthly" (of_int 250) (of_int 40) (of_int 40)
          (of_int 20) (of_int 100) (of_int 100) (of_int 50) (of_int 0) (of_int 0)
          "t1" None.
Definition feb : Entry :=
  mkEntry "entry_2" "2024-02" "monthly" (of_int 10) (of_int 100) (of_int 0)
          (of_int 0) (of_int 10) (of_int 0) (of_int 0) (of_int 0) (of_int 10)
          "t2" None.
Definition ann : Kid :=
  mkKid "kid_1" "Ann" (mkAllocation (of_int 40) (of_int 40) (of_int 20)) (of_int 0)
        [feb; jan].
Definition ann_data : Data := mkData [ann] "monthly" "EUR".

Definition feb_form (used : float) : option EditForm :=
  Some (mkEditForm (of_int 10) (of_int 100) (of_int 0) (of_int 0) (of_int 10) used
                   "2024-02" "monthly").

(* ================================================================== *)
(** * Specification-side definitions and example ledgers *)
(* ================================================================== *)

(** The accrual step: interest on the balance carried into the period at
    the entry's own rate, then the entry's saving, then its withdrawal.
    The rate is divided by 100 before it is multiplied with the balance. *)
Definition interest_on (balance : float) (entry : Entry) : float :=
  fmul balance (fdiv (interestRate entry) (of_int 100)).

Definition accrue (balance : float) (entry : Entry) : float :=
  fsub (fadd (fadd balance (interest_on balance entry)) (saved entry))
       (usedFromSaved entry).

(** The savings accumulated up to the withdrawal of an entry: the balance
    carried in, its interest, and the entry's own saving. *)
Definition accumulated (balance : float) (entry : Entry) : float :=
  fadd (fadd balance (interest_on balance entry)) (saved entry).

(** 0.50 saved in January; February earns 1 percent on it. *)
Definition ivy : Kid :=
  mkKid "kid_8" "Ivy" (mkAllocation (of_int 0) (of_int 100) (of_int 0)) (of_int 1)
        [mkEntry "i1" "2024-01" "monthly" (decimal 5 1) (of_int 0) (of_int 100)
                 (of_int 0) (of_int 0) (decimal 5 1) (of_int 0) (of_int 0)
                 (of_int 0) "t1" None;
         mkEntry "i2" "2024-02" "monthly" (of_int 1) (of_int 100) (of_int 0)
                 (of_int 0) (of_int 1) (of_int 0) (of_int 0) (of_int 0)
                 (of_int 1) "t2" None].


(** 0.70 saved in January and 0.10 in February. *)
Definition kai_feb : Entry :=
  mkEntry "k2" "2024-02" "monthly" (decimal 1 1) (of_int 0) (of_int 100)
          (of_int 0) (of_int 0) (decimal 1 1) (of_int 0) (of_int 0)
          (of_int 0) "t2" None.
Definition kai : Kid :=
  mkKid "kid_11" "Kai" (mkAllocation (of_int 0) (of_int 100) (of_int 0)) (of_int 0)
        [mkEntry "k1" "2024-01" "monthly" (decimal 7 1) (of_int 0) (of_int 100)
                 (of_int 0) (of_int 0) (decimal 7 1) (of_int 0) (of_int 0)
                 (of_int 0) "t1" None;
         kai_feb].
Definition kai_data : Data := mkData [kai] "monthly" "EUR".

(** One entry that spends 2e16 and saves 0.30. *)
Definition hugo : Kid :=
  mkKid "kid_9" "Hugo" (mkAllocation (of_int 40) (of_int 40) (of_int 20)) (of_int 0)
        [mkEntry "h1" "2024-01" "monthly" (of_int 20000000000000000) (of_int 100)
                 (of_int 0) (of_int 0) (of_int 20000000000000000) (decimal 3 1)
                 (of_int 0) (of_int 0) (of_int 0) "t1" None].


(** 10 saved and 25 withdrawn in one entry. *)
Definition overdrawn : Kid :=
  mkKid "kid_3" "Cleo" (mkAllocation (of_int 40) (of_int 40) (of_int 20)) (of_int 0)
        [mkEntry "c1" "2024-01" "monthly" (of_int 25) (of_int 40) (of_int 40)
                 (of_int 20) (of_int 10) (of_int 10) (of_int 5) (of_int 25)
                 (of_int 0) "t1" None].

(** 1.00 saved in January; February earns 0.6 percent on it and withdraws
    1.01: the balance ends at about -0.004. *)
Definition gil : Kid :=
  mkKid "kid_7" "Gil" (mkAllocation (of_int 0) (of_int 100) (of_int 0))
        (decimal 6 1)
        [mkEntry "g1" "2024-01" "monthly" (of_int 1) (of_int 0) (of_int 100)
                 (of_int 0) (of_int 0) (of_int 1) (of_int 0) (of_int 0)
                 (of_int 0) "t1" None;
         mkEntry "g2" "2024-02" "monthly" (of_int 1) (of_int 100) (of_int 0)
                 (of_int 0) (of_int 1) (of_int 0) (of_int 0) (decimal 101 2)
                 (decimal 6 1) "t2" None].

(** A kid whose stored default allocation sums to 150. *)
Definition dan : Kid :=
  mkKid "kid_4" "Dan" (mkAllocation (of_int 50) (of_int 50) (of_int 50)) (of_int 0) [].
Definition dan_data : Data := mkData [dan] "monthly" "EUR".

(** The ceiling in the words of the specification: the balance after the
    existing entries whose key is smaller than the new key, plus the new
    entry's own saving. *)
Definition available_saved_spec (es : list Entry) (key : string) (own_saved : float)
  : float :=
  fadd (running_saved
          (run_loop (sorted period (filter (fun e => (period e <? key)%string) es))))
       own_saved.

Definition eve : Kid :=
  mkKid "kid_5" "Eve" (mkAllocation (of_int 40) (of_int 40) (of_int 20)) (of_int 0) [].
Definition eve_data : Data := mkData [eve] "monthly" "EUR".

(** A kid who spends everything, with 100 saved in February. *)
Definition fay : Kid :=
  mkKid "kid_6" "Fay" (mkAllocation (of_int 100) (of_int 0) (of_int 0)) (of_int 0)
        [mkEntry "f1" "2024-02" "monthly" (of_int 250) (of_int 40) (of_int 40)
                 (of_int 20) (of_int 100) (of_int 100) (of_int 50) (of_int 0)
                 (of_int 0) "t1" None].
Definition fay_data : Data := mkData [fay] "monthly" "EUR".

(** The processed entries appended by the loop run from state [st]. *)
Fixpoint emitted (st : Loop) (l : list Entry) : list ProcessedEntry :=
  match l with
  | [] => []
  | e :: r =>
      mkProcessed e (round2 (interest_on (running_saved st) e))
                  (round2 (running_saved (loop_body st e)))
      :: emitted (loop_body st e) r
  end.

(** The entries after a successful update that keeps the period key. *)
Definition replaced (es : list Entry) (entry_id now : string) (u : UpdateArgs)
  : list Entry :=
  map (fun e => if (id e =? entry_id)%string then updated_entry e now u false else e) es.

(** The ceiling of an edit: the emitted (rounded) balance after the entries
    with a smaller key, plus the saving the target entry holds. *)
Definition available_saved_at (es : list Entry) (target : Entry) : float :=
  fadd (round2 (running_saved
                  (run_loop (sorted period
                     (filter (fun e => (period e <? period target)%string) es)))))
       (saved target).

(* ================================================================== *)
(** * DataManager: delete_entry, update_allocation *)
(* ================================================================== *)

(** The outer loop of [delete_entry].  A kid with the id whose entries all
    stay is passed over (its reassigned list holds the same entries and is
    not saved) and the loop goes on. *)
Fixpoint delete_entry_in (ks : list Kid) (kid_id' entry_id : string)
  : option (list Kid) :=
  match ks with
  | [] => None
  | kid :: rest =>
      let next :=
        match delete_entry_in rest kid_id' entry_id with
        | Some rest' => Some (kid :: rest')
        | None => None
        end in
      if (kid_id kid =? kid_id')%string then
        let original_len := List.length (kid_entries kid) in
        let es := filter (fun e => negb (id e =? entry_id)%string) (kid_entries kid) in
        if (List.length es <? original_len)%nat
        then Some (set_entries kid es :: rest)
        else next
      else next
  end.

(** [delete_entry]: the returned boolean and the dataset left in the file. *)
Definition delete_entry (data : Data) (kid_id' entry_id : string) : bool * Data :=
  match delete_entry_in (kids data) kid_id' entry_id with
  | Some ks => (true, set_kids data ks)
  | None => (false, data)
  end.

Fixpoint update_allocation_in (ks : list Kid) (kid_id' : string)
  (spent' saved' given' interest_rate : float) : option (list Kid) :=
  match ks with
  | [] => None
  | kid :: rest =>
      if (kid_id kid =? kid_id')%string then
        Some (mkKid (kid_id kid) (kid_name kid)
                    (mkAllocation spent' saved' given') interest_rate
                    (kid_entries kid) :: rest)
      else
        match update_allocation_in rest kid_id' spent' saved' given' interest_rate with
        | Some rest' => Some (kid :: rest')
        | None => None
        end
  end.

(** [update_allocation]: the returned boolean and the dataset left in the
    file. *)
Definition update_allocation (data : Data) (kid_id' : string)
  (spent' saved' given' interest_rate : float) : bool * Data :=
  match update_allocation_in (kids data) kid_id' spent' saved' given' interest_rate with
  | Some ks => (true, set_kids data ks)
  | None => (false, data)
  end.

(** The four fields of the allocation form after [float(...)]. *)
Record AllocationForm := mkAllocationForm {
  form_spent : float;
  form_saved : float;
  form_given : float;
  form_interest : float
}.

(** [KidDetailsView._save_allocation]; the form is [None] when a
    [float(...)] raises [ValueError].  The boolean returned by
    [update_allocation] is not looked at. *)
Definition _save_allocation (data : Data) (kid_id' : string)
  (form : option AllocationForm) : Outcome * Data :=
  match form with
  | None => (ValidationError, data)
  | Some f =>
      if off_100 (form_spent f) (form_saved f) (form_given f)
      then (ValidationError, data)
      else
        (Success,
         snd (update_allocation data kid_id' (form_spent f) (form_saved f)
                                (form_given f) (form_interest f)))
  end.

(** The entries after a successful update that moves the entry to the
    period of the call. *)
Definition moved (es : list Entry) (entry_id now : string) (u : UpdateArgs)
  : list Entry :=
  map (fun e => if (id e =? entry_id)%string then updated_entry e now u true else e) es.

(** Another entry than [entry_id] owns the period [p]. *)
Definition period_taken (es : list Entry) (entry_id p : string) : bool :=
  existsb (fun other => negb (id other =? entry_id)%string
                        && (period other =? p)%string) es.

(** A float stands for [z] hundredths: it is the float nearest to
    [z / 100] (for [z = 0], a zero of either sign). *)
Definition hundredths (z : Z) (x : float) : Prop :=
  exists s : bool, x = of_cents s (Z.abs z) /\ (z <> 0%Z -> s = (z <? 0)%Z).

(* ================================================================== *)
(** * DataManager: add_kid, update_kid, delete_kid, get_kids *)
(* ================================================================== *)

(** [add_kid]: the new kid and the dataset left in the file; [uuid] stands
    for [uuid.uuid4().hex[:12]]. *)
Definition add_kid (data : Data) (uuid name : string) : Kid * Data :=
  let new_kid :=
    mkKid ("kid_" ++ uuid)%string name
          (mkAllocation (of_int 40) (of_int 40) (of_int 20)) (of_int 0) [] in
  (new_kid, set_kids data (kids data ++ [new_kid])).

Fixpoint update_kid_in (ks : list Kid) (kid_id' name : string)
  : option (list Kid) :=
  match ks with
  | [] => None
  | kid :: rest =>
      if (kid_id kid =? kid_id')%string then
        Some (mkKid (kid_id kid) name (allocation kid) (kid_interestRate kid)
                    (kid_entries kid) :: rest)
      else
        match update_kid_in rest kid_id' name with
        | Some rest' => Some (kid :: rest')
        | None => None
        end
  end.

(** [update_kid]: the returned boolean and the dataset left in the file. *)
Definition update_kid (data : Data) (kid_id' name : string) : bool * Data :=
  match update_kid_in (kids data) kid_id' name with
  | Some ks => (true, set_kids data ks)
  | None => (false, data)
  end.

(** [delete_kid]: the returned boolean and the dataset left in the file. *)
Definition delete_kid (data : Data) (kid_id' : string) : bool * Data :=
  let original_len := List.length (kids data) in
  let ks := filter (fun k => negb (kid_id k =? kid_id')%string) (kids data) in
  if (List.length ks <? original_len)%nat then (true, set_kids data ks)
  else (false, data).

(** One element of the list returned by [get_kids]. *)
Record KidSummary := mkSummary {
  sum_id : string;
  sum_name : string;
  sum_allocation : Allocation;
  sum_interestRate : float;
  sum_totals : Totals
}.

Definition get_kids (data : Data) : list KidSummary :=
  map (fun kid =>
         let totals := _calculate_totals kid in
         mkSummary (kid_id kid) (kid_name kid) (allocation kid)
                   (kid_interestRate kid) totals)
      (kids data).

(** Some kid of the dataset has the id. *)
Definition has_kid (data : Data) (kid_id' : string) : bool :=
  existsb (fun k => (kid_id k =? kid_id')%string) (kids data).

(* ================================================================== *)
(** * KidDetailsView._update_chart: the series of the savings chart *)
(* ================================================================== *)






Local Close Scope Q_scope.
Local Open Scope Z_scope.

(* ================================================================== *)
(** * Calendar dates (the part of [datetime] the helper uses) *)
(* ================================================================== *)

(** A [datetime] at midnight: the helper never looks at the time. *)
Record date := mkDate { dt_year : Z; dt_month : Z; dt_day : Z }.

Definition MINYEAR : Z := 1.
Definition MAXYEAR : Z := 9999.

Definition _is_leap (year : Z) : bool :=
  (year mod 4 =? 0) && (negb (year mod 100 =? 0) || (year mod 400 =? 0)).

Definition _days_before_year (year : Z) : Z :=
  let y := year - 1 in
  y * 365 + y / 4 - y / 100 + y / 400.

Definition _DAYS_IN_MONTH (month : Z) : Z :=
  match month with
  | 1 => 31 | 2 => 28 | 3 => 31 | 4 => 30 | 5 => 31 | 6 => 30
  | 7 => 31 | 8 => 31 | 9 => 30 | 10 => 31 | 11 => 30 | 12 => 31
  | _ => 0
  end.

Definition _DAYS_BEFORE_MONTH (month : Z) : Z :=
  match month with
  | 1 => 0 | 2 => 31 | 3 => 59 | 4 => 90 | 5 => 120 | 6 => 151
  | 7 => 181 | 8 => 212 | 9 => 243 | 10 => 273 | 11 => 304 | 12 => 334
  | _ => 0
  end.

Definition _days_in_month (year month : Z) : Z :=
  if (month =? 2) && _is_leap year then 29 else _DAYS_IN_MONTH month.

Definition _days_before_month (year month : Z) : Z :=
  _DAYS_BEFORE_MONTH month + (if (month >? 2) && _is_leap year then 1 else 0).

Definition _ymd2ord (year month day : Z) : Z :=
  _days_before_year year + _days_before_month year month + day.

Definition _DI400Y : Z := 146097.
Definition _DI100Y : Z := 36524.
Definition _DI4Y : Z := 1461.

Definition _ord2ymd (n : Z) : date :=
  let n := n - 1 in
  let n400 := n / _DI400Y in
  let n := n mod _DI400Y in
  let year := n400 * 400 + 1 in
  let n100 := n / _DI100Y in
  let n := n mod _DI100Y in
  let n4 := n / _DI4Y in
  let n := n mod _DI4Y in
  let n1 := n / 365 in
  let n := n mod 365 in
  let year := year + n100 * 100 + n4 * 4 + n1 in
  if (n1 =? 4) || (n100 =? 4) then mkDate (year - 1) 12 31
  else
    let leapyear := (n1 =? 3) && (negb (n4 =? 24) || (n100 =? 3)) in
    let month := Z.shiftr (n + 50) 5 in
    let preceding :=
      _DAYS_BEFORE_MONTH month + (if (month >? 2) && leapyear then 1 else 0) in
    if preceding >? n then
      let month := month - 1 in
      let preceding :=
        preceding
        - (_DAYS_IN_MONTH month + (if (month =? 2) && leapyear then 1 else 0)) in
      mkDate year month (n - preceding + 1)
    else mkDate year month (n - preceding + 1).

(** [datetime(year, month, day)]: [None] stands for [ValueError]. *)
Definition datetime (year month day : Z) : option date :=
  if (MINYEAR <=? year) && (year <=? MAXYEAR)
     && (1 <=? month) && (month <=? 12)
     && (1 <=? day) && (day <=? _days_in_month year month)
  then Some (mkDate year month day) else None.

Definition toordinal (d : date) : Z :=
  _ymd2ord (dt_year d) (dt_month d) (dt_day d).

Definition _MAXORDINAL : Z := 3652059.

(** [d - timedelta(days=days)]: [None] stands for [OverflowError]. *)
Definition minus_days (d : date) (days : Z) : option date :=
  let o := toordinal d - days in
  if (1 <=? o) && (o <=? _MAXORDINAL) then Some (_ord2ymd o) else None.

Definition _isoweek1monday (year : Z) : Z :=
  let THURSDAY := 3 in
  let firstday := _ymd2ord year 1 1 in
  let firstweekday := (firstday + 6) mod 7 in
  let week1monday := firstday - firstweekday in
  if firstweekday >? THURSDAY then week1monday + 7 else week1monday.

(** [d.isocalendar()]: ISO year, week and weekday. *)
Definition isocalendar (d : date) : Z * Z * Z :=
  let year := dt_year d in
  let week1monday := _isoweek1monday year in
  let today := toordinal d in
  let week := (today - week1monday) / 7 in
  let day := (today - week1monday) mod 7 in
  if week <? 0 then
    let year := year - 1 in
    let week1monday := _isoweek1monday year in
    let week := (today - week1monday) / 7 in
    let day := (today - week1monday) mod 7 in
    (year, week + 1, day + 1)
  else if (week >=? 52) && (today >=? _isoweek1monday (year + 1)) then
    (year + 1, 1, day + 1)
  else (year, week + 1, day + 1).


(* ================================================================== *)
(** * Strings: the operations of [get_period_key] and [parse_period_key] *)
(* ================================================================== *)

(** [str(n)], [f"{n}"]: decimal digits, with a minus sign when negative. *)
Definition str (n : Z) : string := NilZero.string_of_int (Z.to_int n).

(** [f"{n:02d}"]: zero-padded to two characters, the sign counting as
    one. *)
Definition format_02d (n : Z) : string :=
  let s := str n in
  if (String.length s <? 2)%nat then "0" ++ s else s.

(** [int(s)] for an optional minus sign followed by decimal digits; [None]
    stands for [ValueError].  (Python also accepts a plus sign, white space
    around the number and underscores between digits; no key written by
    [get_period_key] has them.) *)
Definition int (s : string) : option Z :=
  option_map Z.of_int (NilZero.int_of_string s).

(** [sub in s] *)
Fixpoint contains (sub s : string) : bool :=
  String.prefix sub s
  || match s with
     | EmptyString => false
     | String _ s' => contains sub s'
     end.

(** [s.split(sep)] for a non-empty [sep]: [skip] counts the characters of
    a separator still to be passed over, [cur] is the piece being read. *)
Fixpoint split_from (sep : string) (skip : nat) (cur s : string) : list string :=
  match s with
  | EmptyString => [cur]
  | String c s' =>
      match skip with
      | S k => split_from sep k cur s'
      | O =>
          if String.prefix sep s
          then cur :: split_from sep (String.length sep - 1) "" s'
          else split_from sep 0 (cur ++ String c "") s'
      end
  end.

Definition split (sep s : string) : list string := split_from sep 0 "" s.

(* ================================================================== *)
(** * PeriodHelper *)
(* ================================================================== *)

Inductive PeriodType := weekly | biweekly | quarterly | monthly.

(** The period dictionary: ["type"], ["year"] and, under the key named
    after the type (["week"], ["biweek"], ["quarter"], ["month"]), the
    index. *)
Record Period := mkPeriod {
  type : PeriodType;
  year : Z;
  index : Z
}.

Definition bind {A B : Type} (x : option A) (f : A -> option B) : option B :=
  match x with
  | Some a => f a
  | None => None
  end.

Notation "x <- e ;; k" := (bind e (fun x => k))
  (at level 61, e at next level, right associativity).

Definition get_max_weeks_in_year (year : Z) : option Z :=
  dec_28 <- datetime year 12 28 ;;
  Some (snd (fst (isocalendar dec_28))).

Definition get_quarter_dates (quarter year : Z) : option (date * date) :=
  let start_month := (quarter - 1) * 3 + 1 in
  let end_month := start_month + 2 in
  start_date <- datetime year start_month 1 ;;
  if end_month =? 12 then
    end_date <- datetime year 12 31 ;;
    Some (start_date, end_date)
  else
    first <- datetime year (end_month + 1) 1 ;;
    end_date <- minus_days first 1 ;;
    Some (start_date, end_date).

Definition get_month_dates (month year : Z) : option (date * date) :=
  start_date <- datetime year month 1 ;;
  if month =? 12 then
    end_date <- datetime year 12 31 ;;
    Some (start_date, end_date)
  else
    first <- datetime year (month + 1) 1 ;;
    end_date <- minus_days first 1 ;;
    Some (start_date, end_date).

Definition get_period_key (period : Period) : string :=
  match type period with
  | weekly => str (year period) ++ "-W" ++ format_02d (index period)
  | biweekly => str (year period) ++ "-BW" ++ format_02d (index period)
  | quarterly => str (year period) ++ "-Q" ++ str (index period)
  | monthly => str (year period) ++ "-" ++ format_02d (index period)
  end.

(** [year, x = period_key.split(sep)] then [int(year)], [int(x)]. *)
Definition parse_with (sep : string) (t : PeriodType) (period_key : string)
  : option Period :=
  match split sep period_key with
  | [y; x] =>
      y' <- int y ;;
      x' <- int x ;;
      Some (mkPeriod t y' x')
  | _ => None
  end.

(** [None] stands for the [ValueError] of a key of no known shape. *)
Definition parse_period_key (period_key : string) : option Period :=
  if contains "-W" period_key then parse_with "-W" weekly period_key
  else if contains "-BW" period_key then parse_with "-BW" biweekly period_key
  else if contains "-Q" period_key then parse_with "-Q" quarterly period_key
  else parse_with "-" monthly period_key.

Definition navigate_period (period : Period) (direction : Z) : option Period :=
  let year := year period in
  match type period with
  | weekly =>
      max_weeks <- get_max_weeks_in_year year ;;
      let week := index period + direction in
      if week <? 1 then
        week' <- get_max_weeks_in_year (year - 1) ;;
        Some (mkPeriod weekly (year - 1) week')
      else if week >? max_weeks then Some (mkPeriod weekly (year + 1) 1)
      else Some (mkPeriod weekly year week)
  | biweekly =>
      max_weeks <- get_max_weeks_in_year year ;;
      let max_biweeks := (max_weeks + 1) / 2 in
      let biweek := index period + direction in
      if biweek <? 1 then
        max_weeks' <- get_max_weeks_in_year (year - 1) ;;
        Some (mkPeriod biweekly (year - 1) ((max_weeks' + 1) / 2))
      else if biweek >? max_biweeks then Some (mkPeriod biweekly (year + 1) 1)
      else Some (mkPeriod biweekly year biweek)
  | quarterly =>
      let quarter := index period + direction in
      if quarter <? 1 then Some (mkPeriod quarterly (year - 1) 4)
      else if quarter >? 4 then Some (mkPeriod quarterly (year + 1) 1)
      else Some (mkPeriod quarterly year quarter)
  | monthly =>
      let month := index period + direction in
      if month <? 1 then Some (mkPeriod monthly (year - 1) 12)
      else if month >? 12 then Some (mkPeriod monthly (year + 1) 1)
      else Some (mkPeriod monthly year month)
  end.

(** A valid period: a year of the calendar and an index of that year. *)
Definition valid_period (p : Period) : bool :=
  (MINYEAR <=? year p) && (year p <=? MAXYEAR) && (1 <=? index p)
  && match type p with
     | weekly =>
         match get_max_weeks_in_year (year p) with
         | Some max_weeks => index p <=? max_weeks
         | None => false
         end
     | biweekly =>
         match get_max_weeks_in_year (year p) with
         | Some max_weeks => index p <=? (max_weeks + 1) / 2
         | None => false
         end
     | quarterly => index p <=? 4
     | monthly => index p <=? 12
     end.

(* ================================================================== *)
(** * Definitions used to state the calendar facts *)
(* ================================================================== *)

Definition is_digit (c : ascii) : bool :=
  ((48 <=? nat_of_ascii c) && (nat_of_ascii c <=? 57))%nat.

Fixpoint all_digits (s : string) : bool :=
  match s with
  | EmptyString => true
  | String c s' => is_digit c && all_digits s'
  end.

(** A separator whose first character is not a digit. *)
Definition separator (sep : string) : bool :=
  match sep with
  | EmptyString => false
  | String c _ => negb (is_digit c)
  end.

Definition date_eqb (a b : date) : bool :=
  (dt_year a =? dt_year b) && (dt_month a =? dt_month b) && (dt_day a =? dt_day b).

Definition first_cycle : list Z := map Z.of_nat (seq 1 400).

(** The number of ISO weeks of a year. *)
Definition weeks_of (y : Z) : Z := snd (fst (isocalendar (mkDate y 12 28))).

Definition weeks_ok (y : Z) : bool := (weeks_of y =? 52) || (weeks_of y =? 53).

(** The period after [p] lies in a year of the calendar.  Only the
    week-based types look at the calendar when they navigate. *)
Definition next_in_calendar (p : Period) : bool :=
  match navigate_period p 1 with
  | Some q =>
      match type q with
      | weekly | biweekly => year q <=? MAXYEAR
      | quarterly | monthly => true
      end
  | None => false
  end.

(** The day before the first of the next month, for the months January to
    November. *)
Definition month_end_ok (y m : Z) : bool :=
  date_eqb (_ord2ymd (_ymd2ord y (m + 1) 1 - 1)) (mkDate y m (_days_in_month y m)).

Definition year_ok (y : Z) : bool :=
  forallb (month_end_ok y) [1; 2; 3; 4; 5; 6; 7; 8; 9; 10; 11].

(* ================================================================== *)
(** * PeriodHelper: the current period, weeks and their dates *)
(* ================================================================== *)

(** [d.weekday()]: Monday is 0, Sunday is 6. *)
Definition weekday (d : date) : Z := (toordinal d + 6) mod 7.

(** [d + timedelta(days=days)]: [None] stands for [OverflowError]. *)
Definition plus_days (d : date) (days : Z) : option date :=
  let o := toordinal d + days in
  if (1 <=? o) && (o <=? _MAXORDINAL) then Some (_ord2ymd o) else None.

Definition get_week_number (d : date) : Z := snd (fst (isocalendar d)).

Definition get_week_dates (week year : Z) : option (date * date) :=
  jan_4 <- datetime year 1 4 ;;
  start_of_week_1 <- minus_days jan_4 (weekday jan_4) ;;
  start_date <- plus_days start_of_week_1 (7 * (week - 1)) ;;
  end_date <- plus_days start_date 6 ;;
  Some (start_date, end_date).

Definition get_biweek_dates (biweek year : Z) : option (date * date) :=
  let start_week := (biweek - 1) * 2 + 1 in
  let end_week := start_week + 1 in
  s <- get_week_dates start_week year ;;
  e <- get_week_dates end_week year ;;
  Some (fst s, snd e).

(** [get_current_period], with [datetime.now()] as the argument [now]. *)
Definition get_current_period (period_type : PeriodType) (now : date) : Period :=
  let year := dt_year now in
  let month := dt_month now in
  match period_type with
  | weekly => mkPeriod weekly year (get_week_number now)
  | biweekly => mkPeriod biweekly year ((get_week_number now + 1) / 2)
  | quarterly => mkPeriod quarterly year ((month - 1) / 3 + 1)
  | monthly => mkPeriod monthly year month
  end.

(** The order of the calendar on dates. *)
Definition date_le (a b : date) : Prop :=
  dt_year a < dt_year b
  \/ (dt_year a = dt_year b
      /\ (dt_month a < dt_month b
          \/ (dt_month a = dt_month b /\ dt_day a <= dt_day b))).

(** The order of the calendar on periods of one type. *)
Definition period_lt (p q : Period) : Prop :=
  year p < year q \/ (year p = year q /\ index p < index q).

(** A year of 53 ISO weeks: it starts on a Thursday, or it is a leap year
    and starts on a Wednesday. *)
Definition long_year (y : Z) : bool :=
  let jan_1 := weekday (mkDate y 1 1) in
  (jan_1 =? 3) || (_is_leap y && (jan_1 =? 2)).

(** The character of a decimal digit, and the string of a list of
    digits. *)
Definition digit (d : Z) : ascii := ascii_of_nat (48 + Z.to_nat d).

Fixpoint digits_string (l : list Z) : string :=
  match l with
  | [] => EmptyString
  | d :: r => String (digit d) (digits_string r)
  end.

Definition four_digits (y : Z) : list Z :=
  [y / 1000; y / 100 mod 10; y / 10 mod 10; y mod 10].

Definition two_digits (i : Z) : list Z := [i / 10; i mod 10].

(** The years written with four digits. *)
Definition four_digit_years : list Z :=
  map Z.of_nat (seq (Z.to_nat 1000) (Z.to_nat 9000)).

(** The comparison of two periods of one type in the calendar. *)
Definition period_compare (p q : Period) : comparison :=
  match year p ?= year q with
  | Eq => index p ?= index q
  | c => c
  end.

(** The last step of [_ord2ymd]: the month and the day of the day [n]
    (counted from 0) of a year. *)
Definition month_and_day (n : Z) (leapyear : bool) : Z * Z :=
  let month := Z.shiftr (n + 50) 5 in
  let preceding :=
    _DAYS_BEFORE_MONTH month + (if (month >? 2) && leapyear then 1 else 0) in
  if preceding >? n then
    let month := month - 1 in
    let preceding :=
      preceding
      - (_DAYS_IN_MONTH month + (if (month =? 2) && leapyear then 1 else 0)) in
    (month, n - preceding + 1)
  else (month, n - preceding + 1).

(** The day [n] of a year is the day [d] of the month [m]. *)
Definition month_and_day_ok (leapyear : bool) (n : Z) : bool :=
  let '(m, d) := month_and_day n leapyear in
  (1 <=? m) && (m <=? 12) && (1 <=? d)
  && (d <=? _DAYS_IN_MONTH m + (if (m =? 2) && leapyear then 1 else 0))
  && (_DAYS_BEFORE_MONTH m + (if (m >? 2) && leapyear then 1 else 0) + d
      =? n + 1).

(** The number of days of a year. *)
Definition _days_in_year (year : Z) : Z := if _is_leap year then 366 else 365.

(** Evaluates the month tables at a month that is known. *)
Ltac now_month :=
  cbn [_DAYS_BEFORE_MONTH _DAYS_IN_MONTH Z.eqb Z.gtb Z.compare Pos.compare
       Pos.compare_cont Pos.eqb andb] in *; lia.

(* ================================================================== *)
(** * PeriodSelectorWidget._on_year_change *)
(* ================================================================== *)

(** The period of the selector after the year [value] was chosen in the
    year menu.  The widget keeps [self.period_type] equal to the type of
    [self.current_period]; [None] stands for the [ValueError] of
    [get_max_weeks_in_year]. *)
Definition _on_year_change (current_period : Period) (value : Z) : option Period :=
  let current_period' :=
    mkPeriod (type current_period) value (index current_period) in
  match type current_period with
  | weekly =>
      max_weeks <- get_max_weeks_in_year value ;;
      if index current_period' >? max_weeks
      then Some (mkPeriod weekly value max_weeks)
      else Some current_period'
  | biweekly =>
      max_weeks <- get_max_weeks_in_year value ;;
      let max_biweeks := (max_weeks + 1) / 2 in
      if index current_period' >? max_biweeks
      then Some (mkPeriod biweekly value max_biweeks)
      else Some current_period'
  | quarterly | monthly => Some current_period'
  end.

(** The greatest index of a period of the type in the year. *)
Definition max_index (t : PeriodType) (y : Z) : Z :=
  match t with
  | weekly => weeks_of y
  | biweekly => (weeks_of y + 1) / 2
  | quarterly => 4
  | monthly => 12
  end.

(** The date range of a period, as [format_period_display] asks for it. *)
Definition period_dates (period : Period) : option (date * date) :=
  match type period with
  | weekly => get_week_dates (index period) (year period)
  | biweekly => get_biweek_dates (index period) (year period)
  | quarterly => get_quarter_dates (index period) (year period)
  | monthly => get_month_dates (index period) (year period)
  end.

Local Close Scope Z_scope.
Local Open Scope Q_scope.

(* ================================================================== *)
(** * Binary64: signs of the results *)
(* ================================================================== *)

Local Open Scope Z_scope.

Lemma digits2_size (p : positive) : digits2_pos p = Pos.size p.
Proof. induction p; simpl; congruence. Qed.

(** A positive number of [d] binary digits lies in [2^(d-1), 2^d). *)
Lemma Zdigits2_bounds (m : Z) :
  (0 < m)%Z -> (2 ^ (Zdigits2 m - 1) <= m < 2 ^ Zdigits2 m)%Z.
Proof.
  destruct m as [|p|p]; try lia. intros _. simpl Zdigits2.
  rewrite digits2_size.
  pose proof (Pos.size_gt p) as Hgt. pose proof (Pos.size_le p) as Hle.
  split.
  - assert (H : (2 * 2 ^ (Z.pos (Pos.size p) - 1) = 2 ^ Z.pos (Pos.size p))%Z).
    { rewrite <- Z.pow_succ_r by lia. f_equal. lia. }
    assert (H' : (2 ^ Z.pos (Pos.size p) <= Z.pos p~0)%Z).
    { rewrite <- Pos2Z.inj_pow. now apply Pos2Z.pos_le_pos. }
    lia.
  - rewrite <- Pos2Z.inj_pow. now apply Pos2Z.pos_lt_pos.
Qed.

Lemma Zdigits2_nonneg (m : Z) : (0 <= Zdigits2 m)%Z.
Proof. destruct m; simpl; lia. Qed.

Lemma Zdigits2_pos (m : Z) : (0 < m)%Z -> (0 < Zdigits2 m)%Z.
Proof. destruct m; simpl; lia. Qed.

Lemma Zdigits2_mono (m m' : Z) :
  (0 <= m <= m')%Z -> (Zdigits2 m <= Zdigits2 m')%Z.
Proof.
  intros [H0 Hle].
  destruct (Z.eq_dec m 0) as [->|Hm]; [apply Zdigits2_nonneg|].
  assert (Hpos : (0 < m)%Z) by lia. assert (Hpos' : (0 < m')%Z) by lia.
  destruct (Zdigits2_bounds m Hpos) as [Hlo _].
  destruct (Zdigits2_bounds m' Hpos') as [_ Hhi'].
  destruct (Z_lt_le_dec (Zdigits2 m') (Zdigits2 m)) as [Hlt|]; [|assumption].
  exfalso.
  assert (2 ^ Zdigits2 m' <= 2 ^ (Zdigits2 m - 1))%Z.
  { apply Z.pow_le_mono_r; lia. }
  lia.
Qed.

(** One shift to the right takes one digit away. *)
Lemma shr_1_digits (mrs : shr_record) :
  (0 <= shr_m mrs)%Z ->
  (0 <= shr_m (shr_1 mrs))%Z
  /\ Zdigits2 (shr_m (shr_1 mrs)) = Z.max 0 (Zdigits2 (shr_m mrs) - 1).
Proof.
  destruct mrs as [m r s]. destruct m as [|p|p]; cbn [shr_m]; try lia.
  - intros _. cbn [shr_1 shr_m Zdigits2]. lia.
  - intros _. destruct p; cbn [shr_1 shr_m Zdigits2 digits2_pos];
      rewrite ?Pos2Z.inj_succ; lia.
Qed.

Lemma iter_shr_1_digits (n : positive) :
  forall mrs, (0 <= shr_m mrs)%Z ->
    (0 <= shr_m (iter_pos shr_1 n mrs))%Z
    /\ Zdigits2 (shr_m (iter_pos shr_1 n mrs))
       = Z.max 0 (Zdigits2 (shr_m mrs) - Z.pos n).
Proof.
  induction n as [n IH|n IH|]; intros mrs H; simpl iter_pos.
  - destruct (shr_1_digits mrs H) as [H1 E1].
    destruct (IH _ H1) as [H2 E2]. destruct (IH _ H2) as [H3 E3].
    split; [exact H3|]. rewrite E3, E2, E1. lia.
  - destruct (IH _ H) as [H2 E2]. destruct (IH _ H2) as [H3 E3].
    split; [exact H3|]. rewrite E3, E2. lia.
  - apply shr_1_digits; assumption.
Qed.

Lemma shr_record_of_loc_m (m : Z) (l : location) : shr_m (shr_record_of_loc m l) = m.
Proof. destruct l as [|[]]; reflexivity. Qed.

(** [shr_fexp] keeps a mantissa non-negative, and leaves it the digits
    above the exponent of its format. *)
Lemma shr_fexp_digits (m e : Z) (l : location) :
  (0 <= m)%Z ->
  let r := shr_fexp prec emax m e l in
  (0 <= shr_m (fst r))%Z
  /\ (e <= snd r)%Z
  /\ Zdigits2 (shr_m (fst r)) + snd r
     = Z.max (Zdigits2 m + e) (snd r)
  /\ (snd r = e \/ snd r = fexp prec emax (Zdigits2 m + e)).
Proof.
  intros Hm r. subst r. unfold shr_fexp, shr.
  destruct (fexp prec emax (Zdigits2 m + e) - e)%Z as [|n|n] eqn:En; cbn [fst snd].
  - rewrite shr_record_of_loc_m. pose proof (Zdigits2_nonneg m). lia.
  - destruct (iter_shr_1_digits n (shr_record_of_loc m l)) as [H E].
    { now rewrite shr_record_of_loc_m. }
    rewrite shr_record_of_loc_m in E. rewrite E.
    pose proof (Zdigits2_nonneg m). lia.
  - rewrite shr_record_of_loc_m. pose proof (Zdigits2_nonneg m). lia.
Qed.

Lemma round_nearest_even_ge (m : Z) (l : location) :
  (m <= round_nearest_even m l <= m + 1)%Z.
Proof. destruct l as [|[]]; simpl; try lia. destruct (Z.even m); lia. Qed.

Lemma fexp_lt (x : Z) : (emin prec emax < x)%Z -> (fexp prec emax x < x)%Z.
Proof. unfold fexp, emin, prec, emax. lia. Qed.

Lemma fexp_ge (x : Z) : (emin prec emax <= fexp prec emax x)%Z.
Proof. unfold fexp, emin, prec, emax. lia. Qed.

Lemma fexp_mono (x y : Z) : (x <= y)%Z -> (fexp prec emax x <= fexp prec emax y)%Z.
Proof. unfold fexp, emin, prec, emax. lia. Qed.

(** The result of a rounding has the sign it is given. *)
Lemma binary_round_aux_signed (s : bool) (m e : Z) (l : location) :
  (0 <= m)%Z -> signed s (binary_round_aux prec emax s m e l).
Proof.
  intro Hm. unfold binary_round_aux.
  destruct (shr_fexp_digits m e l Hm) as (H1 & _).
  destruct (shr_fexp prec emax m e l) as [mrs' e'] eqn:E1. cbn [fst snd] in *.
  pose proof (round_nearest_even_ge (shr_m mrs') (loc_of_shr_record mrs')) as Hr.
  destruct (shr_fexp_digits (round_nearest_even (shr_m mrs') (loc_of_shr_record mrs'))
              e' loc_Exact) as (H2 & _); [lia|].
  destruct (shr_fexp prec emax _ e' loc_Exact) as [mrs'' e''] eqn:E2.
  cbn [fst snd] in *.
  destruct (shr_m mrs'') as [|p|p]; [reflexivity| |lia].
  destruct (e'' <=? emax - prec)%Z; reflexivity.
Qed.

(** A positive mantissa above the smallest exponent is not rounded to zero. *)
Lemma binary_round_aux_nonzero (s : bool) (m e : Z) (l : location) :
  (0 < m)%Z -> (emin prec emax < Zdigits2 m + e)%Z ->
  nonzero (binary_round_aux prec emax s m e l).
Proof.
  intros Hm Hd. unfold binary_round_aux.
  destruct (shr_fexp_digits m e l) as (H1 & Hle1 & D1 & C1); [lia|].
  destruct (shr_fexp prec emax m e l) as [mrs' e'] eqn:E1. cbn [fst snd] in *.
  set (m1 := round_nearest_even (shr_m mrs') (loc_of_shr_record mrs')).
  pose proof (round_nearest_even_ge (shr_m mrs') (loc_of_shr_record mrs')) as Hr.
  fold m1 in Hr.
  assert (Hm1 : (0 <= m1)%Z) by lia.
  assert (Hdm1 : (Zdigits2 (shr_m mrs') <= Zdigits2 m1)%Z)
    by (apply Zdigits2_mono; lia).
  destruct (shr_fexp_digits m1 e' loc_Exact Hm1) as (H2 & Hle2 & D2 & C2).
  destruct (shr_fexp prec emax m1 e' loc_Exact) as [mrs'' e''] eqn:E2.
  cbn [fst snd] in *.
  pose proof (Zdigits2_pos m Hm) as Hdp.
  assert (Hgt1 : (e' < Zdigits2 (shr_m mrs') + e')%Z).
  { destruct C1 as [->| ->].
    - pose proof (fexp_lt _ Hd). lia.
    - pose proof (fexp_lt _ Hd). lia. }
  assert (Hgt2 : (e'' < Zdigits2 (shr_m mrs'') + e'')%Z).
  { destruct C2 as [->| ->]; [lia|].
    assert (emin prec emax < Zdigits2 m1 + e')%Z.
    { pose proof (fexp_ge (Zdigits2 m + e)). lia. }
    pose proof (fexp_lt _ H). lia. }
  destruct (shr_m mrs'') as [|p|p]; [simpl in Hgt2; lia| |lia].
  destruct (e'' <=? emax - prec)%Z; exact I.
Qed.

Lemma binary_round_signed (s : bool) (m : positive) (e : Z) :
  signed s (binary_round prec emax s m e).
Proof.
  unfold binary_round. destruct (shl_align _ _ _) as [mz ez].
  apply binary_round_aux_signed. lia.
Qed.

Lemma binary_normalize_neg (m e : Z) (sz : bool) :
  (m < 0)%Z -> signed true (binary_normalize prec emax m e sz).
Proof.
  destruct m as [|p|p]; try lia. intros _. apply binary_round_signed.
Qed.

Local Close Scope Z_scope.

(** ** The value of an aligned mantissa *)

Lemma iter_xO (m d : positive) : Z.pos (Pos.iter xO m d) = (Z.pos m * 2 ^ Z.pos d)%Z.
Proof.
  change (Pos.iter xO m d) with (shift_pos d m).
  rewrite shift_pos_correct. change (Z.pow_pos 2 d) with (2 ^ Z.pos d)%Z. lia.
Qed.

Lemma shl_align_value (m : positive) (e e' : Z) :
  (e' <= e)%Z ->
  Z.pos (fst (shl_align m e e')) = (Z.pos m * 2 ^ (e - e'))%Z.
Proof.
  intro H. unfold shl_align.
  destruct (e' - e)%Z as [|d|d] eqn:E; cbn [fst].
  - replace (e - e')%Z with 0%Z by lia. lia.
  - lia.
  - rewrite iter_xO. f_equal. f_equal. lia.
Qed.

Lemma two_power_pos (e : Z) : 0 < 2 ^ e.
Proof. apply Qpower_0_lt. reflexivity. Qed.

Lemma magnitude_aligned (m : positive) (e e' : Z) :
  (e' <= e)%Z ->
  magnitude m e == inject_Z (Z.pos (fst (shl_align m e e'))) * 2 ^ e'.
Proof.
  intro H. rewrite shl_align_value by exact H. unfold magnitude.
  rewrite inject_Z_mult, Zpower_Qpower by lia.
  replace e with ((e - e') + e')%Z at 1 by lia.
  rewrite Qpower_plus by discriminate.
  change (inject_Z 2) with 2. ring.
Qed.

Lemma exact_aligned (s : bool) (m : positive) (e e' : Z) :
  (e' <= e)%Z ->
  exact (S754_finite s m e)
  == inject_Z (cond_Zopp s (Z.pos (fst (shl_align m e e')))) * 2 ^ e'.
Proof.
  intro H. unfold exact.
  destruct s; cbn [cond_Zopp]; rewrite (magnitude_aligned m e e' H);
    [|reflexivity].
  rewrite inject_Z_opp. ring.
Qed.

Lemma magnitude_pos (m : positive) (e : Z) : 0 < magnitude m e.
Proof.
  unfold magnitude. apply Qmult_lt_0_compat; [|apply two_power_pos].
  change 0 with (inject_Z 0). rewrite <- Zlt_Qlt. lia.
Qed.

(** Subtracting a larger number gives a result with the minus sign. *)
Lemma fsub_signed (x y : float) :
  is_finite x = true -> is_finite y = true -> exact x < exact y ->
  signed true (fsub x y).
Proof.
  intros Hx Hy Hlt.
  destruct x as [sx| |  |sx mx ex]; try discriminate;
    destruct y as [sy| | |sy my ey]; try discriminate.
  - pose proof (magnitude_pos my ey). cbn [exact] in Hlt.
    destruct sy; [lra|]. reflexivity.
  - pose proof (magnitude_pos mx ex). cbn [exact] in Hlt.
    destruct sx; [reflexivity|lra].
  - unfold fsub, SFsub. cbv zeta.
    apply binary_normalize_neg.
    set (ez := Z.min ex ey) in *.
    rewrite (exact_aligned sx mx ex ez), (exact_aligned sy my ey ez) in Hlt
      by (subst ez; lia).
    pose proof (two_power_pos ez) as Hp.
    set (a := cond_Zopp sx _) in *. set (b := cond_Zopp sy _) in *.
    assert (Hab : inject_Z a < inject_Z b).
    { apply Qmult_lt_r with (2 ^ ez); assumption. }
    rewrite <- Zlt_Qlt in Hab. lia.
Qed.

(* ================================================================== *)
(** * Rounding to two decimals *)
(* ================================================================== *)

Lemma of_int_100 : of_int 100 = S754_finite false 7036874417766400 (-46).
Proof. reflexivity. Qed.

Local Open Scope Z_scope.

(** The quotient by 100 of a positive integer has at least 53 bits. *)
Lemma div_core_hundred (p : positive) :
  let r := SFdiv_core_binary prec emax (Z.pos p) 0 (Z.pos 7036874417766400) (-46) in
  0 < fst (fst r) /\ emin prec emax < Zdigits2 (fst (fst r)) + snd (fst r).
Proof.
  unfold SFdiv_core_binary. cbv zeta.
  change (Zdigits2 (Z.pos 7036874417766400)) with 53.
  pose proof (Zdigits2_bounds (Z.pos p) eq_refl) as [Hlo Hhi].
  pose proof (Zdigits2_pos (Z.pos p) eq_refl) as Hd.
  set (d1 := Zdigits2 (Z.pos p)) in *.
  set (e' := Z.min (fexp prec emax (d1 + 0 - (53 + -46))) (0 - -46)).
  assert (He' : e' = Z.min (d1 - 60) 46).
  { subst e'. unfold fexp, emin, prec, emax. lia. }
  set (m' := match 0 - -46 - e' with
             | 0 => Z.pos p
             | Z.pos _ => Z.shiftl (Z.pos p) (0 - -46 - e')
             | Z.neg _ => 0
             end).
  assert (Hbig : 7036874417766400 <= 2 ^ 105) by (intro H; discriminate H).
  assert (Hm' : 2 ^ 105 <= m').
  { subst m'. destruct (0 - -46 - e') as [|s|s] eqn:Es.
    - assert (2 ^ 105 <= 2 ^ (d1 - 1)) by (apply Z.pow_le_mono_r; lia). lia.
    - rewrite Z.shiftl_mul_pow2 by lia.
      assert (E : 2 ^ 105 = 2 ^ (d1 - 1) * 2 ^ Z.pos s).
      { rewrite <- Z.pow_add_r by lia. f_equal. lia. }
      rewrite E. apply Z.mul_le_mono_nonneg_r; [lia|exact Hlo].
    - lia. }
  pose proof (Z.div_str_pos m' 7036874417766400) as Hq.
  unfold Z.div in Hq.
  destruct (Z.div_eucl m' 7036874417766400) as [q r]. cbn [fst snd].
  assert (0 < q) by (apply Hq; lia).
  split; [assumption|].
  pose proof (Zdigits2_pos q H). unfold emin, prec, emax. lia.
Qed.

Local Close Scope Z_scope.

Lemma of_cents_signed (s : bool) (z : Z) : signed s (of_cents s z).
Proof.
  destruct z as [|p|p]; try reflexivity.
  unfold of_cents. rewrite of_int_100. unfold fdiv, SFdiv.
  destruct (SFdiv_core_binary _ _ _ _ _ _) as [[mz ez] lz] eqn:E.
  pose proof (div_core_hundred p) as [H _]. cbv zeta in H. rewrite E in H.
  cbn [fst snd] in H.
  rewrite xorb_false_r. apply binary_round_aux_signed. lia.
Qed.

(** One cent or more is not rounded to zero by the conversion. *)
Lemma of_cents_nonzero (s : bool) (p : positive) : nonzero (of_cents s (Z.pos p)).
Proof.
  unfold of_cents. rewrite of_int_100. unfold fdiv, SFdiv.
  destruct (SFdiv_core_binary _ _ _ _ _ _) as [[mz ez] lz] eqn:E.
  pose proof (div_core_hundred p) as [H H']. cbv zeta in H, H'. rewrite E in H, H'.
  cbn [fst snd] in H, H'.
  rewrite xorb_false_r. now apply binary_round_aux_nonzero.
Qed.

(** [round(x, 2)] keeps the sign of [x]. *)
Lemma round2_signed (s : bool) (x : float) : signed s x -> signed s (round2 x).
Proof.
  destruct x as [s'|s'| |s' m e]; cbn [round2 signed]; try tauto.
  intros <-. apply of_cents_signed.
Qed.

Lemma floor_bounds (x : Q) :
  inject_Z (Qfloor x) <= x /\ x < inject_Z (Qfloor x) + 1.
Proof.
  split; [apply Qfloor_le|].
  pose proof (Qlt_floor x) as H. rewrite inject_Z_plus in H. exact H.
Qed.

(** The rounded integer is within one half of the number. *)
Lemma round_half_even_near (x : Q) :
  x - (1 # 2) <= inject_Z (round_half_even x) <= x + (1 # 2).
Proof.
  unfold round_half_even. cbv zeta.
  destruct (floor_bounds x) as [Hlo Hhi].
  assert (E1 : inject_Z (Qfloor x + 1) == inject_Z (Qfloor x) + 1)
    by (rewrite inject_Z_plus; reflexivity).
  destruct (Qcompare (x - inject_Z (Qfloor x)) (1 # 2)) eqn:E.
  - apply Qeq_alt in E.
    destruct (Z.even (Qfloor x)); split; lra.
  - apply Qlt_alt in E. split; lra.
  - apply Qgt_alt in E. split; lra.
Qed.

Lemma round_half_even_nonneg (x : Q) : 0 <= x -> (0 <= round_half_even x)%Z.
Proof.
  intro H. unfold round_half_even.
  assert (Hf : (0 <= Qfloor x)%Z).
  { change 0%Z with (Qfloor 0). apply Qfloor_resp_le. exact H. }
  destruct (Qcompare _ _); [destruct (Z.even _)| |]; lia.
Qed.

(** Up to half a cent rounds to zero, more than half a cent does not. *)
Lemma round_half_even_zero (x : Q) :
  0 <= x -> x <= 1 # 2 -> round_half_even x = 0%Z.
Proof.
  intros H0 H1. pose proof (round_half_even_nonneg x H0) as Hn.
  unfold round_half_even in *.
  destruct (Qlt_le_dec x 1) as [Hlt|Hge]; [|lra].
  assert (Hf : Qfloor x = 0%Z).
  { pose proof (Qfloor_le x) as Hle. pose proof (Qlt_floor x) as Hfl.
    assert (0 <= Qfloor x)%Z by (change 0%Z with (Qfloor 0); now apply Qfloor_resp_le).
    assert (Qfloor x < 1)%Z.
    { rewrite Zlt_Qlt. apply Qle_lt_trans with x; assumption. }
    lia. }
  rewrite Hf in *. change (inject_Z 0) with 0.
  destruct (Qcompare (x - 0) (1 # 2)) eqn:E; try reflexivity.
  apply Qgt_alt in E. lra.
Qed.

Lemma round_half_even_positive (x : Q) : 1 # 2 < x -> (0 < round_half_even x)%Z.
Proof.
  intro H. destruct (round_half_even_near x) as [Hlo _].
  rewrite Zlt_Qlt. change (inject_Z 0) with 0. lra.
Qed.

(** ** Sample values

    The arithmetic and the rounding on well-known cases: 0.1 + 0.2 is not
    0.3 but rounds to it; 2.675 and 1.005 are floats just below the
    decimals written and round down; 0.125 and 0.375 are exact ties and
    go to the even neighbour; 0.005 is a float just above the decimal and
    rounds up; a small negative number rounds to minus zero. *)
Lemma binary64_samples :
  fadd (decimal 1 1) (decimal 2 1) <> decimal 3 1
  /\ round2 (fadd (decimal 1 1) (decimal 2 1)) = decimal 3 1
  /\ fadd (decimal 7 1) (decimal 1 1) <> decimal 8 1
  /\ fmul (of_int 3) (fdiv (of_int 10) (of_int 100))
     <> fdiv (fmul (of_int 3) (of_int 10)) (of_int 100)
  /\ round2 (decimal 2675 3) = decimal 267 2
  /\ round2 (decimal 1005 3) = of_int 1
  /\ round2 (decimal 125 3) = decimal 12 2
  /\ round2 (decimal 375 3) = decimal 38 2
  /\ round2 (decimal 5 3) = decimal 1 2
  /\ round2 (decimal (-4) 3) = S754_zero true
  /\ round2 (S754_infinity false) = S754_infinity false
  /\ round2 S754_nan = S754_nan.
Proof.
  vm_compute. repeat split; try reflexivity; discriminate.
Qed.
(* ================================================================== *)
(** * Binary64: the accuracy of an addition *)
(* ================================================================== *)

Local Open Scope Z_scope.





Lemma Zdigits2_zero (m : Z) : 0 <= m -> Zdigits2 m = 0 -> m = 0.
Proof. destruct m; simpl; lia. Qed.





Local Close Scope Z_scope.








(* ================================================================== *)
(** * The order on period keys *)
(* ================================================================== *)

Module KeyOrder.

Lemma ascii_compare_refl (a : ascii) : Ascii.compare a a = Eq.
Proof. apply N.compare_refl. Qed.

Lemma ascii_compare_lt_trans (a b c : ascii) :
    Ascii.compare a b = Lt -> Ascii.compare b c = Lt -> Ascii.compare a c = Lt.
Proof.
    unfold Ascii.compare. rewrite !N.compare_lt_iff. apply N.lt_trans.
Qed.

Lemma compare_refl (s : string) : String.compare s s = Eq.
Proof.
    induction s as [|a s IH]; simpl; [reflexivity|].
    now rewrite ascii_compare_refl.
Qed.

Lemma compare_lt_trans (s1 : string) :
    forall s2 s3, String.compare s1 s2 = Lt -> String.compare s2 s3 = Lt ->
                  String.compare s1 s3 = Lt.
Proof.
    induction s1 as [|a s1 IH]; intros [|b s2] [|c s3]; simpl;
      try discriminate; try reflexivity.
    destruct (Ascii.compare a b) eqn:Eab; try discriminate;
      destruct (Ascii.compare b c) eqn:Ebc; try discriminate; intros H1 H2.
    - apply Ascii.compare_eq_iff in Eab, Ebc. subst.
      rewrite ascii_compare_refl. eapply IH; eassumption.
    - apply Ascii.compare_eq_iff in Eab. subst. now rewrite Ebc.
    - apply Ascii.compare_eq_iff in Ebc. subst. now rewrite Eab.
    - now rewrite (ascii_compare_lt_trans _ _ _ Eab Ebc).
Qed.

Lemma leb_refl (s : string) : (s <=? s)%string = true.
Proof. unfold String.leb. now rewrite compare_refl. Qed.

Lemma ltb_leb (s1 s2 : string) : (s1 <? s2)%string = negb (s2 <=? s1)%string.
Proof.
    unfold String.ltb, String.leb. rewrite (String.compare_antisym s1 s2).
    now destruct (String.compare s2 s1).
Qed.

Lemma ltb_irrefl (s : string) : (s <? s)%string = false.
Proof. now rewrite ltb_leb, leb_refl. Qed.

Lemma leb_cases (s1 s2 : string) :
    (s1 <=? s2)%string = true <-> (s1 <? s2)%string = true \/ s1 = s2.
Proof.
    unfold String.leb, String.ltb.
    destruct (String.compare s1 s2) eqn:E; split; intro H; try tauto;
      try discriminate.
    - right. now apply String.compare_eq_iff.
    - destruct H as [H|H]; [discriminate|]. subst.
      rewrite compare_refl in E. discriminate.
Qed.

Lemma ltb_trans (s1 s2 s3 : string) :
    (s1 <? s2)%string = true -> (s2 <? s3)%string = true ->
    (s1 <? s3)%string = true.
Proof.
    unfold String.ltb.
    destruct (String.compare s1 s2) eqn:E12; try discriminate.
    destruct (String.compare s2 s3) eqn:E23; try discriminate.
    now rewrite (compare_lt_trans _ _ _ E12 E23).
Qed.

Lemma leb_trans (s1 s2 s3 : string) :
    (s1 <=? s2)%string = true -> (s2 <=? s3)%string = true ->
    (s1 <=? s3)%string = true.
Proof.
    rewrite !leb_cases. intros [H1|H1] [H2|H2]; subst; auto.
    left. eapply ltb_trans; eassumption.
Qed.

Lemma ltb_leb_trans (s1 s2 s3 : string) :
    (s1 <? s2)%string = true -> (s2 <=? s3)%string = true ->
    (s1 <? s3)%string = true.
Proof.
    rewrite leb_cases. intros H1 [H2|H2]; subst; auto.
    eapply ltb_trans; eassumption.
Qed.

Lemma leb_ltb_trans (s1 s2 s3 : string) :
    (s1 <=? s2)%string = true -> (s2 <? s3)%string = true ->
    (s1 <? s3)%string = true.
Proof.
    rewrite leb_cases. intros [H1|H1] H2; subst; auto.
    eapply ltb_trans; eassumption.
Qed.

End KeyOrder.

(* ================================================================== *)
(** * Sorting by key *)
(* ================================================================== *)

Section SortingFacts.
Context {A : Type} (key : A -> string).

Lemma insert_by_perm (x : A) (l : list A) :
    Permutation (insert_by key x l) (x :: l).
Proof.
    induction l as [|h t IH]; simpl; [reflexivity|].
    destruct (key x <=? key h)%string; [reflexivity|].
    rewrite IH. apply perm_swap.
Qed.

Lemma sorted_perm (l : list A) : Permutation (sorted key l) l.
Proof.
    induction l as [|x t IH]; simpl; [reflexivity|].
    rewrite insert_by_perm. now constructor.
Qed.

Lemma insert_by_HdRel (a x : A) (l : list A) :
    (key_le key) a x -> HdRel (key_le key) a l -> HdRel (key_le key) a (insert_by key x l).
Proof.
    intros Hax Hal. destruct l as [|h t]; simpl; [now constructor|].
    destruct (key x <=? key h)%string; constructor; [exact Hax|].
    now inversion Hal.
Qed.

Lemma insert_by_Sorted (x : A) (l : list A) :
    Sorted (key_le key) l -> Sorted (key_le key) (insert_by key x l).
Proof.
    induction 1 as [|h t Ht IH Hh]; simpl; [repeat constructor|].
    destruct (key x <=? key h)%string eqn:E.
    - repeat constructor; assumption.
    - constructor; [exact IH|].
      apply insert_by_HdRel; [|exact Hh].
      unfold key_le. destruct (String.leb_total (key x) (key h)); congruence.
Qed.

Lemma sorted_Sorted (l : list A) : Sorted (key_le key) (sorted key l).
Proof.
    induction l as [|x t IH]; simpl; [constructor|].
    now apply insert_by_Sorted.
Qed.

  (** A list already in order is returned as it is. *)
Lemma sorted_of_Sorted (l : list A) : Sorted (key_le key) l -> sorted key l = l.
Proof.
    induction 1 as [|h t Ht IH Hh]; simpl; [reflexivity|].
    rewrite IH. destruct Hh as [|b t' Hb]; simpl; [reflexivity|].
    unfold key_le in Hb. now rewrite Hb.
Qed.

Lemma key_le_trans : Relations_1.Transitive (key_le key).
Proof. intros a b c. apply KeyOrder.leb_trans. Qed.

Lemma sorted_StronglySorted (l : list A) : StronglySorted (key_le key) (sorted key l).
Proof. apply Sorted_StronglySorted; [exact key_le_trans|apply sorted_Sorted]. Qed.

  (** In a list in order, an element that goes before the head goes first. *)
Lemma insert_by_front (x : A) (l : list A) :
    Forall (fun y => (key_le key) x y) l -> insert_by key x l = x :: l.
Proof.
    destruct 1 as [|h t Hh _]; simpl; [reflexivity|].
    unfold key_le in Hh. now rewrite Hh.
Qed.

  (** Sorting is stable, so it commutes with selecting entries. *)
Lemma filter_insert_by (p : A -> bool) (x : A) (l : list A) :
    StronglySorted (key_le key) l ->
    filter p (insert_by key x l) =
    if p x then insert_by key x (filter p l) else filter p l.
Proof.
    induction 1 as [|h t Ht IH Hh]; simpl.
    - destruct (p x); reflexivity.
    - destruct (key x <=? key h)%string eqn:E.
      + simpl. destruct (p x) eqn:Px; [|reflexivity].
        destruct (p h) eqn:Ph.
        * simpl. now rewrite E.
        * symmetry. apply insert_by_front.
          apply Forall_forall. intros y Hy. apply filter_In in Hy.
          destruct Hy as [Hy _]. rewrite Forall_forall in Hh.
          eapply KeyOrder.leb_trans; [exact E|]. now apply Hh.
      + simpl. rewrite IH. destruct (p h) eqn:Ph; destruct (p x) eqn:Px;
          simpl; try reflexivity. now rewrite E.
Qed.

Lemma filter_sorted (p : A -> bool) (l : list A) :
    filter p (sorted key l) = sorted key (filter p l).
Proof.
    induction l as [|x t IH]; simpl; [reflexivity|].
    rewrite filter_insert_by by apply sorted_StronglySorted.
    rewrite IH. now destruct (p x).
Qed.

End SortingFacts.

(* ================================================================== *)
(** * The ledger fold *)
(* ================================================================== *)

Lemma run_loop_snoc (l : list Entry) (e : Entry) :
  run_loop (l ++ [e]) = loop_body (run_loop l) e.
Proof. unfold run_loop. now rewrite fold_left_app. Qed.

Lemma loop_body_running (st : Loop) (e : Entry) :
  running_saved (loop_body st e) = accrue (running_saved st) e.
Proof. reflexivity. Qed.

(** The loop appends one processed entry per entry, in order. *)
Lemma fold_processed_app (r : list Entry) :
  forall st, exists suffix,
    processed_entries (fold_left loop_body r st) = processed_entries st ++ suffix
    /\ map base suffix = r.
Proof.
  induction r as [|e r IH]; intro st; simpl.
  - exists []. now rewrite app_nil_r.
  - destruct (IH (loop_body st e)) as (suffix & Hs & Hb).
    eexists (_ :: suffix). split.
    + rewrite Hs. simpl. rewrite <- app_assoc. reflexivity.
    + simpl. now rewrite Hb.
Qed.

Lemma run_loop_bases (l : list Entry) :
  map base (processed_entries (run_loop l)) = l.
Proof.
  destruct (fold_processed_app l loop_init) as (suffix & Hs & Hb).
  unfold run_loop. rewrite Hs. exact Hb.
Qed.

Lemma run_loop_length (l : list Entry) :
  List.length (processed_entries (run_loop l)) = List.length l.
Proof. now rewrite <- (run_loop_bases l) at 2; rewrite List.length_map. Qed.

(** The processed entry of position [length l] is the one appended when
    the loop reaches it. *)
Lemma run_loop_nth (l : list Entry) (e : Entry) (rest : list Entry) :
  nth_error (processed_entries (run_loop (l ++ e :: rest))) (List.length l) =
  Some (mkProcessed e
          (round2 (interest_on (running_saved (run_loop l)) e))
          (round2 (accrue (running_saved (run_loop l)) e))).
Proof.
  unfold run_loop at 1. rewrite fold_left_app. simpl.
  destruct (fold_processed_app rest (loop_body (fold_left loop_body l loop_init) e))
    as (suffix & Hs & _).
  rewrite Hs. simpl. rewrite <- app_assoc.
  rewrite nth_error_app2; fold (run_loop l); rewrite run_loop_length; [|lia].
  now rewrite Nat.sub_diag.
Qed.

(** C1.  [_calculate_totals] folds the entries in ascending order of their
    period keys, starting from a zero balance and zero sums.  When the fold
    reaches an entry [e] after the entries [l], the interest is the balance
    carried in times the hundredth of the entry's own rate (the code
    divides the rate by 100, then multiplies), the balance then grows by
    the interest and by [saved], and shrinks by [usedFromSaved]; the four
    sums accumulate; the emitted entry carries the rounded interest and
    balance; the totals are read off the final state.  Every operation is
    the binary64 one.  On the ledger [ann] (100 saved in January; February
    at 10 percent, nothing saved) the balance is 100 after January,
    February earns 10.00 and ends at 110.00, and the total interest is
    10.00. *)
Theorem calculate_totals_fold
  (kid : Kid) (l : list Entry) (e : Entry) (rest : list Entry)
  (H : sorted period (kid_entries kid) = l ++ e :: rest) :
  let before := run_loop l in
  let after := run_loop (l ++ [e]) in
  let interest := fmul (running_saved before) (fdiv (interestRate e) (of_int 100)) in
  (Permutation (l ++ e :: rest) (kid_entries kid)
   /\ Sorted (key_le period) (l ++ e :: rest))
  /\ (running_saved (run_loop []) = of_int 0
      /\ total_spent (run_loop []) = of_int 0 /\ total_given (run_loop []) = of_int 0
      /\ total_interest (run_loop []) = of_int 0
      /\ total_used_from_saved (run_loop []) = of_int 0)
  /\ (running_saved after =
        fsub (fadd (fadd (running_saved before) interest) (saved e))
             (usedFromSaved e)
      /\ total_interest after = fadd (total_interest before) interest
      /\ total_spent after = fadd (total_spent before) (spent e)
      /\ total_given after = fadd (total_given before) (given e)
      /\ total_used_from_saved after =
           fadd (total_used_from_saved before) (usedFromSaved e))
  /\ nth_error (entries (_calculate_totals kid)) (List.length l) =
       Some (mkProcessed e (round2 interest) (round2 (running_saved after)))
  /\ _calculate_totals kid = finish (run_loop (l ++ e :: rest))
  /\ (map (fun p => period (base p)) (entries (_calculate_totals ann))
        = ["2024-01"; "2024-02"]
      /\ map runningSaved (entries (_calculate_totals ann))
         = [of_int 100; of_int 110]
      /\ map interestEarned (entries (_calculate_totals ann))
         = [of_int 0; of_int 10]
      /\ totalInterest (_calculate_totals ann) = of_int 10
      /\ totalSaved (_calculate_totals ann) = of_int 110).
Proof.
  intros before after interest. subst before after interest.
  rewrite run_loop_snoc.
  split; [|split; [|split; [|split; [|split]]]].
  - rewrite <- H. split; [apply sorted_perm|apply sorted_Sorted].
  - repeat split; reflexivity.
  - repeat split; reflexivity.
  - unfold _calculate_totals. rewrite H. cbn [entries finish].
    rewrite run_loop_nth. reflexivity.
  - unfold _calculate_totals. now rewrite H.
  - vm_compute. repeat split; reflexivity.
Qed.

Lemma calculate_totals_fold_witness :
  sorted period (kid_entries ann) = [jan] ++ feb :: []
  /\ nth_error (entries (_calculate_totals ann)) 1 =
       Some (mkProcessed feb
               (round2 (fmul (running_saved (run_loop [jan]))
                             (fdiv (interestRate feb) (of_int 100))))
               (round2 (running_saved (run_loop ([jan] ++ [feb]))))).
Proof.
  split; [reflexivity|].
  pose proof (calculate_totals_fold ann [jan] feb [] eq_refl)
    as (_ & _ & _ & Hnth & _).
  exact Hnth.
Defined.

(** The interest of an entry is rounded from its binary64 value: half a
    cent of interest (1 percent on 0.50) is the float just above 0.005 and
    is emitted as 0.01, and the balance 0.505 as 0.51. *)
Lemma interest_half_cent :
  map interestEarned (entries (_calculate_totals ivy)) = [of_int 0; decimal 1 2]
  /\ map runningSaved (entries (_calculate_totals ivy)) = [decimal 5 1; decimal 51 2]
  /\ totalSaved (_calculate_totals ivy) = decimal 51 2.
Proof. vm_compute. repeat split; reflexivity. Qed.

(* ------------------------------------------------------------------ *)
(** ** The reporting identity *)

Lemma of_cents_zero (s : bool) : of_cents s 0 = S754_zero s.
Proof. reflexivity. Qed.

(** A rounded figure is a whole number of hundredths. *)
Lemma round2_hundredths (x : float) :
  is_finite x = true -> hundredths (cents_of x) (round2 x).
Proof.
  destruct x as [s|s| |s m e]; try discriminate; intros _.
  - exists s. split; [reflexivity|]. intro H. now elim H.
  - cbn [cents_of round2].
    pose proof (magnitude_pos m e) as Hm.
    assert (Hz : (0 <= round_half_even (magnitude m e * 100))%Z)
      by (apply round_half_even_nonneg; lra).
    set (z := round_half_even (magnitude m e * 100)) in *.
    exists s. destruct s.
    + rewrite Z.abs_opp, Z.abs_eq by exact Hz. split; [reflexivity|].
      intro H. symmetry. apply Z.ltb_lt. lia.
    + rewrite Z.abs_eq by exact Hz. split; [reflexivity|].
      intro H. symmetry. apply Z.ltb_ge. lia.
Qed.

(** It is within half a hundredth of the number that was rounded. *)
Lemma cents_of_near (x : float) :
  Qabs (inject_Z (cents_of x) - exact x * 100) <= 1 # 2.
Proof.
  apply Qabs_Qle_condition.
  destruct x as [s|s| |s m e]; cbn [cents_of exact];
    try (change (inject_Z 0) with 0; split; lra).
  destruct (round_half_even_near (magnitude m e * 100)) as [Hlo Hhi].
  destruct s; [rewrite inject_Z_opp|]; split; lra.
Qed.





(** The bound on the amounts is needed: with 2e16 spent and 0.30 saved
    the binary64 sum of the terms is 2e16, the 0.30 is lost, and
    [grandTotal] is 0.30 below [totalSpent + totalSaved]. *)
Lemma reporting_identity_large_amounts :
  let t := _calculate_totals hugo in
  totalSpent t = of_int 20000000000000000 /\ totalSaved t = decimal 3 1
  /\ totalGiven t = of_int 0 /\ grandTotal t = of_int 20000000000000000.
Proof. vm_compute. repeat split; reflexivity. Qed.

(* ------------------------------------------------------------------ *)
(** ** No check inside the fold *)

Lemma of_int_0 : of_int 0 = S754_zero false.
Proof. reflexivity. Qed.

Lemma signed_true_le (x : float) : signed true x -> fle x (of_int 0) = true.
Proof.
  rewrite of_int_0. destruct x as [s|s| |s m e]; cbn [signed]; try tauto;
    intros ->; reflexivity.
Qed.

Lemma signed_true_lt (x : float) :
  signed true x -> nonzero x -> flt x (of_int 0) = true.
Proof.
  rewrite of_int_0. destruct x as [s|s| |s m e]; cbn [signed nonzero]; try tauto;
    intros -> _; reflexivity.
Qed.

(** A negative number rounds to a negative number when it is more than
    half a cent below zero, and to minus zero otherwise. *)
Lemma round2_negative (x : float) :
  signed true x ->
  signed true (round2 x)
  /\ (exact x < - (1 # 200) -> flt (round2 x) (of_int 0) = true)
  /\ (is_finite x = true -> - (1 # 200) <= exact x -> round2 x = S754_zero true).
Proof.
  intro Hs. split; [now apply round2_signed|].
  destruct x as [s|s| |s m e]; cbn [signed] in Hs; try tauto; subst s.
  - split; [cbn [exact]; lra|reflexivity].
  - split; [cbn [exact]; lra|discriminate].
  - cbn [exact round2]. split.
    + intro H.
      assert (Hz : (0 < round_half_even (magnitude m e * 100))%Z)
        by (apply round_half_even_positive; lra).
      destruct (round_half_even (magnitude m e * 100)) as [|p|p]; try lia.
      apply signed_true_lt; [apply of_cents_signed|apply of_cents_nonzero].
    + intros _ H. pose proof (magnitude_pos m e) as Hm.
      rewrite round_half_even_zero by lra. reflexivity.
Qed.

(** Sorting commutes with a map that keeps the keys. *)
Lemma sorted_map {A B : Type} (f : A -> B) (key : B -> string) (l : list A) :
  sorted key (map f l) = map f (sorted (fun x => key (f x)) l).
Proof.
  induction l as [|a l IH]; simpl; [reflexivity|]. rewrite IH.
  generalize (sorted (fun x => key (f x)) l). intro l'.
  induction l' as [|b l' IH']; simpl; [reflexivity|].
  destruct (key (f a) <=? key (f b))%string; simpl; [reflexivity|].
  now rewrite IH'.
Qed.

(** On stored entries that hold the keys read by index the loop goes
    through: it is the loop on the entries with their defaults. *)
Lemma fold_stored_well_formed (l : list StoredEntry) :
  forallb well_formed l = true ->
  forall st, fold_left stored_loop_body l (Some st)
             = Some (fold_left loop_body (map with_defaults l) st).
Proof.
  induction l as [|s l IH]; cbn [forallb fold_left map]; intros H st;
    [reflexivity|].
  apply andb_true_iff in H. destruct H as [Hs Hl].
  unfold well_formed in Hs. rewrite !andb_true_iff in Hs.
  destruct Hs as [[[_ H1] H2] H3].
  assert (E : stored_loop_body (Some st) s = Some (loop_body st (with_defaults s))).
  { unfold stored_loop_body, item. now rewrite H1, H2, H3. }
  rewrite E. now apply IH.
Qed.

(** [_calculate_totals] returns on every collection of stored entries that
    hold [period], [spent], [saved] and [given], with one processed entry
    per entry; a missing [interestRate] or [usedFromSaved] counts as 0. *)
Lemma calculate_totals_stored_total (l : list StoredEntry) :
  forallb well_formed l = true ->
  _calculate_totals_stored l
  = Some (finish (run_loop (map with_defaults
                                (sorted (fun s => period (stored s)) l))))
  /\ forall t, _calculate_totals_stored l = Some t ->
               List.length (entries t) = List.length l.
Proof.
  intro H.
  assert (Hp : forallb (fun s => holds s "period") l = true).
  { rewrite forallb_forall in H |- *. intros s Hs. specialize (H s Hs).
    unfold well_formed in H. rewrite !andb_true_iff in H. tauto. }
  assert (Hsorted : forallb well_formed (sorted (fun s => period (stored s)) l) = true).
  { rewrite forallb_forall in H |- *. intros s Hs. apply H.
    eapply Permutation_in; [apply sorted_perm|exact Hs]. }
  assert (E : _calculate_totals_stored l
              = Some (finish (run_loop (map with_defaults
                                          (sorted (fun s => period (stored s)) l))))).
  { unfold _calculate_totals_stored. rewrite Hp.
    rewrite (fold_stored_well_formed _ Hsorted). reflexivity. }
  split; [exact E|]. intros t Ht. rewrite E in Ht. injection Ht as <-.
  cbn [entries finish]. rewrite run_loop_length, length_map.
  apply Permutation_length, sorted_perm.
Qed.

Lemma with_defaults_all (e : Entry) : with_defaults (mkStored e []) = e.
Proof. destruct e. reflexivity. Qed.

(** On the entries the program writes, which hold every key, it is the
    function on entries. *)
Lemma calculate_totals_stored_entries (kid : Kid) :
  _calculate_totals_stored (map (fun e => mkStored e []) (kid_entries kid))
  = Some (_calculate_totals kid).
Proof.
  destruct (calculate_totals_stored_total
              (map (fun e => mkStored e []) (kid_entries kid))) as [E _].
  { apply forallb_forall. intros s Hs. apply in_map_iff in Hs.
    destruct Hs as (e & <- & _). reflexivity. }
  rewrite E. unfold _calculate_totals. do 3 f_equal.
  rewrite (sorted_map (fun e => mkStored e []) (fun s => period (stored s))).
  rewrite map_map. cbn [stored].
  rewrite (map_ext _ (fun e => e)) by (intro e; apply with_defaults_all).
  apply map_id.
Qed.

(** An entry that lacks one of the keys read by index stops the function:
    [KeyError]. *)
Lemma calculate_totals_stored_missing_key :
  _calculate_totals_stored [mkStored jan ["saved"]] = None
  /\ _calculate_totals_stored [mkStored jan []; mkStored feb ["period"]] = None
  /\ _calculate_totals_stored [mkStored jan ["interestRate"; "usedFromSaved"]]
     = Some (_calculate_totals (mkKid "k" "n" (allocation ann) (of_int 0) [jan])).
Proof. vm_compute. repeat split; reflexivity. Qed.

(** C10, as stated, fails in one case: an overdraft of less than half a
    cent is emitted as minus zero, which is not a negative number.  In
    [gil] February starts from 1.00, earns 0.6 percent and withdraws 1.01:
    the savings accumulated are below the withdrawal, and both the emitted
    [runningSaved] and [totalSaved] are -0.0. *)
Lemma calculate_totals_total_counterexample :
  let t := _calculate_totals gil in
  (exists e, nth_error (kid_entries gil) 1 = Some e
             /\ exact (accumulated (of_int 1) e) < exact (usedFromSaved e))
  /\ map runningSaved (entries t) = [of_int 1; S754_zero true]
  /\ totalSaved t = S754_zero true
  /\ flt (totalSaved t) (of_int 0) = false.
Proof.
  split; [|vm_compute; repeat split; reflexivity].
  eexists. split; [reflexivity|]. vm_compute. reflexivity.
Qed.

(** C10, amended.  On entries that hold the keys it reads by index (every
    entry the program writes does) [_calculate_totals] returns, emits one
    processed entry per entry and checks no ceiling.  When an entry
    withdraws more than the savings accumulated up to it (the balance
    carried in, its interest and the entry's own saving, both sides
    finite), the balance after it has the minus sign and the emitted
    [runningSaved] is its rounding: never positive and no error; a
    negative number when the balance is more than half a cent below zero,
    minus zero when it is within half a cent of zero.  [totalSaved] is the
    same figure when the entry is the last one.  On [overdrawn] (10 saved,
    25 withdrawn) both are -15. *)
Theorem calculate_totals_total
  (kid : Kid) (l : list Entry) (e : Entry) (rest : list Entry)
  (H : sorted period (kid_entries kid) = l ++ e :: rest)
  (Hacc : is_finite (accumulated (running_saved (run_loop l)) e) = true)
  (Hused : is_finite (usedFromSaved e) = true)
  (Hover : exact (accumulated (running_saved (run_loop l)) e)
           < exact (usedFromSaved e)) :
  let t := _calculate_totals kid in
  let balance := running_saved (run_loop (l ++ [e])) in
  _calculate_totals_stored (map (fun e => mkStored e []) (kid_entries kid)) = Some t
  /\ List.length (entries t) = List.length (kid_entries kid)
  /\ balance = fsub (accumulated (running_saved (run_loop l)) e) (usedFromSaved e)
  /\ signed true balance
  /\ (exists p, nth_error (entries t) (List.length l) = Some p
                /\ base p = e /\ runningSaved p = round2 balance
                /\ fle (runningSaved p) (of_int 0) = true
                /\ (exact balance < - (1 # 200) ->
                    flt (runningSaved p) (of_int 0) = true)
                /\ (is_finite balance = true -> - (1 # 200) <= exact balance ->
                    runningSaved p = S754_zero true))
  /\ (rest = [] -> totalSaved t = round2 balance)
  /\ (map runningSaved (entries (_calculate_totals overdrawn)) = [of_int (-15)]
      /\ totalSaved (_calculate_totals overdrawn) = of_int (-15)).
Proof.
  intros t balance. subst t balance.
  assert (Hbal : running_saved (run_loop (l ++ [e]))
                 = fsub (accumulated (running_saved (run_loop l)) e)
                        (usedFromSaved e))
    by (now rewrite run_loop_snoc).
  assert (Hneg : signed true (running_saved (run_loop (l ++ [e])))).
  { rewrite Hbal. now apply fsub_signed. }
  destruct (round2_negative _ Hneg) as (Hs & Hlt & Hzero).
  split; [apply calculate_totals_stored_entries|].
  split; [|split; [exact Hbal|split; [exact Hneg|split; [|split]]]].
  - unfold _calculate_totals. cbn [entries finish]. rewrite run_loop_length.
    apply Permutation_length, sorted_perm.
  - eexists. split; [|split; [|split; [|split; [|split]]]].
    + unfold _calculate_totals. rewrite H. cbn [entries finish]. apply run_loop_nth.
    + reflexivity.
    + cbn [runningSaved]. now rewrite run_loop_snoc.
    + cbn [runningSaved]. rewrite <- loop_body_running, <- run_loop_snoc.
      now apply signed_true_le.
    + cbn [runningSaved]. rewrite <- loop_body_running, <- run_loop_snoc.
      exact Hlt.
    + cbn [runningSaved]. rewrite <- loop_body_running, <- run_loop_snoc.
      exact Hzero.
  - intros ->. unfold _calculate_totals. now rewrite H.
  - vm_compute. split; reflexivity.
Qed.

Lemma calculate_totals_total_witness :
  sorted period (kid_entries overdrawn) = [] ++ hd jan (kid_entries overdrawn) :: []
  /\ exact (accumulated (of_int 0) (hd jan (kid_entries overdrawn)))
     < exact (usedFromSaved (hd jan (kid_entries overdrawn)))
  /\ List.length (entries (_calculate_totals overdrawn)) = 1%nat.
Proof.
  split; [reflexivity|]. split; [vm_compute; reflexivity|].
  refine (proj1 (proj2 (calculate_totals_total overdrawn [] _ [] eq_refl _ _ _)));
    vm_compute; reflexivity.
Defined.

(* ================================================================== *)
(** * Adding an entry *)
(* ================================================================== *)

Lemma get_kid_in_inv (ks : list Kid) (k : string) (kid : Kid) (t : Totals) :
  get_kid_in ks k = Some (kid, t) -> t = _calculate_totals kid /\ kid_id kid = k.
Proof.
  induction ks as [|h ks IH]; simpl; [discriminate|].
  destruct (kid_id h =? k)%string eqn:E; [|exact IH].
  intros [= <- <-]. split; [reflexivity|]. now apply String.eqb_eq.
Qed.

Lemma add_entry_in_missing (ks : list Kid) (k uuid now : string) (a : EntryArgs) :
  get_kid_in ks k = None -> add_entry_in ks k uuid now a = None.
Proof.
  induction ks as [|h ks IH]; simpl; [reflexivity|].
  destruct (kid_id h =? k)%string; [discriminate|].
  intro H. now rewrite (IH H).
Qed.

Lemma add_entry_in_duplicate (ks : list Kid) (k uuid now : string)
  (a : EntryArgs) (kid : Kid) (t : Totals) :
  get_kid_in ks k = Some (kid, t) ->
  has_period (kid_entries kid) (arg_period a) = true ->
  add_entry_in ks k uuid now a = None.
Proof.
  induction ks as [|h ks IH]; simpl; [discriminate|].
  destruct (kid_id h =? k)%string.
  - intros [= <- _] ->. reflexivity.
  - intros Hk Hp. now rewrite (IH Hk Hp).
Qed.

Lemma add_entry_in_fresh (ks : list Kid) (k uuid now : string)
  (a : EntryArgs) (kid : Kid) (t : Totals) :
  get_kid_in ks k = Some (kid, t) ->
  has_period (kid_entries kid) (arg_period a) = false ->
  exists ks',
    add_entry_in ks k uuid now a = Some (new_entry uuid now a, ks')
    /\ List.length ks' = List.length ks
    /\ exists t',
        get_kid_in ks' k =
        Some (set_entries kid (kid_entries kid ++ [new_entry uuid now a]), t').
Proof.
  induction ks as [|h ks IH]; simpl; [discriminate|].
  destruct (kid_id h =? k)%string eqn:E.
  - intros [= <- _] ->. eexists. split; [reflexivity|]. split; [reflexivity|].
    simpl. rewrite E. eexists. reflexivity.
  - intros Hk Hp. destruct (IH Hk Hp) as (ks' & -> & Hlen & t' & Hg).
    eexists. split; [reflexivity|]. split; [simpl; now rewrite Hlen|].
    simpl. rewrite E. eexists. exact Hg.
Qed.

Lemma has_period_In (es : list Entry) (p : string) :
  has_period es p = true <-> exists e, In e es /\ period e = p.
Proof.
  unfold has_period. rewrite existsb_exists.
  split; intros (e & He & Hp); exists e; split; auto; now apply String.eqb_eq.
Qed.

(** A failed [add_entry] does not write. *)
Lemma add_entry_None (data : Data) (k uuid now : string) (a : EntryArgs) :
  fst (add_entry data k uuid now a) = None ->
  snd (add_entry data k uuid now a) = data.
Proof.
  unfold add_entry.
  destruct (add_entry_in (kids data) k uuid now a) as [[e ks]|]; simpl;
    [discriminate|reflexivity].
Qed.

(** Whatever [_add_entry] ends in other than [Success], the dataset is the
    one it started from. *)
Lemma _add_entry_no_partial_write (data : Data) (k uuid now : string) (f : AddForm) :
  fst (_add_entry data k uuid now f) <> Success ->
  snd (_add_entry data k uuid now f) = data.
Proof.
  unfold _add_entry.
  destruct (add_amount f) as [amount|]; [|reflexivity].
  destruct (fle amount (of_int 0)); [reflexivity|].
  destruct (add_used_from_saved f) as [used|]; [|reflexivity].
  destruct (flt used (of_int 0)); [reflexivity|].
  destruct (get_kid data k) as [[kid t]|]; [|reflexivity].
  destruct (flt (totalSaved t) used); [reflexivity|].
  match goal with |- context [add_entry ?d ?k ?u ?n ?a] =>
    pose proof (add_entry_None d k u n a) as Hn;
    destruct (add_entry d k u n a) as [[e|] data'] end; simpl in *.
  - congruence.
  - intros _. now apply Hn.
Qed.

(** C5.  When the kid already has an entry with the period key of the
    call, [add_entry] returns [None] and leaves the dataset (so the kid's
    entries and their number) as it was, whatever the period type and the
    other arguments are; from the details view the call ends in
    [DuplicatePeriod] once the form has passed the checks made before. *)
Theorem add_entry_duplicate_period
  (data : Data) (kid_id' uuid now : string) (a : EntryArgs)
  (kid : Kid) (t : Totals) (e : Entry)
  (Hkid : get_kid data kid_id' = Some (kid, t))
  (Hin : In e (kid_entries kid))
  (Hkey : period e = arg_period a) :
  add_entry data kid_id' uuid now a = (None, data)
  /\ (forall kid' t', get_kid (snd (add_entry data kid_id' uuid now a)) kid_id'
                      = Some (kid', t') ->
                      List.length (kid_entries kid') = List.length (kid_entries kid))
  /\ (forall amount used periodType',
         fle amount (of_int 0) = false -> flt used (of_int 0) = false ->
         flt (totalSaved t) used = false ->
         _add_entry data kid_id' uuid now
                    (mkAddForm (Some amount) (Some used) (arg_period a) periodType')
         = (DuplicatePeriod, data)).
Proof.
  assert (Hdup : has_period (kid_entries kid) (arg_period a) = true).
  { apply has_period_In. now exists e. }
  assert (Hadd : forall a', arg_period a' = arg_period a ->
                            add_entry data kid_id' uuid now a' = (None, data)).
  { intros a' Ha'. unfold add_entry.
    rewrite (add_entry_in_duplicate _ _ uuid now a' _ _ Hkid); [reflexivity|].
    now rewrite Ha'. }
  split; [now apply Hadd|split].
  - rewrite (Hadd a eq_refl). simpl. intros kid' t'. rewrite Hkid.
    now intros [= <- _].
  - intros amount used periodType' Ha Hu Hc. unfold _add_entry.
    cbn [add_amount add_used_from_saved add_period_key add_period_type].
    rewrite Ha, Hu, Hkid, Hc. now rewrite Hadd.
Qed.

Lemma add_entry_duplicate_period_witness :
  add_entry ann_data "kid_1" "u" "t3"
            (mkArgs "2024-02" "weekly" (of_int 5) (of_int 0) (of_int 40)
                    (of_int 40) (of_int 20) (of_int 0)) = (None, ann_data).
Proof.
  refine (proj1 (add_entry_duplicate_period ann_data "kid_1" "u" "t3"
                   (mkArgs "2024-02" "weekly" (of_int 5) (of_int 0) (of_int 40)
                           (of_int 40) (of_int 20) (of_int 0))
                   ann (_calculate_totals ann) feb eq_refl _ eq_refl)).
  simpl. now left.
Defined.

(* ------------------------------------------------------------------ *)
(** ** Validation before adding *)

(** C4, as stated, fails: the percentages of a new entry are the kid's
    stored default allocation and are not checked when the entry is added.
    With the allocation 50/50/50 the entry is stored. *)
Lemma add_entry_percent_counterexample :
  let f := mkAddForm (Some (of_int 10)) (Some (of_int 0)) "2024-01" "monthly" in
  let r := _add_entry dan_data "kid_4" "u" "t" f in
  off_100 (alloc_spent (allocation dan)) (alloc_saved (allocation dan))
          (alloc_given (allocation dan)) = true
  /\ fst r = Success
  /\ snd r <> dan_data
  /\ exists t, get_kid (snd r) "kid_4" =
               Some (set_entries dan
                       [new_entry "u" "t"
                          (mkArgs "2024-01" "monthly" (of_int 10) (of_int 0)
                                  (of_int 50) (of_int 50) (of_int 50)
                                  (of_int 0))], t).
Proof.
  vm_compute. split; [reflexivity|]. split; [reflexivity|].
  split; [discriminate|]. eexists. reflexivity.
Qed.

(** C4, amended.  [_add_entry] ends in [ValidationError], with the dataset
    unchanged, whenever the amount or the withdrawal does not parse, the
    amount is not positive ([amount <= 0]), or the withdrawal is negative
    ([used_from_saved < 0]); and whatever a
    call ends in other than [Success], the dataset is unchanged.  (The sum
    of the percentages is checked when the default allocation is saved and
    when an entry is edited, not here.) *)
Theorem add_entry_validation
  (data : Data) (kid_id' uuid now : string) (f : AddForm)
  (H : add_amount f = None
       \/ (exists amount, add_amount f = Some amount
                          /\ fle amount (of_int 0) = true)
       \/ add_used_from_saved f = None
       \/ (exists used, add_used_from_saved f = Some used
                        /\ flt used (of_int 0) = true)) :
  _add_entry data kid_id' uuid now f = (ValidationError, data)
  /\ (forall f', fst (_add_entry data kid_id' uuid now f') <> Success ->
                 snd (_add_entry data kid_id' uuid now f') = data).
Proof.
  split; [|intro f'; apply _add_entry_no_partial_write].
  unfold _add_entry.
  destruct (add_amount f) as [amount|] eqn:Ea; [|reflexivity].
  destruct (fle amount (of_int 0)) eqn:Eb; [reflexivity|].
  destruct (add_used_from_saved f) as [used|] eqn:Eu; [|reflexivity].
  destruct (flt used (of_int 0)) eqn:En; [reflexivity|].
  exfalso.
  destruct H as [H|[(amount' & [= <-] & H)|[H|(used' & [= <-] & H)]]];
    congruence.
Qed.

Lemma add_entry_validation_witness :
  _add_entry ann_data "kid_1" "u" "t3"
             (mkAddForm (Some (of_int 5)) (Some (of_int (-1))) "2024-03" "monthly")
  = (ValidationError, ann_data).
Proof.
  refine (proj1 (add_entry_validation ann_data "kid_1" "u" "t3" _ _)).
  right; right; right. exists (of_int (-1)). split; [reflexivity|reflexivity].
Defined.

(* ------------------------------------------------------------------ *)
(** ** The ceiling on the withdrawal of a new entry *)

(** C3.  [_add_entry] compares the withdrawal of a new entry with the
    kid's [totalSaved], the balance after all existing entries, whatever
    their keys, and without the new entry's own saving; [edit_entry]
    compares it with the balance before the entry plus the entry's saving.
    The two disagree on the same entry.

    For [fay] (100 saved in February, everything spent by default) a new
    January entry has nothing before it and saves nothing, so nothing is
    available; the withdrawal of 50 is accepted all the same, January ends
    at -50, and the edit dialog refuses the very values the entry was
    stored with.

    For [eve], who has no entry, a new entry of 100 saves 40; a withdrawal
    of 10 is refused when the entry is added, and accepted when the entry
    is added without it and then edited. *)
Theorem add_entry_ceiling_divergence :
  (let f := mkAddForm (Some (of_int 10)) (Some (of_int 50)) "2024-01" "monthly" in
   let r := _add_entry fay_data "kid_6" "u" "t" f in
   available_saved_spec (kid_entries fay) "2024-01" (of_int 0) = of_int 0
   /\ totalSaved (_calculate_totals fay) = of_int 100
   /\ fst r = Success
   /\ (exists kid t,
         get_kid (snd r) "kid_6" = Some (kid, t)
         /\ map (fun e => (id e, period e, saved e, usedFromSaved e)) (kid_entries kid)
            = [("f1", "2024-02", of_int 100, of_int 0);
               ("entry_u", "2024-01", of_int 0, of_int 50)]
         /\ map (fun p => (period (base p), runningSaved p)) (entries t)
            = [("2024-01", of_int (-50)); ("2024-02", of_int 50)])
   /\ edit_entry (snd r) "kid_6" "entry_u" "t2"
        (Some (mkEditForm (of_int 10) (of_int 100) (of_int 0) (of_int 0)
                          (of_int 0) (of_int 50) "2024-01" "monthly"))
      = (Overdraw, snd r))
  /\
  (let f := mkAddForm (Some (of_int 100)) (Some (of_int 10)) "2024-01" "monthly" in
   let f0 := mkAddForm (Some (of_int 100)) (Some (of_int 0)) "2024-01" "monthly" in
   let r0 := _add_entry eve_data "kid_5" "u" "t" f0 in
   available_saved_spec (kid_entries eve) "2024-01" (of_int 40) = of_int 40
   /\ _add_entry eve_data "kid_5" "u" "t" f = (Overdraw, eve_data)
   /\ fst r0 = Success
   /\ (exists kid t,
         get_kid (snd r0) "kid_5" = Some (kid, t)
         /\ map (fun e => (id e, period e, saved e, usedFromSaved e)) (kid_entries kid)
            = [("entry_u", "2024-01", of_int 40, of_int 0)])
   /\ fst (edit_entry (snd r0) "kid_5" "entry_u" "t2"
             (Some (mkEditForm (of_int 100) (of_int 40) (of_int 40) (of_int 20)
                               (of_int 0) (of_int 10) "2024-01" "monthly")))
      = Success).
Proof.
  vm_compute. split.
  - do 3 (split; [reflexivity|]). split; [|reflexivity].
    eexists. eexists. repeat split; reflexivity.
  - do 3 (split; [reflexivity|]). split; [|reflexivity].
    eexists. eexists. repeat split; reflexivity.
Qed.

(* ================================================================== *)
(** * Editing an entry *)
(* ================================================================== *)

Lemma fold_emitted (l : list Entry) :
  forall st, processed_entries (fold_left loop_body l st)
             = processed_entries st ++ emitted st l.
Proof.
  induction l as [|e r IH]; intro st; simpl.
  - now rewrite app_nil_r.
  - rewrite IH. simpl. now rewrite <- app_assoc.
Qed.

Lemma run_loop_emitted (l : list Entry) :
  processed_entries (run_loop l) = emitted loop_init l.
Proof. unfold run_loop. now rewrite fold_emitted. Qed.


(** The search of [_edit_entry] stops at the first entry with the id and
    hands over the rounded balance emitted just before it. *)
Lemma find_target_emitted (entry_id : string) (target : Entry) (post : list Entry) :
  id target = entry_id ->
  forall (pre : list Entry) (st : Loop) (b : float),
    Forall (fun e => id e <> entry_id) pre ->
    exists p,
      find_target (emitted st (pre ++ target :: post)) entry_id b =
      Some (p, match pre with
               | [] => b
               | _ => round2 (running_saved (fold_left loop_body pre st))
               end)
      /\ base p = target.
Proof.
  intro Hid. induction pre as [|e pre IH]; intros st b Hpre;
    cbn [app emitted find_target base].
  - rewrite Hid, String.eqb_refl. eexists. split; reflexivity.
  - pose proof (Forall_inv Hpre) as He. pose proof (Forall_inv_tail Hpre) as Hpre'.
    apply String.eqb_neq in He. rewrite He. cbn [runningSaved].
    destruct (IH (loop_body st e) (round2 (running_saved (loop_body st e))) Hpre')
      as (p & Hp & Hb).
    exists p. split; [|exact Hb]. rewrite Hp. now destruct pre.
Qed.

Lemma Sorted_map_key {A B : Type} (f : A -> B) (key : B -> string) (l : list A) :
  Sorted (key_le key) (map f l) -> Sorted (key_le (fun x => key (f x))) l.
Proof.
  induction l as [|a l IH]; simpl; intro H; [constructor|].
  inversion H as [|? ? Hs Hh]; subst. constructor; [now apply IH|].
  destruct l; simpl in *; constructor. now inversion Hh.
Qed.

(** The processed entries of the totals are in key order already: sorting
    them again changes nothing. *)
Lemma sorted_entries_totals (kid : Kid) :
  sorted (fun x => period (base x)) (entries (_calculate_totals kid))
  = processed_entries (run_loop (sorted period (kid_entries kid))).
Proof.
  unfold _calculate_totals. cbn [entries finish].
  apply sorted_of_Sorted. apply Sorted_map_key.
  rewrite run_loop_bases. apply sorted_Sorted.
Qed.

Lemma StronglySorted_split {A : Type} (R : A -> A -> Prop) (pre : list A) :
  forall x post, StronglySorted R (pre ++ x :: post) ->
                 Forall (fun e => R e x) pre /\ Forall (R x) post.
Proof.
  induction pre as [|a pre IH]; simpl; intros x post H.
  - split; [constructor|]. now inversion H.
  - inversion H as [|? ? Hs Ha]; subst. destruct (IH _ _ Hs) as [H1 H2].
    split; [|exact H2]. constructor; [|exact H1].
    rewrite Forall_forall in Ha. apply Ha. apply in_or_app. right. now left.
Qed.

Lemma filter_none {A : Type} (p : A -> bool) (l : list A) :
  (forall e, In e l -> p e = false) -> filter p l = [].
Proof.
  induction l as [|a l IH]; simpl; intro H; [reflexivity|].
  rewrite (H a (or_introl eq_refl)). apply IH. intros e He. apply H. now right.
Qed.

(** In a key-sorted list without repeated keys, the entries before an
    entry are exactly the entries with a smaller key. *)
Lemma filter_earlier (pre : list Entry) (x : Entry) (post : list Entry) :
  StronglySorted (key_le period) (pre ++ x :: post) ->
  NoDup (map period (pre ++ x :: post)) ->
  filter (fun e => (period e <? period x)%string) (pre ++ x :: post) = pre.
Proof.
  intros Hs Hn. destruct (StronglySorted_split _ _ _ _ Hs) as [Hpre Hpost].
  rewrite filter_app. simpl. rewrite KeyOrder.ltb_irrefl.
  rewrite map_app in Hn. simpl in Hn.
  assert (Hx : ~ In (period x) (map period pre)).
  { intro Hin. apply NoDup_remove_2 in Hn. apply Hn.
    apply in_or_app. now left. }
  replace (filter _ post) with (@nil Entry).
  - rewrite app_nil_r. apply forallb_filter_id. apply forallb_forall.
    intros e He. rewrite Forall_forall in Hpre. specialize (Hpre e He).
    apply KeyOrder.leb_cases in Hpre. destruct Hpre as [Hlt|Heq]; [exact Hlt|].
    exfalso. apply Hx. rewrite <- Heq. now apply in_map.
  - symmetry. apply filter_none.
    intros e He. rewrite Forall_forall in Hpost. specialize (Hpost e He).
    rewrite KeyOrder.ltb_leb. unfold key_le in Hpost. now rewrite Hpost.
Qed.

(** The dialog opens on the entry with the id, and the balance handed to
    it is the rounded balance after the entries with a smaller key. *)
Lemma _edit_entry_target (kid : Kid) (target : Entry) :
  In target (kid_entries kid) ->
  NoDup (map id (kid_entries kid)) ->
  NoDup (map period (kid_entries kid)) ->
  exists p before,
    _edit_entry (_calculate_totals kid) (id target) = Some (p, before)
    /\ base p = target
    /\ before =
       round2 (running_saved
                 (run_loop (sorted period
                    (filter (fun e => (period e <? period target)%string)
                            (kid_entries kid))))).
Proof.
  intros Hin Hids Hkeys.
  pose proof (sorted_perm period (kid_entries kid)) as Hperm.
  assert (Hin' : In target (sorted period (kid_entries kid)))
    by (eapply Permutation_in; [symmetry; exact Hperm|exact Hin]).
  destruct (in_split _ _ Hin') as (pre & post & Hsplit).
  assert (Hids' : NoDup (map id (pre ++ target :: post))).
  { rewrite <- Hsplit. eapply Permutation_NoDup; [|exact Hids].
    apply Permutation_map. now symmetry. }
  assert (Hkeys' : NoDup (map period (pre ++ target :: post))).
  { rewrite <- Hsplit. eapply Permutation_NoDup; [|exact Hkeys].
    apply Permutation_map. now symmetry. }
  assert (Hpre : Forall (fun e => id e <> id target) pre).
  { apply Forall_forall. intros e He Heq.
    rewrite map_app in Hids'. simpl in Hids'. apply NoDup_remove_2 in Hids'.
    apply Hids'. apply in_or_app. left. rewrite <- Heq. now apply in_map. }
  destruct (find_target_emitted (id target) target post eq_refl pre loop_init
              (of_int 0) Hpre)
    as (p & Hp & Hb).
  unfold _edit_entry. cbv zeta.
  rewrite sorted_entries_totals, run_loop_emitted, Hsplit.
  eexists. eexists. split; [exact Hp|]. split; [exact Hb|].
  rewrite <- filter_sorted, Hsplit, filter_earlier;
    [|rewrite <- Hsplit; apply sorted_StronglySorted|exact Hkeys'].
  destruct pre; reflexivity.
Qed.

Lemma replaced_other (es : list Entry) (entry_id now : string) (u : UpdateArgs) :
  ~ In entry_id (map id es) -> replaced es entry_id now u = es.
Proof.
  induction es as [|e es IH]; simpl; intro H; [reflexivity|].
  destruct (id e =? entry_id)%string eqn:E.
  - apply String.eqb_eq in E. tauto.
  - f_equal. apply IH. tauto.
Qed.

Lemma update_entry_scan_same_key
  (all es : list Entry) (target : Entry) (now : string) (u : UpdateArgs) :
  In target es -> NoDup (map id es) ->
  upd_period u = Some (period target) ->
  update_entry_scan all es (id target) now u
  = Returned (Some (replaced es (id target) now u)).
Proof.
  intros Hin Hids Hp. induction es as [|e es IH]; [destruct Hin|].
  simpl in Hids. inversion Hids as [|? ? Hnot Hids']; subst.
  simpl. destruct (id e =? id target)%string eqn:E.
  - apply String.eqb_eq in E.
    assert (He : e = target).
    { destruct Hin as [He|Hin]; [exact He|].
      exfalso. apply Hnot. rewrite E. now apply in_map. }
    subst e. rewrite (replaced_other es) by exact Hnot.
    rewrite Hp. unfold truthy.
    destruct (period target) eqn:Ep; [reflexivity|].
    rewrite String.eqb_refl. reflexivity.
  - destruct Hin as [He|Hin]; [subst; now rewrite String.eqb_refl in E|].
    now rewrite (IH Hin Hids').
Qed.

Lemma update_entry_in_found
  (ks : list Kid) (k entry_id now : string) (u : UpdateArgs)
  (kid : Kid) (t : Totals) (es' : list Entry) :
  get_kid_in ks k = Some (kid, t) ->
  update_entry_scan (kid_entries kid) (kid_entries kid) entry_id now u
  = Returned (Some es') ->
  exists ks' t',
    update_entry_in ks k entry_id now u = Some ks'
    /\ get_kid_in ks' k = Some (set_entries kid es', t').
Proof.
  induction ks as [|h ks IH]; simpl; [discriminate|].
  destruct (kid_id h =? k)%string eqn:E.
  - intros [= <- _] ->. eexists. eexists. split; [reflexivity|].
    simpl. now rewrite E.
  - intros Hk Hs. destruct (IH Hk Hs) as (ks' & t' & -> & Hg).
    exists (h :: ks'), t'. split.
    + now destruct (update_entry_scan _ _ _ _ _) as [[?|]|].
    + cbn [get_kid_in]. rewrite E. exact Hg.
Qed.

(** Two elements of a list without repeated images have different
    images. *)
Lemma NoDup_map_same {A B : Type} (f : A -> B) (l : list A) (a b : A) :
  NoDup (map f l) -> In a l -> In b l -> f a = f b -> a = b.
Proof.
  induction l as [|x l IH]; simpl; intros Hn Ha Hb E; [destruct Ha|].
  inversion Hn as [|? ? Hx Hn']; subst.
  destruct Ha as [->|Ha], Hb as [->|Hb]; try reflexivity.
  - exfalso. apply Hx. rewrite E. now apply in_map.
  - exfalso. apply Hx. rewrite <- E. now apply in_map.
  - now apply IH.
Qed.

(** C2, as stated, fails on its example: the ceiling of February in [ann]
    is the 100.00 carried out of January plus the 0 saved in February; the
    10.00 of interest earned in February are not part of it, and a
    withdrawal of 110 is refused. *)
Lemma edit_entry_ceiling_counterexample :
  totalSaved (_calculate_totals ann) = of_int 110
  /\ available_saved_at (kid_entries ann) feb = of_int 100
  /\ edit_entry ann_data "kid_1" "entry_2" "t3" (feb_form (of_int 110))
     = (Overdraw, ann_data).
Proof.
  vm_compute. repeat split; reflexivity.
Qed.

(** C2, amended.  For an edit that keeps the entry's period key and saved
    amount, the withdrawal may not exceed [available_saved_at]: the
    emitted (rounded) [runningSaved] after the entries strictly earlier by
    period key plus the entry's saved amount; the interest of the entry's
    own period is not included.  For a kid whose entries have distinct ids
    and keys and a form that passes the other checks, a withdrawal above
    the ceiling ends in [Overdraw] with the dataset unchanged; otherwise
    the edit succeeds and the entry is replaced.  In [ann] the ceiling of
    February is 100.00: withdrawals of 111 and 101 end in [Overdraw] and
    leave the entries unchanged; 100 succeeds and the recomputed final
    balance is 10.00. *)
Theorem edit_entry_ceiling
  (data : Data) (kid_id' now : string) (kid : Kid) (t : Totals)
  (target : Entry) (f : EditForm)
  (Hkid : get_kid data kid_id' = Some (kid, t))
  (Hin : In target (kid_entries kid))
  (Hids : NoDup (map id (kid_entries kid)))
  (Hkeys : NoDup (map period (kid_entries kid)))
  (Hamount : fle (edit_amount f) (of_int 0) = false)
  (Hpct : off_100 (edit_spent_pct f) (edit_saved_pct f) (edit_given_pct f) = false)
  (Hused : flt (edit_used_from_saved f) (of_int 0) = false)
  (Hperiod : edit_period_key f = period target)
  (Hsaved : share (edit_amount f) (edit_saved_pct f) = saved target) :
  let available := available_saved_at (kid_entries kid) target in
  let u := mkUpdate (edit_amount f) (edit_spent_pct f) (edit_saved_pct f)
                    (edit_given_pct f) (edit_interest_rate f)
                    (edit_used_from_saved f)
                    (Some (edit_period_key f)) (Some (edit_period_type f)) in
  (flt available (edit_used_from_saved f) = true ->
   edit_entry data kid_id' (id target) now (Some f) = (Overdraw, data))
  /\ (flt available (edit_used_from_saved f) = false ->
      exists data' t',
        edit_entry data kid_id' (id target) now (Some f) = (Success, data')
        /\ get_kid data' kid_id' =
           Some (set_entries kid (replaced (kid_entries kid) (id target) now u), t')
        /\ forall e', In e' (replaced (kid_entries kid) (id target) now u) ->
                      id e' = id target ->
                      period e' = period target /\ saved e' = saved target
                      /\ usedFromSaved e' = round2 (edit_used_from_saved f))
  /\ (edit_entry ann_data "kid_1" "entry_2" "t3" (feb_form (of_int 111))
        = (Overdraw, ann_data)
      /\ edit_entry ann_data "kid_1" "entry_2" "t3" (feb_form (of_int 101))
        = (Overdraw, ann_data)
      /\ fst (edit_entry ann_data "kid_1" "entry_2" "t3" (feb_form (of_int 100)))
         = Success
      /\ forall kid' t',
           get_kid (snd (edit_entry ann_data "kid_1" "entry_2" "t3"
                           (feb_form (of_int 100))))
                   "kid_1" = Some (kid', t') ->
           totalSaved t' = of_int 10).
Proof.
  intros available u.
  destruct (get_kid_in_inv _ _ _ _ Hkid) as [Ht _].
  destruct (_edit_entry_target kid target Hin Hids Hkeys)
    as (p & before & Hedit & Hbase & Hbefore).
  assert (Hav : dialog_available_saved p before = available).
  { unfold dialog_available_saved, available, available_saved_at.
    now rewrite Hbase, Hbefore. }
  assert (Hstep : edit_entry data kid_id' (id target) now (Some f) =
                  _save data kid_id' now p (dialog_available_saved p before) (Some f)).
  { unfold edit_entry. rewrite Hkid, Ht, Hedit. reflexivity. }
  split; [|split].
  - intro Hlt. rewrite Hstep. unfold _save. rewrite Hamount, Hpct, Hused, Hav.
    now rewrite Hlt.
  - intro Hle. rewrite Hstep. unfold _save. rewrite Hamount, Hpct, Hused, Hav, Hle.
    rewrite Hbase. fold u. unfold update_entry.
    assert (Hscan : update_entry_scan (kid_entries kid) (kid_entries kid)
                      (id target) now u
                    = Returned (Some (replaced (kid_entries kid) (id target) now u))).
    { apply update_entry_scan_same_key; [exact Hin|exact Hids|].
      cbn [upd_period u]. now rewrite Hperiod. }
    destruct (update_entry_in_found (kids data) kid_id' (id target) now u
                kid t _ Hkid Hscan) as (ks' & t' & -> & Hg).
    eexists. exists t'. split; [reflexivity|]. split; [exact Hg|].
    intros e' He' Hid'. unfold replaced in He'. apply in_map_iff in He'.
    destruct He' as (e0 & E0 & Hin0).
    destruct (id e0 =? id target)%string eqn:Eid.
    + apply String.eqb_eq in Eid.
      assert (e0 = target).
      { exact (NoDup_map_same id _ _ _ Hids Hin0 Hin Eid). }
      subst e0 e'. cbn [period saved usedFromSaved updated_entry u upd_amount
                        upd_saved_pct upd_used_from_saved].
      repeat split; [|exact Hsaved].
      destruct (truthy _); reflexivity.
    + subst e'. apply String.eqb_neq in Eid. contradiction.
  - split; [reflexivity|split; [reflexivity|split; [reflexivity|]]].
    intros kid' t'. vm_compute. intros [= <- <-]. reflexivity.
Qed.

Lemma edit_entry_ceiling_witness :
  edit_entry ann_data "kid_1" (id feb) "t3" (feb_form (of_int 101))
  = (Overdraw, ann_data).
Proof.
  refine (proj1 (edit_entry_ceiling ann_data "kid_1" "t3" ann
                   (_calculate_totals ann) feb
                   (mkEditForm (of_int 10) (of_int 100) (of_int 0) (of_int 0)
                               (of_int 10) (of_int 101) "2024-02" "monthly")
                   eq_refl _ _ _ _ _ _ _ _) _).
  - simpl. now left.
  - vm_compute. repeat constructor; simpl; intuition discriminate.
  - vm_compute. repeat constructor; simpl; intuition discriminate.
  - vm_compute. reflexivity.
  - vm_compute. reflexivity.
  - vm_compute. reflexivity.
  - reflexivity.
  - vm_compute. reflexivity.
  - vm_compute. reflexivity.
Defined.

(** The ceiling is a binary64 sum.  In [kai] 0.70 is carried out of January
    and February saves 0.10: the ceiling of February is 0.7 + 0.1, the
    float just below 0.8, and a withdrawal of 0.80 is refused. *)
Lemma edit_entry_ceiling_binary :
  available_saved_at (kid_entries kai) kai_feb = fadd (decimal 7 1) (decimal 1 1)
  /\ flt (fadd (decimal 7 1) (decimal 1 1)) (decimal 8 1) = true
  /\ edit_entry kai_data "kid_11" "k2" "t3"
       (Some (mkEditForm (decimal 1 1) (of_int 0) (of_int 100) (of_int 0)
                         (of_int 0) (decimal 8 1) "2024-02" "monthly"))
     = (Overdraw, kai_data).
Proof. vm_compute. repeat split; reflexivity. Qed.

(* ================================================================== *)
(** * Further properties of the DataManager *)
(* ================================================================== *)

(** ** update_entry *)

(** No entry of the list has the id, or the list splits at the first one
    that has. *)
Lemma first_with_id (es : list Entry) (entry_id : string) :
  Forall (fun e => id e <> entry_id) es
  \/ exists pre target post,
       es = pre ++ target :: post
       /\ Forall (fun e => id e <> entry_id) pre /\ id target = entry_id.
Proof.
  induction es as [|e es IH]; [left; constructor|].
  destruct (String.eqb_spec (id e) entry_id) as [He|He].
  - right. exists [], e, es. repeat split; [constructor|exact He].
  - destruct IH as [IH|(pre & target & post & -> & Hpre & Hid)].
    + left. now constructor.
    + right. exists (e :: pre), target, post. repeat split; [|exact Hid].
      now constructor.
Qed.

Lemma update_entry_scan_missing (all es : list Entry) (entry_id now : string)
  (u : UpdateArgs) :
  Forall (fun e => id e <> entry_id) es ->
  update_entry_scan all es entry_id now u = Continue.
Proof.
  induction 1 as [|e es He _ IH]; simpl; [reflexivity|].
  apply String.eqb_neq in He. now rewrite He, IH.
Qed.

(** What the scan returns when it reaches the first entry with the id. *)
Lemma update_entry_scan_first (all pre post : list Entry) (target : Entry)
  (entry_id now : string) (u : UpdateArgs) :
  Forall (fun e => id e <> entry_id) pre -> id target = entry_id ->
  update_entry_scan all (pre ++ target :: post) entry_id now u =
  match truthy (upd_period u) with
  | Some p =>
      if (p =? period target)%string
      then Returned (Some (pre ++ updated_entry target now u false :: post))
      else if period_taken all entry_id p then Returned None
           else Returned (Some (pre ++ updated_entry target now u true :: post))
  | None => Returned (Some (pre ++ updated_entry target now u false :: post))
  end.
Proof.
  intros Hpre Hid. induction Hpre as [|e pre He _ IH]; simpl.
  - rewrite Hid, String.eqb_refl. unfold period_taken.
    destruct (truthy (upd_period u)) as [p|]; [|reflexivity].
    destruct (p =? period target)%string; simpl; [reflexivity|].
    now destruct (existsb _ all).
  - apply String.eqb_neq in He. rewrite He, IH.
    destruct (truthy (upd_period u)) as [p|]; [|reflexivity].
    destruct (p =? period target)%string; [reflexivity|].
    now destruct (period_taken all entry_id p).
Qed.

Lemma update_entry_in_missing_kid (ks : list Kid) (k entry_id now : string)
  (u : UpdateArgs) :
  get_kid_in ks k = None -> update_entry_in ks k entry_id now u = None.
Proof.
  induction ks as [|h ks IH]; simpl; [reflexivity|].
  destruct (kid_id h =? k)%string; [discriminate|].
  intro H. now rewrite (IH H).
Qed.

(** The kid found by [get_kid] is the kid [update_entry] scans first. *)
Lemma update_entry_in_at_kid (ks : list Kid) (k entry_id now : string)
  (u : UpdateArgs) (kid : Kid) (t : Totals) :
  get_kid_in ks k = Some (kid, t) ->
  match update_entry_scan (kid_entries kid) (kid_entries kid) entry_id now u with
  | Returned (Some es') =>
      exists ks' t',
        update_entry_in ks k entry_id now u = Some ks'
        /\ get_kid_in ks' k = Some (set_entries kid es', t')
  | Returned None => update_entry_in ks k entry_id now u = None
  | Continue =>
      forall ks', update_entry_in ks k entry_id now u = Some ks' ->
                  get_kid_in ks' k = Some (kid, t)
  end.
Proof.
  induction ks as [|h ks IH]; simpl; [discriminate|].
  destruct (kid_id h =? k)%string eqn:E.
  - intros [= <- <-].
    destruct (update_entry_scan _ _ _ _ _) as [[es'|]|].
    + eexists. eexists. split; [reflexivity|]. simpl. now rewrite E.
    + reflexivity.
    + intros ks'.
      destruct (update_entry_in ks k entry_id now u); [|discriminate].
      intros [= <-]. simpl. now rewrite E.
  - intro Hk. specialize (IH Hk).
    destruct (update_entry_scan _ _ _ _ _) as [[es'|]|].
    + destruct IH as (ks' & t' & -> & Hg). exists (h :: ks'), t'.
      split; [reflexivity|]. simpl. now rewrite E.
    + now rewrite IH.
    + intros ks'.
      destruct (update_entry_in ks k entry_id now u) as [r|]; [|discriminate].
      intros [= <-]. simpl. rewrite E. now apply IH.
Qed.

(** X1.  An update that asks for a period owned by another entry of the
    kid is refused and nothing is written: with the target entry's id
    among the kid's entries, a non-empty new period different from the
    target's own, and some entry with another id on that period,
    [update_entry] returns [False] and leaves the dataset as it was. *)
Theorem update_entry_period_conflict
  (data : Data) (kid_id' now p : string) (u : UpdateArgs)
  (kid : Kid) (t : Totals) (pre post : list Entry) (target other : Entry)
  (Hkid : get_kid data kid_id' = Some (kid, t))
  (Hsplit : kid_entries kid = pre ++ target :: post)
  (Hpre : Forall (fun e => id e <> id target) pre)
  (Hp : upd_period u = Some p) (Hne : p <> "")
  (Hdiff : p <> period target)
  (Hother : In other (kid_entries kid))
  (Hoid : id other <> id target) (Hop : period other = p) :
  update_entry data kid_id' (id target) now u = (false, data).
Proof.
  unfold update_entry, get_kid in *.
  pose proof (update_entry_in_at_kid _ _ (id target) now u _ _ Hkid) as H.
  pose proof (update_entry_scan_first (kid_entries kid) pre post target
                (id target) now u Hpre eq_refl) as Hscan.
  rewrite <- Hsplit in Hscan. rewrite Hscan in H. clear Hscan.
  assert (Ht : truthy (upd_period u) = Some p).
  { rewrite Hp. destruct p; [congruence|reflexivity]. }
  rewrite Ht in H. apply String.eqb_neq in Hdiff. rewrite Hdiff in H.
  assert (Htaken : period_taken (kid_entries kid) (id target) p = true).
  { unfold period_taken. apply existsb_exists. exists other.
    split; [exact Hother|].
    apply String.eqb_neq in Hoid. rewrite Hoid, Hop, String.eqb_refl. reflexivity. }
  rewrite Htaken in H. now rewrite H.
Qed.

Lemma update_entry_period_conflict_witness :
  update_entry ann_data "kid_1" (id feb) "t3"
               (mkUpdate (of_int 10) (of_int 100) (of_int 0) (of_int 0) (of_int 10)
                   (of_int 0) (Some "2024-01") (Some "monthly"))
  = (false, ann_data).
Proof.
  apply (update_entry_period_conflict ann_data "kid_1" "t3" "2024-01" _
           ann (_calculate_totals ann) [] [jan] feb jan);
    try reflexivity; try discriminate.
  - constructor.
  - simpl. auto.
Defined.


Lemma updated_entry_id (e : Entry) (now : string) (u : UpdateArgs) (move : bool) :
  id (updated_entry e now u move) = id e.
Proof. reflexivity. Qed.

Lemma updated_entry_period_kept (e : Entry) (now : string) (u : UpdateArgs) :
  period (updated_entry e now u false) = period e.
Proof. unfold updated_entry. simpl. now destruct (truthy (upd_period u)). Qed.

Lemma period_taken_false (es : list Entry) (entry_id p : string) (e : Entry) :
  period_taken es entry_id p = false -> In e es -> id e <> entry_id ->
  period e <> p.
Proof.
  unfold period_taken. intros H Hin Hid Hp.
  assert (Ht : existsb (fun other => negb (id other =? entry_id)%string
                                     && (period other =? p)%string) es = true).
  { apply existsb_exists. exists e. split; [exact Hin|].
    apply String.eqb_neq in Hid. rewrite Hid, Hp, String.eqb_refl. reflexivity. }
  congruence.
Qed.

(** X2.  A successful [update_entry] keeps the kid's ledger well formed:
    for a kid whose entries have distinct ids and distinct period keys,
    after the update the kid has the same entry ids in the same order, the
    period keys are still distinct, every entry with another id is still
    there unchanged, and the kid's default allocation is untouched. *)
Theorem update_entry_keeps_ledger
  (data data' : Data) (kid_id' entry_id now : string) (u : UpdateArgs)
  (kid : Kid) (t : Totals)
  (Hkid : get_kid data kid_id' = Some (kid, t))
  (Hids : NoDup (map id (kid_entries kid)))
  (Hkeys : NoDup (map period (kid_entries kid)))
  (Hupd : update_entry data kid_id' entry_id now u = (true, data')) :
  exists kid' t',
    get_kid data' kid_id' = Some (kid', t')
    /\ map id (kid_entries kid') = map id (kid_entries kid)
    /\ NoDup (map period (kid_entries kid'))
    /\ (forall e, In e (kid_entries kid) -> id e <> entry_id ->
                  In e (kid_entries kid'))
    /\ allocation kid' = allocation kid
    /\ kid_interestRate kid' = kid_interestRate kid.
Proof.
  unfold update_entry, get_kid in *.
  pose proof (update_entry_in_at_kid _ _ entry_id now u _ _ Hkid) as H.
  destruct (first_with_id (kid_entries kid) entry_id)
    as [Hnone|(pre & target & post & Hsplit & Hpre & Hid)].
  - rewrite (update_entry_scan_missing _ _ _ now u Hnone) in H.
    destruct (update_entry_in (kids data) kid_id' entry_id now u) as [ks'|];
      [|discriminate].
    injection Hupd as <-. exists kid, t. simpl.
    split; [now apply H|]. repeat split; auto.
  - pose proof (update_entry_scan_first (kid_entries kid) pre post target
                  entry_id now u Hpre Hid) as Hscan.
    rewrite <- Hsplit in Hscan. rewrite Hscan in H. clear Hscan.
    assert (Hpost : Forall (fun e => id e <> entry_id) post).
    { apply Forall_forall. intros e He Heq.
      rewrite Hsplit, map_app in Hids. simpl in Hids.
      apply NoDup_remove_2 in Hids. apply Hids. apply in_or_app. right.
      rewrite Hid, <- Heq. now apply in_map. }
    assert (Hkept : forall move e,
               In e (kid_entries kid) -> id e <> entry_id ->
               In e (pre ++ updated_entry target now u move :: post)).
    { intros move e He Hne. rewrite Hsplit in He.
      apply in_app_or in He. apply in_or_app.
      destruct He as [He|[He|He]]; [now left|congruence|right; now right]. }
    assert (Hsame : forall move,
               map id (pre ++ updated_entry target now u move :: post)
               = map id (kid_entries kid)).
    { intro move. now rewrite Hsplit, !map_app. }
    assert (Hstay : NoDup (map period (pre ++ updated_entry target now u false :: post))).
    { rewrite map_app. cbn [map]. rewrite updated_entry_period_kept.
      now rewrite Hsplit, map_app in Hkeys. }
    assert (Hdone : forall move,
               NoDup (map period (pre ++ updated_entry target now u move :: post)) ->
               (exists ks' t',
                   update_entry_in (kids data) kid_id' entry_id now u = Some ks'
                   /\ get_kid_in ks' kid_id'
                      = Some (set_entries kid
                                (pre ++ updated_entry target now u move :: post), t')) ->
               exists kid' t',
                 get_kid_in (kids data') kid_id' = Some (kid', t')
                 /\ map id (kid_entries kid') = map id (kid_entries kid)
                 /\ NoDup (map period (kid_entries kid'))
                 /\ (forall e, In e (kid_entries kid) -> id e <> entry_id ->
                               In e (kid_entries kid'))
                 /\ allocation kid' = allocation kid
                 /\ kid_interestRate kid' = kid_interestRate kid).
    { intros move Hnd (ks' & t' & Hu & Hg). rewrite Hu in Hupd.
      injection Hupd as <-. eexists. exists t'. split; [exact Hg|].
      simpl. repeat split; auto. }
    destruct (truthy (upd_period u)) as [p|] eqn:Ep; [|now apply (Hdone false)].
    destruct (p =? period target)%string eqn:Esame; [now apply (Hdone false)|].
    destruct (period_taken (kid_entries kid) entry_id p) eqn:Etaken.
    + rewrite H in Hupd. discriminate.
    + apply (Hdone true); [|exact H].
      rewrite map_app. cbn [map].
      assert (Hper : period (updated_entry target now u true) = p).
      { unfold updated_entry. simpl. now rewrite Ep. }
      rewrite Hper.
      rewrite Hsplit, map_app in Hkeys. simpl in Hkeys.
      apply NoDup_remove_1 in Hkeys.
      eapply Permutation_NoDup; [apply Permutation_middle|].
      constructor; [|exact Hkeys].
      intro Hin. apply in_app_or in Hin. rewrite !in_map_iff in Hin.
      destruct Hin as [(e & He & Hine)|(e & He & Hine)].
      * apply (period_taken_false _ _ _ e Etaken);
          [|exact (proj1 (Forall_forall _ pre) Hpre e Hine)|exact He].
        rewrite Hsplit. apply in_or_app. now left.
      * apply (period_taken_false _ _ _ e Etaken);
          [|exact (proj1 (Forall_forall _ post) Hpost e Hine)|exact He].
        rewrite Hsplit. apply in_or_app. right. now right.
Qed.

Lemma update_entry_keeps_ledger_witness :
  exists kid' t',
    get_kid (snd (update_entry ann_data "kid_1" "entry_2" "t3"
                    (mkUpdate (of_int 10) (of_int 100) (of_int 0) (of_int 0) (of_int 10)
                        (of_int 0) (Some "2024-03") (Some "monthly"))))
            "kid_1" = Some (kid', t')
    /\ map id (kid_entries kid') = map id (kid_entries ann).
Proof.
  destruct (update_entry_keeps_ledger ann_data
              (snd (update_entry ann_data "kid_1" "entry_2" "t3"
                      (mkUpdate (of_int 10) (of_int 100) (of_int 0) (of_int 0)
                          (of_int 10) (of_int 0) (Some "2024-03") (Some "monthly"))))
              "kid_1" "entry_2" "t3"
              (mkUpdate (of_int 10) (of_int 100) (of_int 0) (of_int 0) (of_int 10)
                  (of_int 0) (Some "2024-03") (Some "monthly"))
              ann (_calculate_totals ann) eq_refl)
    as (kid' & t' & Hg & Hi & _).
  - vm_compute. repeat constructor; simpl; intuition discriminate.
  - vm_compute. repeat constructor; simpl; intuition discriminate.
  - reflexivity.
  - exists kid', t'. split; [exact Hg|exact Hi].
Defined.


(** ** add_entry, delete_entry and the other kids *)

Lemma add_entry_in_other (ks : list Kid) (k k' uuid now : string) (a : EntryArgs)
  (e : Entry) (ks' : list Kid) :
  add_entry_in ks k uuid now a = Some (e, ks') -> k' <> k ->
  get_kid_in ks' k' = get_kid_in ks k'.
Proof.
  revert ks'. induction ks as [|h ks IH]; intros ks'; simpl; [discriminate|].
  destruct (kid_id h =? k)%string eqn:E.
  - destruct (has_period _ _); [discriminate|]. intros [= _ <-] Hne. simpl.
    apply String.eqb_eq in E. rewrite E.
    apply not_eq_sym, String.eqb_neq in Hne. now rewrite Hne.
  - destruct (add_entry_in ks k uuid now a) as [[e0 r]|]; [|discriminate].
    intros [= <- <-] Hne. simpl. now rewrite (IH r eq_refl Hne).
Qed.

(** X3.  Adding an entry under a free period key appends exactly the new
    entry to the kid's entries, keeps the period keys distinct when they
    were, and leaves every other kid as it was. *)
Theorem add_entry_appends
  (data : Data) (kid_id' uuid now : string) (a : EntryArgs)
  (kid : Kid) (t : Totals)
  (Hkid : get_kid data kid_id' = Some (kid, t))
  (Hkeys : NoDup (map period (kid_entries kid)))
  (Hfree : has_period (kid_entries kid) (arg_period a) = false) :
  exists data' t',
    add_entry data kid_id' uuid now a = (Some (new_entry uuid now a), data')
    /\ get_kid data' kid_id' =
       Some (set_entries kid (kid_entries kid ++ [new_entry uuid now a]), t')
    /\ NoDup (map period (kid_entries kid ++ [new_entry uuid now a]))
    /\ (forall other, other <> kid_id' -> get_kid data' other = get_kid data other)
    /\ List.length (kids data') = List.length (kids data).
Proof.
  unfold add_entry, get_kid in *.
  destruct (add_entry_in_fresh _ _ uuid now a _ _ Hkid Hfree)
    as (ks' & Hadd & Hlen & t' & Hg).
  rewrite Hadd. exists (set_kids data ks'), t'. simpl.
  split; [reflexivity|]. split; [exact Hg|]. split; [|split; [|exact Hlen]].
  - rewrite map_app. simpl.
    eapply Permutation_NoDup; [apply Permutation_cons_append|].
    constructor; [|exact Hkeys].
    intro Hin. apply in_map_iff in Hin. destruct Hin as (e & He & Hin).
    assert (Hhas : has_period (kid_entries kid) (arg_period a) = true).
    { apply has_period_In. now exists e. }
    congruence.
  - intros other Hne. now apply (add_entry_in_other _ _ _ _ _ _ _ _ Hadd).
Qed.

Lemma add_entry_appends_witness :
  exists data' t',
    add_entry ann_data "kid_1" "u" "t3" (mkArgs "2024-03" "monthly" (of_int 5)
        (of_int 0) (of_int 40) (of_int 40) (of_int 20) (of_int 0))
    = (Some (new_entry "u" "t3" (mkArgs "2024-03" "monthly" (of_int 5) (of_int 0)
        (of_int 40) (of_int 40) (of_int 20) (of_int 0))), data')
    /\ get_kid data' "kid_1" =
       Some (set_entries ann
               (kid_entries ann
                ++ [new_entry "u" "t3" (mkArgs "2024-03" "monthly" (of_int 5) (of_int 0)
                    (of_int 40) (of_int 40) (of_int 20) (of_int 0))]), t').
Proof.
  destruct (add_entry_appends ann_data "kid_1" "u" "t3"
              (mkArgs "2024-03" "monthly" (of_int 5) (of_int 0) (of_int 40) (of_int 40)
                  (of_int 20) (of_int 0))
              ann (_calculate_totals ann) eq_refl)
    as (data' & t' & Ha & Hg & _).
  - vm_compute. repeat constructor; simpl; intuition discriminate.
  - reflexivity.
  - exists data', t'. split; [exact Ha|exact Hg].
Defined.

Lemma filter_length_lt {A : Type} (f : A -> bool) (l : list A) :
  (List.length (filter f l) <? List.length l)%nat = existsb (fun x => negb (f x)) l.
Proof.
  induction l as [|x l IH]; simpl; [reflexivity|].
  pose proof (filter_length_le f l) as Hle.
  destruct (f x); simpl.
  - exact IH.
  - apply Nat.ltb_lt. lia.
Qed.

Lemma existsb_negb_negb {A : Type} (f : A -> bool) (l : list A) :
  existsb f l = existsb (fun x => negb (negb (f x))) l.
Proof.
  induction l as [|x l IH]; simpl; [reflexivity|].
  now rewrite negb_involutive, IH.
Qed.

Lemma delete_entry_in_other (ks : list Kid) (k k' entry_id : string) (ks' : list Kid) :
  delete_entry_in ks k entry_id = Some ks' -> k' <> k ->
  get_kid_in ks' k' = get_kid_in ks k'.
Proof.
  revert ks'. induction ks as [|h ks IH]; intros ks'; simpl; [discriminate|].
  assert (Hnext : match delete_entry_in ks k entry_id with
                  | Some rest' => Some (h :: rest')
                  | None => None
                  end = Some ks' -> k' <> k ->
                  get_kid_in ks' k' = get_kid_in (h :: ks) k').
  { destruct (delete_entry_in ks k entry_id) as [r|]; [|discriminate].
    intros [= <-] Hne. simpl. now rewrite (IH r eq_refl Hne). }
  destruct (kid_id h =? k)%string eqn:E; [|exact Hnext].
  destruct (_ <? _)%nat; [|exact Hnext].
  intros [= <-] Hne. simpl. apply String.eqb_eq in E. rewrite E.
  apply not_eq_sym, String.eqb_neq in Hne. now rewrite Hne.
Qed.

Lemma delete_entry_in_unique (ks : list Kid) (k entry_id : string) :
  ~ In k (map kid_id ks) -> delete_entry_in ks k entry_id = None.
Proof.
  induction ks as [|h ks IH]; simpl; [reflexivity|].
  intro H. destruct (String.eqb_spec (kid_id h) k) as [E|E]; [tauto|].
  rewrite IH by tauto. reflexivity.
Qed.

(** X4.  [delete_entry] on a dataset whose kid ids are distinct: when
    some entry of the kid has the id, it returns [True] and the kid keeps
    exactly the entries with another id, in their order, with the period
    keys still distinct and every other kid as it was; when no entry of
    the kid has the id, it returns [False] and writes nothing. *)
Theorem delete_entry_removes
  (data : Data) (kid_id' entry_id : string) (kid : Kid) (t : Totals)
  (Hkid : get_kid data kid_id' = Some (kid, t))
  (Hkids : NoDup (map kid_id (kids data)))
  (Hkeys : NoDup (map period (kid_entries kid))) :
  let remaining :=
    filter (fun e => negb (id e =? entry_id)%string) (kid_entries kid) in
  if existsb (fun e => (id e =? entry_id)%string) (kid_entries kid)
  then exists data' t',
         delete_entry data kid_id' entry_id = (true, data')
         /\ get_kid data' kid_id' = Some (set_entries kid remaining, t')
         /\ NoDup (map period remaining)
         /\ (forall other, other <> kid_id' ->
                           get_kid data' other = get_kid data other)
  else delete_entry data kid_id' entry_id = (false, data).
Proof.
  intro remaining. unfold delete_entry, get_kid in *.
  assert (Hex : existsb (fun e => (id e =? entry_id)%string) (kid_entries kid)
                = (List.length remaining <? List.length (kid_entries kid))%nat).
  { unfold remaining. rewrite filter_length_lt. apply existsb_negb_negb. }
  rewrite Hex. clear Hex.
  induction (kids data) as [|h ks IH] in Hkid, Hkids |- *; [discriminate|].
  simpl in Hkid, Hkids. inversion Hkids as [|? ? Hnot Hrest]; subst.
  simpl. destruct (kid_id h =? kid_id')%string eqn:E.
  - injection Hkid as <- _. fold remaining.
    destruct (List.length remaining <? List.length (kid_entries h))%nat.
    + eexists. eexists. split; [reflexivity|]. simpl. rewrite E.
      split; [reflexivity|]. split.
      * unfold remaining. clear - Hkeys.
        induction (kid_entries h) as [|e es IHes]; simpl; [constructor|].
        inversion Hkeys as [|? ? Hn Hr]; subst.
        destruct (negb (id e =? entry_id)%string); simpl; [|now apply IHes].
        constructor; [|now apply IHes].
        intro Hin. apply Hn. apply in_map_iff in Hin.
        destruct Hin as (x & Hx & Hin). apply filter_In in Hin.
        apply in_map_iff. exists x. tauto.
      * intros other Hne. apply String.eqb_eq in E. rewrite E.
        apply not_eq_sym, String.eqb_neq in Hne. now rewrite Hne.
    + apply String.eqb_eq in E. rewrite E in Hnot.
      now rewrite (delete_entry_in_unique ks kid_id' entry_id Hnot).
  - specialize (IH Hkid Hrest).
    destruct (List.length remaining <? List.length (kid_entries kid))%nat.
    + destruct IH as (data' & t' & Hd & Hg & Hn & Ho).
      destruct (delete_entry_in ks kid_id' entry_id) as [r|] eqn:Er;
        [|discriminate].
      injection Hd as <-. eexists. exists t'. split; [reflexivity|].
      simpl. rewrite E. split; [exact Hg|]. split; [exact Hn|].
      intros other Hne. specialize (Ho other Hne). simpl in Ho.
      now rewrite Ho.
    + destruct (delete_entry_in ks kid_id' entry_id) as [r|]; [discriminate|].
      reflexivity.
Qed.

Lemma delete_entry_removes_witness :
  exists data' t',
    delete_entry ann_data "kid_1" "entry_1" = (true, data')
    /\ get_kid data' "kid_1" = Some (set_entries ann [feb], t').
Proof.
  pose proof (delete_entry_removes ann_data "kid_1" "entry_1"
                ann (_calculate_totals ann) eq_refl) as H.
  destruct H as (data' & t' & Hd & Hg & _).
  - vm_compute. repeat constructor; simpl; intuition discriminate.
  - vm_compute. repeat constructor; simpl; intuition discriminate.
  - exists data', t'. split; [exact Hd|exact Hg].
Defined.

Lemma delete_entry_in_missing_kid (ks : list Kid) (k entry_id : string) :
  get_kid_in ks k = None -> delete_entry_in ks k entry_id = None.
Proof.
  induction ks as [|h ks IH]; simpl; [reflexivity|].
  destruct (kid_id h =? k)%string; [discriminate|].
  intro H. now rewrite (IH H).
Qed.

Lemma update_allocation_in_missing_kid (ks : list Kid) (k : string) (a b c r : float) :
  get_kid_in ks k = None -> update_allocation_in ks k a b c r = None.
Proof.
  induction ks as [|h ks IH]; simpl; [reflexivity|].
  destruct (kid_id h =? k)%string; [discriminate|].
  intro H. now rewrite (IH H).
Qed.

(** X5.  For a kid id that no kid of the dataset has, the operations
    fail and write nothing: [get_kid] is [None], [add_entry] returns
    [None], [update_entry] and [delete_entry] return [False], and
    the dataset is the one they started from. *)
Theorem missing_kid_changes_nothing
  (data : Data) (kid_id' : string) (Hmissing : get_kid data kid_id' = None) :
  (forall uuid now a, add_entry data kid_id' uuid now a = (None, data))
  /\ (forall entry_id now u,
        update_entry data kid_id' entry_id now u = (false, data))
  /\ (forall entry_id, delete_entry data kid_id' entry_id = (false, data))
  /\ (forall f, snd (_save_allocation data kid_id' f) = data).
Proof.
  unfold get_kid in Hmissing. repeat split.
  - intros. unfold add_entry. now rewrite add_entry_in_missing.
  - intros. unfold update_entry. now rewrite update_entry_in_missing_kid.
  - intro entry_id. unfold delete_entry.
    now rewrite delete_entry_in_missing_kid.
  - intros [f|]; [|reflexivity]. unfold _save_allocation.
    destruct (off_100 _ _ _); [reflexivity|]. unfold update_allocation.
    now rewrite update_allocation_in_missing_kid.
Qed.

Lemma missing_kid_changes_nothing_witness :
  delete_entry ann_data "kid_9" "entry_1" = (false, ann_data).
Proof.
  refine (proj1 (proj2 (proj2
            (missing_kid_changes_nothing ann_data "kid_9" eq_refl))) _).
Defined.


(* ================================================================== *)
(** * Further properties of the totals *)
(* ================================================================== *)

(** Two key-sorted lists with the same elements and no repeated key are
    the same list. *)
Lemma sorted_unique {A : Type} (key : A -> string) (l1 : list A) :
  forall l2,
    StronglySorted (key_le key) l1 -> StronglySorted (key_le key) l2 ->
    Permutation l1 l2 -> NoDup (map key l1) -> l1 = l2.
Proof.
  induction l1 as [|a t1 IH]; intros l2 H1 H2 Hp Hn.
  - apply Permutation_nil in Hp. now subst.
  - destruct l2 as [|b t2].
    + apply Permutation_sym, Permutation_nil in Hp. discriminate.
    + inversion H1 as [|? ? Hs1 Ha]; subst. inversion H2 as [|? ? Hs2 Hb]; subst.
      simpl in Hn. inversion Hn as [|? ? Hnot Hn']; subst.
      assert (Hab : a = b).
      { assert (Hina : In a (b :: t2))
          by (eapply Permutation_in; [exact Hp|now left]).
        assert (Hinb : In b (a :: t1))
          by (eapply Permutation_in; [symmetry; exact Hp|now left]).
        destruct Hinb as [Hinb|Hinb]; [exact Hinb|].
        destruct Hina as [Hina|Hina]; [now symmetry|].
        exfalso. apply Hnot.
        rewrite Forall_forall in Ha, Hb.
        rewrite (String.leb_antisym _ _ (Ha b Hinb) (Hb a Hina)).
        now apply in_map. }
      subst b. f_equal. apply IH; auto.
      now apply Permutation_cons_inv in Hp.
Qed.

(** X6.  The totals do not depend on the order in which the entries are
    stored, as long as no two entries share a period key: two kids whose
    entry lists are permutations of each other get the same totals, the
    same processed entries included. *)
Theorem totals_order_independent (kid1 kid2 : Kid)
  (Hperm : Permutation (kid_entries kid1) (kid_entries kid2))
  (Hkeys : NoDup (map period (kid_entries kid1))) :
  _calculate_totals kid1 = _calculate_totals kid2.
Proof.
  unfold _calculate_totals.
  assert (Hsame : sorted period (kid_entries kid1) = sorted period (kid_entries kid2)).
  { apply (sorted_unique period); try apply sorted_StronglySorted.
    - rewrite (sorted_perm period (kid_entries kid1)), Hperm.
      symmetry. apply sorted_perm.
    - eapply Permutation_NoDup; [|exact Hkeys].
      apply Permutation_map. symmetry. apply sorted_perm. }
  now rewrite Hsame.
Qed.

Lemma totals_order_independent_witness :
  _calculate_totals ann = _calculate_totals (set_entries ann [jan; feb]).
Proof.
  apply totals_order_independent.
  - simpl. apply perm_swap.
  - vm_compute. repeat constructor; simpl; intuition discriminate.
Defined.

(* ------------------------------------------------------------------ *)
(** ** The amounts an entry stores *)
(* ================================================================== *)
(** * The amounts stored with an entry *)
(* ================================================================== *)

(** X7.  The spent, saved, given and usedFromSaved amounts stored by
    [add_entry] are whole numbers of hundredths: each is the float nearest
    to [z/100] for an integer [z], and [z] is within one half of a hundred
    times the binary64 value that was rounded ([amount * pct / 100],
    multiplied first, then divided; the withdrawal as entered), provided
    that value is finite.  A deposit of 0.25 split 10/30/60 stores 0.03,
    0.07 and 0.15: the binary64 shares are just above 0.025 and just
    below 0.075. *)
Theorem new_entry_split (uuid now : string) (a : EntryArgs) :
  let e := new_entry uuid now a in
  let part pct := fdiv (fmul (arg_amount a) pct) (of_int 100) in
  (is_finite (part (arg_spent_pct a)) = true ->
   is_finite (part (arg_saved_pct a)) = true ->
   is_finite (part (arg_given_pct a)) = true ->
   is_finite (arg_used_from_saved a) = true ->
   exists zs zv zg zu : Z,
     (hundredths zs (spent e)
      /\ Qabs (inject_Z zs - exact (part (arg_spent_pct a)) * 100) <= 1 # 2)
     /\ (hundredths zv (saved e)
         /\ Qabs (inject_Z zv - exact (part (arg_saved_pct a)) * 100) <= 1 # 2)
     /\ (hundredths zg (given e)
         /\ Qabs (inject_Z zg - exact (part (arg_given_pct a)) * 100) <= 1 # 2)
     /\ (hundredths zu (usedFromSaved e)
         /\ Qabs (inject_Z zu - exact (arg_used_from_saved a) * 100) <= 1 # 2))
  /\ (let e' := new_entry "u" "t"
                  (mkArgs "2024-01" "monthly" (decimal 25 2) (of_int 0)
                          (of_int 10) (of_int 30) (of_int 60) (of_int 0)) in
      spent e' = decimal 3 2 /\ saved e' = decimal 7 2 /\ given e' = decimal 15 2).
Proof.
  intros e part. split.
  - intros Fs Fv Fg Fu.
    exists (cents_of (part (arg_spent_pct a))), (cents_of (part (arg_saved_pct a))),
           (cents_of (part (arg_given_pct a))), (cents_of (arg_used_from_saved a)).
    subst e. unfold new_entry, share. cbn [spent saved given usedFromSaved].
    fold (part (arg_spent_pct a)). fold (part (arg_saved_pct a)).
    fold (part (arg_given_pct a)).
    repeat split; try (now apply round2_hundredths); apply cents_of_near.
  - vm_compute. repeat split; reflexivity.
Qed.

Lemma new_entry_split_witness :
  exists zs zv zg zu : Z,
    let e := new_entry "u" "t"
               (mkArgs "2024-01" "monthly" (decimal 25 2) (of_int 0)
                       (of_int 10) (of_int 30) (of_int 60) (of_int 0)) in
    hundredths zs (spent e) /\ hundredths zv (saved e)
    /\ hundredths zg (given e) /\ hundredths zu (usedFromSaved e).
Proof.
  destruct (proj1 (new_entry_split "u" "t"
                     (mkArgs "2024-01" "monthly" (decimal 25 2) (of_int 0)
                             (of_int 10) (of_int 30) (of_int 60) (of_int 0))))
    as (zs & zv & zg & zu & (Hs & _) & (Hv & _) & (Hg & _) & (Hu & _));
    try reflexivity.
  exists zs, zv, zg, zu. cbv zeta. repeat split; assumption.
Defined.

(* ================================================================== *)
(** * Further properties of the forms *)
(* ================================================================== *)

Lemma update_entry_false (data : Data) (k entry_id now : string) (u : UpdateArgs) :
  fst (update_entry data k entry_id now u) = false ->
  snd (update_entry data k entry_id now u) = data.
Proof.
  unfold update_entry.
  now destruct (update_entry_in (kids data) k entry_id now u).
Qed.

Lemma _save_no_partial_write (data : Data) (k now : string) (p : ProcessedEntry)
  (available : float) (form : option EditForm) :
  fst (_save data k now p available form) <> Success ->
  snd (_save data k now p available form) = data.
Proof.
  unfold _save. destruct form as [f|]; [|reflexivity].
  destruct (fle _ _); [reflexivity|].
  destruct (off_100 _ _ _); [reflexivity|].
  destruct (flt (edit_used_from_saved f) _); [reflexivity|].
  destruct (flt available _); [reflexivity|].
  match goal with |- context [update_entry ?d ?k ?i ?n ?u] =>
    pose proof (update_entry_false d k i n u) as Hf;
    destruct (update_entry d k i n u) as [[|] data'] end; simpl in *.
  - congruence.
  - intros _. now apply Hf.
Qed.

(** X9.  The edit dialog checks the form before anything is written: a
    form that does not parse, an amount that is not positive
    ([amount <= 0]), percentages that fail the test of the code (the
    binary64 value of [abs(spent + saved + given - 100)] is above the
    float [0.01]), or a negative withdrawal end in [ValidationError] with
    the dataset unchanged; and whatever an edit ends in other than
    [Success] (a refused withdrawal or a period conflict included), the
    dataset is the one it started from.  The test is made on the rounded
    sum: 10 + 80 + 9.99 is refused (the computed distance is just above
    0.01), while 100.00999999999999 + 7e-15 + 7e-15, whose exact sum is
    further than 0.01 from 100, is not. *)
Theorem edit_entry_validation
  (data : Data) (kid_id' entry_id now : string) (form : option EditForm)
  (kid : Kid) (t : Totals) (target : ProcessedEntry) (before : float)
  (Hkid : get_kid data kid_id' = Some (kid, t))
  (Htarget : _edit_entry t entry_id = Some (target, before))
  (Hinvalid : match form with
              | None => True
              | Some f =>
                  fle (edit_amount f) (of_int 0) = true
                  \/ off_100 (edit_spent_pct f) (edit_saved_pct f)
                             (edit_given_pct f) = true
                  \/ flt (edit_used_from_saved f) (of_int 0) = true
              end) :
  edit_entry data kid_id' entry_id now form = (ValidationError, data)
  /\ (forall form',
        fst (edit_entry data kid_id' entry_id now form') <> Success ->
        snd (edit_entry data kid_id' entry_id now form') = data)
  /\ (off_100 (of_int 10) (of_int 80) (decimal 999 2) = true
      /\ off_100 near_100_01 (decimal 7 15) (decimal 7 15)
         = false
      /\ 1 # 100 < Qabs (exact near_100_01 + exact (decimal 7 15)
                         + exact (decimal 7 15) - 100)).
Proof.
  unfold edit_entry. rewrite Hkid, Htarget. split; [|split].
  - unfold _save. destruct form as [f|]; [|reflexivity].
    destruct (fle (edit_amount f) (of_int 0)) eqn:Ea; [reflexivity|].
    destruct (off_100 _ _ _) eqn:Ep; [reflexivity|].
    destruct (flt (edit_used_from_saved f) (of_int 0)) eqn:Eu; [reflexivity|].
    exfalso. destruct Hinvalid as [H|[H|H]]; congruence.
  - intro form'. apply _save_no_partial_write.
  - vm_compute. repeat split; reflexivity.
Qed.

Lemma edit_entry_validation_witness :
  edit_entry ann_data "kid_1" "entry_2" "t3"
             (Some (mkEditForm (of_int 10) (of_int 50) (of_int 50) (of_int 50)
                               (of_int 10) (of_int 0) "2024-02" "monthly"))
  = (ValidationError, ann_data).
Proof.
  destruct (_edit_entry (_calculate_totals ann) "entry_2") as [[p b]|] eqn:E;
    [|vm_compute in E; discriminate].
  refine (proj1 (edit_entry_validation ann_data "kid_1" "entry_2" "t3"
                   (Some (mkEditForm (of_int 10) (of_int 50) (of_int 50) (of_int 50)
                               (of_int 10) (of_int 0) "2024-02" "monthly"))
                   ann (_calculate_totals ann) p b eq_refl E _)).
  right. left. reflexivity.
Defined.

Lemma update_allocation_in_found (ks : list Kid) (k : string) (a b c r : float)
  (kid : Kid) (t : Totals) :
  get_kid_in ks k = Some (kid, t) ->
  exists ks' t',
    update_allocation_in ks k a b c r = Some ks'
    /\ get_kid_in ks' k =
       Some (mkKid (kid_id kid) (kid_name kid) (mkAllocation a b c) r
                   (kid_entries kid), t').
Proof.
  induction ks as [|h ks IH]; simpl; [discriminate|].
  destruct (kid_id h =? k)%string eqn:E.
  - intros [= <- _]. eexists. eexists. split; [reflexivity|].
    simpl. now rewrite E.
  - intro Hk. destruct (IH Hk) as (ks' & t' & -> & Hg).
    exists (h :: ks'), t'. split; [reflexivity|]. simpl. now rewrite E.
Qed.

(** X10.  The percentages of new entries are checked when the default
    allocation is saved: [_save_allocation] refuses (dataset unchanged) a
    form whose three percentages fail the test of the code (the binary64
    value of [abs(spent + saved + given - 100)] is above the float
    [0.01]); otherwise it stores the allocation and the rate, keeping the
    kid's entries, and every entry then added from the details view
    carries those percentages and that rate, so its percentages pass the
    same test.  The allocation 10 / 80 / 9.99 is refused: the computed
    distance is just above 0.01. *)
Theorem saved_allocation_is_used
  (data : Data) (kid_id' : string) (kid : Kid) (t : Totals) (f : AllocationForm)
  (Hkid : get_kid data kid_id' = Some (kid, t)) :
  let refused := off_100 (form_spent f) (form_saved f) (form_given f) in
  (refused = true ->
   _save_allocation data kid_id' (Some f) = (ValidationError, data))
  /\ (refused = false ->
      exists data1 t1,
        _save_allocation data kid_id' (Some f) = (Success, data1)
        /\ get_kid data1 kid_id' =
           Some (mkKid (kid_id kid) (kid_name kid)
                       (mkAllocation (form_spent f) (form_saved f) (form_given f))
                       (form_interest f) (kid_entries kid), t1)
        /\ forall uuid now form data2,
             _add_entry data1 kid_id' uuid now form = (Success, data2) ->
             exists kid2 t2 e,
               get_kid data2 kid_id' = Some (kid2, t2)
               /\ kid_entries kid2 = kid_entries kid ++ [e]
               /\ spentPercent e = form_spent f
               /\ savedPercent e = form_saved f
               /\ givenPercent e = form_given f
               /\ interestRate e = form_interest f
               /\ off_100 (spentPercent e) (savedPercent e) (givenPercent e)
                  = false)
  /\ (forall data0,
        _save_allocation data0 "kid_1"
          (Some (mkAllocationForm (of_int 10) (of_int 80) (decimal 999 2) (of_int 0)))
        = (ValidationError, data0)).
Proof.
  intro refused. subst refused. unfold _save_allocation. split; [|split].
  - intro H. now rewrite H.
  - intro H. rewrite H.
    unfold update_allocation, get_kid in *.
    destruct (update_allocation_in_found (kids data) kid_id' (form_spent f)
                (form_saved f) (form_given f) (form_interest f) kid t Hkid)
      as (ks' & t1 & -> & Hg).
    eexists. exists t1. split; [reflexivity|]. split; [exact Hg|].
    intros uuid now form data2. unfold _add_entry.
    destruct (add_amount form) as [amount|]; [|discriminate].
    destruct (fle amount (of_int 0)); [discriminate|].
    destruct (add_used_from_saved form) as [used|]; [|discriminate].
    destruct (flt used (of_int 0)); [discriminate|].
    unfold get_kid. cbn [kids set_kids snd]. rewrite Hg.
    destruct (flt _ used); [discriminate|].
    cbn [allocation kid_interestRate alloc_spent alloc_saved alloc_given].
    set (a := mkArgs _ _ _ _ _ _ _ _).
    set (kid1 := mkKid _ _ _ _ _) in *.
    destruct (has_period (kid_entries kid1) (arg_period a)) eqn:Hp.
    + unfold add_entry. cbn [kids set_kids].
      rewrite (add_entry_in_duplicate ks' kid_id' uuid now a kid1 t1 Hg Hp).
      discriminate.
    + unfold add_entry. cbn [kids set_kids].
      destruct (add_entry_in_fresh ks' kid_id' uuid now a kid1 t1 Hg Hp)
        as (ks2 & -> & _ & t2 & Hg2).
      intros [= <-]. eexists. exists t2, (new_entry uuid now a).
      split; [exact Hg2|]. repeat split. exact H.
  - intro data0. reflexivity.
Qed.

Lemma saved_allocation_is_used_witness :
  _save_allocation ann_data "kid_1"
    (Some (mkAllocationForm (of_int 50) (of_int 50) (of_int 50) (of_int 0)))
  = (ValidationError, ann_data).
Proof.
  refine (proj1 (saved_allocation_is_used ann_data "kid_1" ann
                   (_calculate_totals ann)
                   (mkAllocationForm (of_int 50) (of_int 50) (of_int 50) (of_int 0))
                   eq_refl) _).
  reflexivity.
Defined.
(* ================================================================== *)
(** * Kids: adding, renaming, deleting, listing *)
(* ================================================================== *)

Lemma get_kid_in_app (ks ks' : list Kid) (k : string) :
  get_kid_in (ks ++ ks') k =
  match get_kid_in ks k with
  | Some r => Some r
  | None => get_kid_in ks' k
  end.
Proof.
  induction ks as [|h ks IH]; simpl; [reflexivity|].
  destruct (kid_id h =? k)%string; [reflexivity | exact IH].
Qed.

Lemma get_kid_in_none (ks : list Kid) (k : string) :
  existsb (fun x => (kid_id x =? k)%string) ks = false <-> get_kid_in ks k = None.
Proof.
  induction ks as [|h ks IH]; simpl; [tauto|].
  destruct (kid_id h =? k)%string; simpl; [split; discriminate | exact IH].
Qed.

Lemma filter_all {A : Type} (p : A -> bool) (l : list A) :
  existsb (fun x => negb (p x)) l = false -> filter p l = l.
Proof.
  induction l as [|a l IH]; simpl; [reflexivity|].
  destruct (p a); simpl; [|discriminate]. intro H. now rewrite IH.
Qed.

Lemma get_kid_in_filter (ks : list Kid) (k k' : string) :
  get_kid_in (filter (fun x => negb (kid_id x =? k)%string) ks) k' =
  if (k' =? k)%string then None else get_kid_in ks k'.
Proof.
  induction ks as [|h ks IH]; simpl.
  - now destruct (k' =? k)%string.
  - destruct (kid_id h =? k)%string eqn:E; simpl.
    + rewrite IH. apply String.eqb_eq in E.
      destruct (k' =? k)%string eqn:E'; [reflexivity|].
      replace (kid_id h =? k')%string with false; [reflexivity|].
      symmetry. apply String.eqb_neq. apply String.eqb_neq in E'. congruence.
    + destruct (kid_id h =? k')%string eqn:E2.
      * apply String.eqb_eq in E2.
        replace (k' =? k)%string with false; [reflexivity|].
        symmetry. apply String.eqb_neq. apply String.eqb_neq in E. congruence.
      * exact IH.
Qed.

(** X19. A kid added under a fresh identifier can be looked up: it has the
    default allocation 40/40/20, which totals 100, no interest rate, no
    entries and totals that are all zero.  Every other kid is found as
    before, and deleting the new kid gives back the dataset that was there
    before it was added. *)
Theorem add_kid_round_trip (data : Data) (uuid name : string)
  (Hfresh : has_kid data ("kid_" ++ uuid) = false) :
  let (kid, data') := add_kid data uuid name in
  kid_id kid = ("kid_" ++ uuid)%string /\ kid_name kid = name
  /\ allocation kid = mkAllocation (of_int 40) (of_int 40) (of_int 20)
  /\ fadd (fadd (alloc_spent (allocation kid)) (alloc_saved (allocation kid)))
          (alloc_given (allocation kid)) = of_int 100
  /\ kid_interestRate kid = of_int 0 /\ kid_entries kid = []
  /\ (exists totals,
        get_kid data' (kid_id kid) = Some (kid, totals)
        /\ totalSpent totals = of_int 0 /\ totalSaved totals = of_int 0
        /\ totalGiven totals = of_int 0 /\ totalInterest totals = of_int 0
        /\ grandTotal totals = of_int 0 /\ entries totals = [])
  /\ (forall other, other <> kid_id kid ->
        get_kid data' other = get_kid data other)
  /\ delete_kid data' (kid_id kid) = (true, data).
Proof.
  unfold add_kid, has_kid in *. cbv zeta. cbn [kid_id kid_name allocation
    kid_interestRate kid_entries alloc_spent alloc_saved alloc_given].
  remember ("kid_" ++ uuid)%string as key eqn:Hkey. clear Hkey.
  set (new_kid := mkKid key name (mkAllocation (of_int 40) (of_int 40) (of_int 20))
                        (of_int 0) []).
  pose proof (proj1 (get_kid_in_none _ _) Hfresh) as Hnone.
  repeat split; try reflexivity.
  - exists (_calculate_totals new_kid). split.
    + unfold get_kid, set_kids. cbn [kids]. rewrite get_kid_in_app, Hnone.
      simpl. now rewrite String.eqb_refl.
    + repeat split; reflexivity.
  - intros other Hother. unfold get_kid, set_kids. cbn [kids].
    rewrite get_kid_in_app. destruct (get_kid_in (kids data) other); [reflexivity|].
    simpl. replace (key =? other)%string with false; [reflexivity|].
    symmetry. apply String.eqb_neq. congruence.
  - unfold delete_kid, set_kids. cbv zeta. cbn [kids].
    rewrite filter_app. cbn [filter kid_id new_kid].
    rewrite String.eqb_refl. cbn [negb]. rewrite app_nil_r.
    rewrite filter_all.
    + rewrite length_app. cbn [List.length].
      replace (List.length (kids data) <? List.length (kids data) + 1)%nat
        with true by (symmetry; apply Nat.ltb_lt; lia).
      f_equal. destruct data. reflexivity.
    + rewrite <- Hfresh. clear. induction (kids data) as [|h l IH]; simpl; [reflexivity|].
      now rewrite negb_involutive, IH.
Qed.

Lemma add_kid_round_trip_witness :
  delete_kid (snd (add_kid ann_data "0123456789ab" "Bea"))
             (kid_id (fst (add_kid ann_data "0123456789ab" "Bea")))
  = (true, ann_data).
Proof.
  pose proof (add_kid_round_trip ann_data "0123456789ab" "Bea" eq_refl) as H.
  destruct (add_kid ann_data "0123456789ab" "Bea") as [kid data'].
  exact (proj2 (proj2 (proj2 (proj2 (proj2 (proj2 (proj2 (proj2 H)))))))).
Defined.

Lemma update_kid_in_none (ks : list Kid) (k name : string) :
  existsb (fun x => (kid_id x =? k)%string) ks = false ->
  update_kid_in ks k name = None.
Proof.
  induction ks as [|h ks IH]; simpl; [reflexivity|].
  destruct (kid_id h =? k)%string; simpl; [discriminate|].
  intro H. now rewrite IH.
Qed.

Lemma update_kid_in_some (ks : list Kid) (k name : string) :
  existsb (fun x => (kid_id x =? k)%string) ks = true ->
  exists ks' kid,
    update_kid_in ks k name = Some ks'
    /\ get_kid_in ks k = Some (kid, _calculate_totals kid)
    /\ get_kid_in ks' k
       = Some (mkKid (kid_id kid) name (allocation kid) (kid_interestRate kid)
                     (kid_entries kid), _calculate_totals kid)
    /\ (forall other, other <> k -> get_kid_in ks' other = get_kid_in ks other)
    /\ map kid_id ks' = map kid_id ks
    /\ map kid_entries ks' = map kid_entries ks.
Proof.
  induction ks as [|h ks IH]; simpl; [discriminate|].
  destruct (kid_id h =? k)%string eqn:E; simpl.
  - intros _. eexists _, h. split; [reflexivity|]. split; [reflexivity|].
    simpl. rewrite E. split; [reflexivity|]. split; [|split; reflexivity].
    intros other Hother.
    replace (kid_id h =? other)%string with false; [reflexivity|].
    symmetry. apply String.eqb_neq. apply String.eqb_eq in E. congruence.
  - intro H. destruct (IH H) as (ks' & kid & -> & Hg & Hg' & Ho & Hi & He).
    exists (h :: ks'), kid. split; [reflexivity|]. simpl. rewrite E.
    split; [exact Hg|]. split; [exact Hg'|]. split; [|split; congruence].
    intros other Hother. destruct (kid_id h =? other)%string; [reflexivity|].
    now apply Ho.
Qed.

(** X20. Renaming a kid changes the name and nothing else: the lookup of the
    kid returns the same kid under the new name with the same totals, every
    other kid is found as before, and the identifiers and the entries of
    all kids stay as they were.  For an identifier that no kid has,
    [update_kid] returns [False] and the dataset is unchanged. *)
Theorem update_kid_renames (data : Data) (kid_id' name : string) :
  (has_kid data kid_id' = true ->
   exists data' kid totals,
     update_kid data kid_id' name = (true, data')
     /\ get_kid data kid_id' = Some (kid, totals)
     /\ get_kid data' kid_id'
        = Some (mkKid (kid_id kid) name (allocation kid) (kid_interestRate kid)
                      (kid_entries kid), totals)
     /\ (forall other, other <> kid_id' ->
           get_kid data' other = get_kid data other)
     /\ map kid_id (kids data') = map kid_id (kids data)
     /\ map kid_entries (kids data') = map kid_entries (kids data))
  /\ (has_kid data kid_id' = false ->
      update_kid data kid_id' name = (false, data)).
Proof.
  unfold has_kid, update_kid, get_kid. split.
  - intro H. destruct (update_kid_in_some _ _ name H)
      as (ks' & kid & -> & Hg & Hg' & Ho & Hi & He).
    exists (set_kids data ks'), kid, (_calculate_totals kid).
    cbn [set_kids kids]. repeat split; assumption.
  - intro H. now rewrite update_kid_in_none.
Qed.

Lemma update_kid_renames_witness :
  exists data' kid totals,
    update_kid ann_data "kid_1" "Anna" = (true, data')
    /\ get_kid ann_data "kid_1" = Some (kid, totals)
    /\ get_kid data' "kid_1"
       = Some (mkKid (kid_id kid) "Anna" (allocation kid) (kid_interestRate kid)
                     (kid_entries kid), totals)
    /\ (forall other, other <> "kid_1"%string ->
          get_kid data' other = get_kid ann_data other)
    /\ map kid_id (kids data') = map kid_id (kids ann_data)
    /\ map kid_entries (kids data') = map kid_entries (kids ann_data).
Proof.
  apply (proj1 (update_kid_renames ann_data "kid_1" "Anna")). reflexivity.
Defined.

(** X21. Deleting a kid removes every kid with the identifier: when some
    kid has it, [delete_kid] returns [True], the identifier is no longer
    found, and every other kid is found as before with the same totals;
    when no kid has it, [delete_kid] returns [False] and the dataset is
    unchanged. *)
Theorem delete_kid_removes (data : Data) (kid_id' : string) :
  (has_kid data kid_id' = true ->
   exists data',
     delete_kid data kid_id' = (true, data')
     /\ has_kid data' kid_id' = false
     /\ get_kid data' kid_id' = None
     /\ (forall other, other <> kid_id' ->
           get_kid data' other = get_kid data other)
     /\ (List.length (kids data') < List.length (kids data))%nat)
  /\ (has_kid data kid_id' = false ->
      delete_kid data kid_id' = (false, data)).
Proof.
  unfold has_kid, delete_kid, get_kid. cbv zeta.
  rewrite filter_length_lt, <- existsb_negb_negb. split.
  - intro H. rewrite H. eexists. split; [reflexivity|].
    cbn [set_kids kids].
    assert (Hnone : get_kid_in
                      (filter (fun k => negb (kid_id k =? kid_id')%string) (kids data))
                      kid_id' = None).
    { rewrite get_kid_in_filter. now rewrite String.eqb_refl. }
    split; [apply get_kid_in_none; exact Hnone|].
    split; [exact Hnone|]. split.
    + intros other Hother. rewrite get_kid_in_filter.
      replace (other =? kid_id')%string with false; [reflexivity|].
      symmetry. now apply String.eqb_neq.
    + apply Nat.ltb_lt. rewrite filter_length_lt, <- existsb_negb_negb. exact H.
  - intro H. now rewrite H.
Qed.

Lemma delete_kid_removes_witness :
  exists data',
    delete_kid ann_data "kid_1" = (true, data')
    /\ has_kid data' "kid_1" = false
    /\ get_kid data' "kid_1" = None
    /\ (forall other, other <> "kid_1"%string ->
          get_kid data' other = get_kid ann_data other)
    /\ (List.length (kids data') < List.length (kids ann_data))%nat.
Proof.
  apply (proj1 (delete_kid_removes ann_data "kid_1")). reflexivity.
Defined.

Lemma get_kid_in_unique (ks : list Kid) (kid : Kid) :
  NoDup (map kid_id ks) -> In kid ks ->
  get_kid_in ks (kid_id kid) = Some (kid, _calculate_totals kid).
Proof.
  induction ks as [|h ks IH]; simpl; [contradiction|].
  intros Hnd [-> | Hin].
  - now rewrite String.eqb_refl.
  - inversion Hnd as [|? ? Hnot Hnd']; subst.
    destruct (kid_id h =? kid_id kid)%string eqn:E; [|now apply IH].
    apply String.eqb_eq in E. exfalso. apply Hnot. rewrite E.
    now apply in_map.
Qed.

(** X22. The list of the main view agrees with the details view.  On a
    dataset whose kids have distinct identifiers, [get_kids] returns one
    summary per kid, in the order of the file, and the lookup of the
    identifier of a summary returns the kid with the name, the allocation,
    the rate and the totals of the summary. *)
Theorem get_kids_agrees_with_get_kid (data : Data)
  (Hids : NoDup (map kid_id (kids data))) :
  map sum_id (get_kids data) = map kid_id (kids data)
  /\ forall s, In s (get_kids data) ->
       exists kid,
         get_kid data (sum_id s) = Some (kid, sum_totals s)
         /\ kid_name kid = sum_name s
         /\ allocation kid = sum_allocation s
         /\ kid_interestRate kid = sum_interestRate s.
Proof.
  unfold get_kids, get_kid. split.
  - rewrite map_map. reflexivity.
  - intros s Hs. apply in_map_iff in Hs. destruct Hs as (kid & <- & Hin).
    exists kid. cbn [sum_id sum_totals sum_name sum_allocation sum_interestRate].
    split; [now apply get_kid_in_unique|]. repeat split.
Qed.

Lemma get_kids_agrees_with_get_kid_witness :
  map sum_id (get_kids ann_data) = map kid_id (kids ann_data)
  /\ forall s, In s (get_kids ann_data) ->
       exists kid,
         get_kid ann_data (sum_id s) = Some (kid, sum_totals s)
         /\ kid_name kid = sum_name s
         /\ allocation kid = sum_allocation s
         /\ kid_interestRate kid = sum_interestRate s.
Proof.
  apply (get_kids_agrees_with_get_kid ann_data).
  repeat constructor. simpl. tauto.
Defined.
(* ================================================================== *)
(** * The savings chart *)
(* ================================================================== *)




(* ================================================================== *)
(** * Adding an entry and deleting it again *)
(* ================================================================== *)

Lemma set_entries_back (kid : Kid) (es : list Entry) :
  set_entries (set_entries kid es) (kid_entries kid) = kid.
Proof. destruct kid. reflexivity. Qed.

Lemma add_delete_in (ks : list Kid) (k uuid now : string) (a : EntryArgs)
  (kid : Kid) (t : Totals) :
  get_kid_in ks k = Some (kid, t) ->
  has_period (kid_entries kid) (arg_period a) = false ->
  existsb (fun e => (id e =? id (new_entry uuid now a))%string) (kid_entries kid)
  = false ->
  exists ks',
    add_entry_in ks k uuid now a = Some (new_entry uuid now a, ks')
    /\ delete_entry_in ks' k (id (new_entry uuid now a)) = Some ks.
Proof.
  set (e := new_entry uuid now a).
  induction ks as [|h ks IH]; cbn [get_kid_in add_entry_in]; [discriminate|].
  destruct (kid_id h =? k)%string eqn:E.
  - intros [= <- _] Hfree Hfresh. rewrite Hfree. cbv zeta. fold e.
    eexists. split; [reflexivity|].
    cbn [delete_entry_in set_entries kid_id kid_entries]. rewrite E. cbv zeta.
    rewrite filter_app. cbn [filter]. rewrite String.eqb_refl. cbn [negb].
    rewrite app_nil_r, filter_all.
    + rewrite length_app. cbn [List.length].
      replace (List.length (kid_entries h) <? List.length (kid_entries h) + 1)%nat
        with true by (symmetry; apply Nat.ltb_lt; lia).
      f_equal. f_equal. apply (set_entries_back h).
    + rewrite <- Hfresh. clear.
      induction (kid_entries h) as [|x l IHl]; cbn [existsb]; [reflexivity|].
      now rewrite negb_involutive, IHl.
  - intros Hk Hfree Hfresh. destruct (IH Hk Hfree Hfresh) as (ks' & -> & Hdel).
    eexists. split; [reflexivity|].
    cbn [delete_entry_in]. rewrite E. cbv zeta. fold e. now rewrite Hdel.
Qed.

(** X26. An entry that was added can be taken back: when the kid exists,
    the period is free and the new identifier is not the identifier of an
    entry of the kid, [add_entry] stores the entry, and [delete_entry] of
    its identifier then returns [True] and leaves exactly the dataset that
    was there before. *)
Theorem add_then_delete_entry (data : Data) (kid_id' uuid now : string)
  (a : EntryArgs) (kid : Kid) (totals : Totals)
  (Hkid : get_kid data kid_id' = Some (kid, totals))
  (Hfree : has_period (kid_entries kid) (arg_period a) = false)
  (Hfresh : existsb (fun e => (id e =? "entry_" ++ uuid)%string) (kid_entries kid)
            = false) :
  exists e data',
    add_entry data kid_id' uuid now a = (Some e, data')
    /\ id e = ("entry_" ++ uuid)%string
    /\ (exists kid' totals',
          get_kid data' kid_id' = Some (kid', totals')
          /\ kid_entries kid' = kid_entries kid ++ [e])
    /\ delete_entry data' kid_id' (id e) = (true, data).
Proof.
  unfold get_kid in Hkid.
  destruct (add_delete_in (kids data) kid_id' uuid now a kid totals Hkid Hfree Hfresh)
    as (ks' & Hadd & Hdel).
  destruct (add_entry_in_fresh (kids data) kid_id' uuid now a kid totals Hkid Hfree)
    as (ks'' & Hadd' & _ & t' & Hget).
  rewrite Hadd in Hadd'. injection Hadd' as <-.
  exists (new_entry uuid now a), (set_kids data ks').
  unfold add_entry, delete_entry. rewrite Hadd. cbn [set_kids kids].
  rewrite Hdel.
  assert (Hback : set_kids (set_kids data ks') (kids data) = data)
    by (destruct data; reflexivity).
  rewrite Hback.
  split; [reflexivity|]. split; [reflexivity|]. split; [|reflexivity].
  eexists _, _. unfold get_kid. cbn [kids]. split; [exact Hget|]. reflexivity.
Qed.

Lemma add_then_delete_entry_witness :
  exists e data',
    add_entry ann_data "kid_1" "9f" "t3"
              (mkArgs "2024-03" "monthly" (of_int 10) (of_int 0) (of_int 40) (of_int 40)
                  (of_int 20) (of_int 0)) = (Some e, data')
    /\ delete_entry data' "kid_1" (id e) = (true, ann_data).
Proof.
  destruct (add_then_delete_entry ann_data "kid_1" "9f" "t3"
              (mkArgs "2024-03" "monthly" (of_int 10) (of_int 0) (of_int 40) (of_int 40)
                  (of_int 20) (of_int 0))
              ann (_calculate_totals ann) eq_refl eq_refl eq_refl)
    as (e & data' & Hadd & _ & _ & Hdel).
  exists e, data'. split; assumption.
Defined.

Local Close Scope Q_scope.
Local Open Scope Z_scope.

(* ================================================================== *)
(** * Keys: digits, separators and the round trip *)
(* ================================================================== *)

Lemma uint_all_digits (d : Decimal.uint) :
  all_digits (NilEmpty.string_of_uint d) = true.
Proof. induction d; simpl; auto. Qed.

Lemma all_digits_app (a b : string) :
  all_digits a = true -> all_digits b = true -> all_digits (a ++ b) = true.
Proof.
  induction a as [|c a IH]; simpl; [auto|].
  intros H Hb. apply andb_true_iff in H. destruct H as [-> Ha]. simpl. auto.
Qed.

(** The decimal digits of a non-negative number. *)
Lemma to_int_nonneg (n : Z) :
  0 <= n -> exists d, Z.to_int n = Decimal.Pos d /\ d <> Decimal.Nil.
Proof.
  destruct n as [|p|p]; intro H; [| |lia].
  - exists (Decimal.D0 Decimal.Nil). split; [reflexivity|discriminate].
  - exists (Pos.to_uint p). split; [reflexivity|].
    apply DecimalPos.Unsigned.to_uint_nonnil.
Qed.

Lemma str_nonneg (n : Z) :
  0 <= n ->
  exists d, d <> Decimal.Nil /\ str n = NilEmpty.string_of_uint d
            /\ Z.of_int (Decimal.Pos d) = n.
Proof.
  intro H. destruct (to_int_nonneg n H) as (d & Hd & Hn).
  exists d. split; [exact Hn|]. split.
  - unfold str. rewrite Hd. simpl. now destruct d.
  - rewrite <- Hd. apply DecimalZ.of_to.
Qed.

Lemma int_uint (d : Decimal.uint) :
  d <> Decimal.Nil ->
  int (NilEmpty.string_of_uint d) = Some (Z.of_int (Decimal.Pos d)).
Proof.
  intro Hn. unfold int, NilZero.int_of_string.
  pose proof (uint_all_digits d) as Hd.
  pose proof (NilEmpty.usu d) as Hu.
  destruct (NilEmpty.string_of_uint d) as [|c s] eqn:E.
  - destruct d; simpl in E; congruence.
  - simpl in Hd. apply andb_true_iff in Hd. destruct Hd as [Hc _].
    destruct (Ascii.eqb_spec c "-") as [->|_]; [discriminate|].
    unfold NilZero.uint_of_string. now rewrite Hu.
Qed.

Lemma str_all_digits (n : Z) : 0 <= n -> all_digits (str n) = true.
Proof.
  intro H. destruct (str_nonneg n H) as (d & _ & -> & _). apply uint_all_digits.
Qed.

Lemma int_str (n : Z) : 0 <= n -> int (str n) = Some n.
Proof.
  intro H. destruct (str_nonneg n H) as (d & Hd & -> & Hn).
  rewrite int_uint by exact Hd. now rewrite Hn.
Qed.

Lemma format_02d_all_digits (n : Z) : 0 <= n -> all_digits (format_02d n) = true.
Proof.
  intro H. unfold format_02d. pose proof (str_all_digits n H).
  destruct (String.length (str n) <? 2)%nat; simpl; auto.
Qed.

Lemma int_format_02d (n : Z) : 0 <= n -> int (format_02d n) = Some n.
Proof.
  intro H. unfold format_02d.
  destruct (String.length (str n) <? 2)%nat; [|now apply int_str].
  destruct (str_nonneg n H) as (d & Hd & -> & Hn).
  change ("0" ++ NilEmpty.string_of_uint d)%string
    with (NilEmpty.string_of_uint (Decimal.D0 d)).
  rewrite int_uint by discriminate. now rewrite <- Hn.
Qed.

Lemma prefix_digit (sep : string) (c : ascii) (s : string) :
  separator sep = true -> is_digit c = true ->
  String.prefix sep (String c s) = false.
Proof.
  destruct sep as [|c' sep]; simpl; [discriminate|].
  intros Hsep Hc. destruct (ascii_dec c' c) as [->|_]; [|reflexivity].
  rewrite Hc in Hsep. discriminate.
Qed.

Lemma prefix_digits (sep b : string) :
  separator sep = true -> all_digits b = true -> String.prefix sep b = false.
Proof.
  intros Hsep Hb. destruct b as [|c b].
  - destruct sep; [discriminate|reflexivity].
  - simpl in Hb. apply andb_true_iff in Hb. now apply prefix_digit.
Qed.

Lemma contains_digits (sep b : string) :
  separator sep = true -> all_digits b = true -> contains sep b = false.
Proof.
  intro Hsep. induction b as [|c b IH]; simpl.
  - destruct sep; [discriminate|reflexivity].
  - intro H. apply andb_true_iff in H. destruct H as [Hc Hb].
    pose proof (prefix_digit sep c b Hsep Hc) as Hp. simpl in Hp.
    rewrite Hp. simpl. now apply IH.
Qed.

Lemma contains_app_digits (sep a rest : string) :
  separator sep = true -> all_digits a = true ->
  contains sep (a ++ rest) = contains sep rest.
Proof.
  intro Hsep. induction a as [|c a IH]; [reflexivity|].
  intro H. simpl in H. apply andb_true_iff in H. destruct H as [Hc Ha].
  cbn [append contains].
  rewrite (prefix_digit sep c (a ++ rest) Hsep Hc). simpl. now apply IH.
Qed.

Lemma append_assoc (a b c : string) : ((a ++ b) ++ c = a ++ (b ++ c))%string.
Proof. induction a as [|x a IH]; simpl; [reflexivity|now rewrite IH]. Qed.

Lemma append_nil_r (a : string) : (a ++ "")%string = a.
Proof. induction a as [|x a IH]; simpl; [reflexivity|now rewrite IH]. Qed.

Lemma split_from_app_digits (sep a rest : string) :
  separator sep = true -> all_digits a = true ->
  forall cur, split_from sep 0 cur (a ++ rest) = split_from sep 0 (cur ++ a) rest.
Proof.
  intro Hsep. induction a as [|c a IH]; intros H cur.
  - now rewrite append_nil_r.
  - simpl in H. apply andb_true_iff in H. destruct H as [Hc Ha].
    cbn [append split_from].
    rewrite (prefix_digit sep c (a ++ rest) Hsep Hc).
    rewrite (IH Ha). now rewrite append_assoc.
Qed.

Lemma split_from_digits (sep b cur : string) :
  separator sep = true -> all_digits b = true ->
  split_from sep 0 cur b = [(cur ++ b)%string].
Proof.
  intros Hsep Hb. rewrite <- (append_nil_r b) at 1.
  now rewrite split_from_app_digits.
Qed.

Arguments str : simpl never.
Arguments format_02d : simpl never.

Lemma prefix_nil (s : string) : String.prefix "" s = true.
Proof. now destruct s. Qed.

(** Two runs of digits around a separator split into the two runs. *)
Lemma split_weekly (a b : string) :
  all_digits a = true -> all_digits b = true ->
  split "-W" (a ++ "-W" ++ b) = [a; b].
Proof.
  intros Ha Hb. unfold split. rewrite split_from_app_digits by auto.
  simpl. rewrite prefix_nil. now rewrite split_from_digits.
Qed.

Lemma split_biweekly (a b : string) :
  all_digits a = true -> all_digits b = true ->
  split "-BW" (a ++ "-BW" ++ b) = [a; b].
Proof.
  intros Ha Hb. unfold split. rewrite split_from_app_digits by auto.
  simpl. rewrite prefix_nil. now rewrite split_from_digits.
Qed.

Lemma split_quarterly (a b : string) :
  all_digits a = true -> all_digits b = true ->
  split "-Q" (a ++ "-Q" ++ b) = [a; b].
Proof.
  intros Ha Hb. unfold split. rewrite split_from_app_digits by auto.
  simpl. rewrite prefix_nil. now rewrite split_from_digits.
Qed.

Lemma split_monthly (a b : string) :
  all_digits a = true -> all_digits b = true ->
  split "-" (a ++ "-" ++ b) = [a; b].
Proof.
  intros Ha Hb. unfold split. rewrite split_from_app_digits by auto.
  simpl. rewrite prefix_nil. now rewrite split_from_digits.
Qed.

Lemma parse_digits (sep : string) (t : PeriodType) (a b : string) (y x : Z) :
  split sep (a ++ sep ++ b) = [a; b] -> int a = Some y -> int b = Some x ->
  parse_with sep t (a ++ sep ++ b) = Some (mkPeriod t y x).
Proof.
  intros Hs Ha Hb. unfold parse_with. rewrite Hs, Ha. simpl. rewrite Hb.
  reflexivity.
Qed.

(** C7.  For every valid period of each of the four types, parsing the key
    written by [get_period_key] gives the period back. *)
Theorem period_key_round_trip (p : Period) (H : valid_period p = true) :
  parse_period_key (get_period_key p) = Some p.
Proof.
  destruct p as [t y i]. unfold valid_period in H. simpl in H.
  repeat (apply andb_true_iff in H; destruct H as [H ?]).
  assert (Hy : 0 <= y) by (unfold MINYEAR in *; lia).
  assert (Hi : 0 <= i) by lia.
  pose proof (str_all_digits y Hy) as Dy.
  pose proof (int_str y Hy) as Iy.
  pose proof (format_02d_all_digits i Hi) as Df.
  pose proof (int_format_02d i Hi) as If.
  pose proof (str_all_digits i Hi) as Di.
  pose proof (int_str i Hi) as Ii.
  unfold parse_period_key, get_period_key; destruct t; cbn [type year index];
    rewrite ?(contains_app_digits "-W"), ?(contains_app_digits "-BW"),
            ?(contains_app_digits "-Q") by auto.
  - replace (contains "-W" ("-W" ++ format_02d i)) with true
      by (simpl; now rewrite prefix_nil).
    apply parse_digits; auto using split_weekly.
  - replace (contains "-W" ("-BW" ++ format_02d i)) with false
      by (simpl; now rewrite contains_digits).
    replace (contains "-BW" ("-BW" ++ format_02d i)) with true
      by (simpl; now rewrite prefix_nil).
    apply parse_digits; auto using split_biweekly.
  - replace (contains "-W" ("-Q" ++ str i)) with false
      by (simpl; now rewrite contains_digits).
    replace (contains "-BW" ("-Q" ++ str i)) with false
      by (simpl; now rewrite contains_digits).
    replace (contains "-Q" ("-Q" ++ str i)) with true
      by (simpl; now rewrite prefix_nil).
    apply parse_digits; auto using split_quarterly.
  - replace (contains "-W" ("-" ++ format_02d i)) with false
      by (simpl; now rewrite prefix_digits, contains_digits).
    replace (contains "-BW" ("-" ++ format_02d i)) with false
      by (simpl; now rewrite prefix_digits, contains_digits).
    replace (contains "-Q" ("-" ++ format_02d i)) with false
      by (simpl; now rewrite prefix_digits, contains_digits).
    apply parse_digits; auto using split_monthly.
Qed.

Lemma period_key_round_trip_witness :
  parse_period_key (get_period_key (mkPeriod biweekly 2020 27))
  = Some (mkPeriod biweekly 2020 27).
Proof.
  apply (period_key_round_trip (mkPeriod biweekly 2020 27)). reflexivity.
Defined.

(* ================================================================== *)
(** * The Gregorian cycle of 400 years *)
(* ================================================================== *)

(** Facts about every year follow from the same facts about the years 1
    to 400, which are checked one by one, once they are carried from a year
    to the year 400 years later: 400 years are 146097 days, a whole number
    of weeks. *)

Lemma date_eqb_eq (a b : date) : date_eqb a b = true -> a = b.
Proof.
  destruct a, b. unfold date_eqb. simpl. intro H.
  repeat (apply andb_true_iff in H; destruct H as [H ?]).
  f_equal; now apply Z.eqb_eq.
Qed.

Lemma first_cycle_In (y : Z) : 1 <= y <= 400 -> In y first_cycle.
Proof.
  intro H. unfold first_cycle. rewrite <- (Z2Nat.id y) by lia.
  apply in_map, in_seq. lia.
Qed.

Lemma cycle_induction (P : Z -> Prop) :
  (forall y, 1 <= y <= 400 -> P y) ->
  (forall y, 1 <= y -> P y -> P (y + 400)) ->
  forall y, 1 <= y -> P y.
Proof.
  intros Hbase Hstep.
  assert (H : forall k : nat, forall y, 1 <= y <= 400 * (Z.of_nat k + 1) -> P y).
  { induction k as [|k IH]; intros y Hy.
    - apply Hbase. lia.
    - destruct (Z_le_gt_dec y 400) as [Hle|Hgt]; [apply Hbase; lia|].
      replace y with (y - 400 + 400) by lia.
      apply Hstep; [lia|]. apply IH. lia. }
  intros y Hy. apply (H (Z.to_nat y)). lia.
Qed.

Lemma _days_before_year_cycle (y : Z) :
  _days_before_year (y + 400) = _days_before_year y + 146097.
Proof. unfold _days_before_year. cbv zeta. Z.div_mod_to_equations. lia. Qed.

Lemma _is_leap_cycle (y : Z) : _is_leap (y + 400) = _is_leap y.
Proof.
  unfold _is_leap.
  replace ((y + 400) mod 4) with (y mod 4)
    by (Z.div_mod_to_equations; lia).
  replace ((y + 400) mod 100) with (y mod 100)
    by (Z.div_mod_to_equations; lia).
  replace ((y + 400) mod 400) with (y mod 400)
    by (Z.div_mod_to_equations; lia).
  reflexivity.
Qed.

Lemma _days_in_month_cycle (y m : Z) :
  _days_in_month (y + 400) m = _days_in_month y m.
Proof. unfold _days_in_month. now rewrite _is_leap_cycle. Qed.

Lemma _ymd2ord_cycle (y m d : Z) :
  _ymd2ord (y + 400) m d = _ymd2ord y m d + 146097.
Proof.
  unfold _ymd2ord, _days_before_month.
  rewrite _days_before_year_cycle, _is_leap_cycle. lia.
Qed.

Lemma _isoweek1monday_cycle (y : Z) :
  _isoweek1monday (y + 400) = _isoweek1monday y + 146097.
Proof.
  unfold _isoweek1monday. cbv zeta. rewrite _ymd2ord_cycle.
  replace ((_ymd2ord y 1 1 + 146097 + 6) mod 7) with ((_ymd2ord y 1 1 + 6) mod 7)
    by (Z.div_mod_to_equations; lia).
  destruct (_ >? 3); lia.
Qed.

Lemma weeks_of_cycle (y : Z) : weeks_of (y + 400) = weeks_of y.
Proof.
  unfold weeks_of, isocalendar, toordinal. cbn [dt_year dt_month dt_day]. cbv zeta.
  replace (y + 400 - 1) with (y - 1 + 400) by lia.
  replace (y + 400 + 1) with (y + 1 + 400) by lia.
  rewrite !_isoweek1monday_cycle, _ymd2ord_cycle.
  replace (_ymd2ord y 12 28 + 146097 - (_isoweek1monday y + 146097))
    with (_ymd2ord y 12 28 - _isoweek1monday y) by lia.
  replace (_ymd2ord y 12 28 + 146097 - (_isoweek1monday (y - 1) + 146097))
    with (_ymd2ord y 12 28 - _isoweek1monday (y - 1)) by lia.
  replace (_ymd2ord y 12 28 + 146097 >=? _isoweek1monday (y + 1) + 146097)
    with (_ymd2ord y 12 28 >=? _isoweek1monday (y + 1))
    by (rewrite !Z.geb_leb; destruct (Z.leb_spec (_isoweek1monday (y + 1)) (_ymd2ord y 12 28));
        symmetry; [apply Z.leb_le|apply Z.leb_gt]; lia).
  repeat match goal with |- context [if ?c then _ else _] => destruct c end;
    reflexivity.
Qed.

Lemma first_cycle_weeks : forallb weeks_ok first_cycle = true.
Proof. vm_compute. reflexivity. Qed.

(** Every year has 52 or 53 ISO weeks. *)
Lemma weeks_of_52_53 (y : Z) : 1 <= y -> weeks_of y = 52 \/ weeks_of y = 53.
Proof.
  revert y. apply cycle_induction.
  - intros y Hy. pose proof first_cycle_weeks as H.
    rewrite forallb_forall in H. specialize (H y (first_cycle_In y Hy)).
    unfold weeks_ok in H. apply orb_true_iff in H.
    destruct H as [H|H]; apply Z.eqb_eq in H; auto.
  - intros y _ H. now rewrite weeks_of_cycle.
Qed.

Lemma get_max_weeks_in_year_weeks_of (y w : Z) :
  get_max_weeks_in_year y = Some w -> MINYEAR <= y <= MAXYEAR /\ w = weeks_of y.
Proof.
  unfold get_max_weeks_in_year, datetime.
  destruct (MINYEAR <=? y) eqn:E1; [|discriminate].
  destruct (y <=? MAXYEAR) eqn:E2; [|discriminate].
  apply Z.leb_le in E1, E2.
  destruct (_ && _); [|discriminate]. cbn [bind]. intros [= <-]. now split.
Qed.

Lemma get_max_weeks_in_year_52_53 (y w : Z) :
  get_max_weeks_in_year y = Some w -> w = 52 \/ w = 53.
Proof.
  intro H. apply get_max_weeks_in_year_weeks_of in H. destruct H as [[H1 _] ->].
  apply weeks_of_52_53. exact H1.
Qed.

(* ================================================================== *)
(** * Navigation *)
(* ================================================================== *)

Lemma get_max_weeks_defined (y : Z) :
  MINYEAR <= y <= MAXYEAR -> exists w, get_max_weeks_in_year y = Some w.
Proof.
  intros [H1 H2]. unfold get_max_weeks_in_year, datetime.
  apply Z.leb_le in H1, H2. rewrite H1, H2. simpl.
  replace (_days_in_month y 12) with 31 by reflexivity. simpl.
  eexists. reflexivity.
Qed.

(** C8, as stated, fails at the end of the calendar: the last week of
    year 9999 is a valid period, the period after it is week 1 of year
    10000, and navigating back from there asks for the weeks of a year
    that [datetime] cannot represent. *)
Lemma navigate_inverse_counterexample :
  let p := mkPeriod weekly 9999 52 in
  valid_period p = true
  /\ navigate_period p 1 = Some (mkPeriod weekly 10000 1)
  /\ (q <- navigate_period p 1 ;; navigate_period q (-1)) = None.
Proof. vm_compute. repeat split. Qed.

(** C8, amended.  For every valid period whose successor lies in a year of
    the calendar (any month or quarter; any week or biweek but the last of
    year 9999), navigating forward and then backward gives the period back.
    At the boundaries the year moves by one and the index wraps: backward
    from week 1 to the last week of the previous year, from biweek 1 to
    biweek [(max_weeks + 1) / 2] of the previous year, from quarter 1 to
    quarter 4 and from month 1 to month 12; forward from the last index to
    index 1 of the next year.  Week 1 of 2024 navigated backward is week 52
    of 2023. *)
Theorem navigate_inverse (p : Period)
  (Hvalid : valid_period p = true) (Hnext : next_in_calendar p = true) :
  (q <- navigate_period p 1 ;; navigate_period q (-1)) = Some p
  /\ (forall y,
        navigate_period (mkPeriod weekly y 1) (-1) =
        (_ <- get_max_weeks_in_year y ;;
         w <- get_max_weeks_in_year (y - 1) ;;
         Some (mkPeriod weekly (y - 1) w))
        /\ navigate_period (mkPeriod biweekly y 1) (-1) =
           (_ <- get_max_weeks_in_year y ;;
            w <- get_max_weeks_in_year (y - 1) ;;
            Some (mkPeriod biweekly (y - 1) ((w + 1) / 2)))
        /\ navigate_period (mkPeriod quarterly y 1) (-1)
           = Some (mkPeriod quarterly (y - 1) 4)
        /\ navigate_period (mkPeriod quarterly y 4) 1
           = Some (mkPeriod quarterly (y + 1) 1)
        /\ navigate_period (mkPeriod monthly y 1) (-1)
           = Some (mkPeriod monthly (y - 1) 12)
        /\ navigate_period (mkPeriod monthly y 12) 1
           = Some (mkPeriod monthly (y + 1) 1))
  /\ (forall y w, get_max_weeks_in_year y = Some w ->
                  navigate_period (mkPeriod weekly y w) 1
                  = Some (mkPeriod weekly (y + 1) 1)
                  /\ navigate_period (mkPeriod biweekly y ((w + 1) / 2)) 1
                     = Some (mkPeriod biweekly (y + 1) 1))
  /\ navigate_period (mkPeriod weekly 2024 1) (-1) = Some (mkPeriod weekly 2023 52).
Proof.
  split; [|split; [|split]].
  - destruct p as [t y i]. unfold valid_period in Hvalid.
    unfold next_in_calendar in Hnext. cbn [type year index] in *.
    repeat (apply andb_true_iff in Hvalid; destruct Hvalid as [Hvalid ?]).
    destruct t; unfold navigate_period in *; cbn [type year index bind] in *.
    + destruct (get_max_weeks_in_year y) as [w|] eqn:Ew; [|discriminate].
      cbn [bind] in *.
      destruct (i + 1 <? 1) eqn:E1; [lia|].
      destruct (i + 1 >? w) eqn:E2; cbn [bind type year index] in *.
      * destruct (get_max_weeks_defined (y + 1)) as [w' ->];
          [unfold MINYEAR in *; lia|].
        cbn [bind]. replace (1 + -1 <? 1) with true by reflexivity.
        replace (y + 1 - 1) with y by lia. rewrite Ew. cbn [bind].
        do 2 f_equal. lia.
      * rewrite Ew. cbn [bind].
        replace (i + 1 + -1) with i by lia.
        destruct (i <? 1) eqn:E3; [lia|].
        destruct (i >? w) eqn:E4; [lia|]. reflexivity.
    + destruct (get_max_weeks_in_year y) as [w|] eqn:Ew; [|discriminate].
      cbn [bind] in *.
      destruct (i + 1 <? 1) eqn:E1; [lia|].
      destruct (i + 1 >? (w + 1) / 2) eqn:E2; cbn [bind type year index] in *.
      * destruct (get_max_weeks_defined (y + 1)) as [w' ->];
          [unfold MINYEAR in *; lia|].
        cbn [bind]. replace (1 + -1 <? 1) with true by reflexivity.
        replace (y + 1 - 1) with y by lia. rewrite Ew. cbn [bind].
        do 2 f_equal. lia.
      * rewrite Ew. cbn [bind].
        replace (i + 1 + -1) with i by lia.
        destruct (i <? 1) eqn:E3; [lia|].
        destruct (i >? (w + 1) / 2) eqn:E4; [lia|]. reflexivity.
    + destruct (i + 1 <? 1) eqn:E1; [lia|].
      destruct (i + 1 >? 4) eqn:E2; cbn [bind type year index].
      * replace (1 + -1 <? 1) with true by reflexivity.
        do 2 f_equal; lia.
      * replace (i + 1 + -1) with i by lia.
        destruct (i <? 1) eqn:E3; [lia|].
        destruct (i >? 4) eqn:E4; [lia|]. reflexivity.
    + destruct (i + 1 <? 1) eqn:E1; [lia|].
      destruct (i + 1 >? 12) eqn:E2; cbn [bind type year index].
      * replace (1 + -1 <? 1) with true by reflexivity.
        do 2 f_equal; lia.
      * replace (i + 1 + -1) with i by lia.
        destruct (i <? 1) eqn:E3; [lia|].
        destruct (i >? 12) eqn:E4; [lia|]. reflexivity.
  - intro y. unfold navigate_period. cbn [type year index].
    repeat split; destruct (get_max_weeks_in_year y); reflexivity.
  - intros y w Hw. unfold navigate_period. cbn [type year index].
    rewrite Hw. cbn [bind].
    destruct (get_max_weeks_in_year_52_53 y w Hw) as [-> | ->]; split; reflexivity.
  - reflexivity.
Qed.

Lemma navigate_inverse_witness :
  (q <- navigate_period (mkPeriod weekly 2020 53) 1 ;; navigate_period q (-1))
  = Some (mkPeriod weekly 2020 53).
Proof.
  refine (proj1 (navigate_inverse (mkPeriod weekly 2020 53) _ _)); reflexivity.
Defined.

(* ================================================================== *)
(** * Date ranges of months and quarters *)
(* ================================================================== *)

Lemma _ord2ymd_cycle (n : Z) :
  _ord2ymd (n + 146097) =
  mkDate (dt_year (_ord2ymd n) + 400) (dt_month (_ord2ymd n)) (dt_day (_ord2ymd n)).
Proof.
  unfold _ord2ymd, _DI400Y. cbv zeta.
  replace (n + 146097 - 1) with (n - 1 + 1 * 146097) by lia.
  rewrite Z_div_plus_full, Z_mod_plus_full by lia.
  repeat match goal with |- context [if ?c then _ else _] => destruct c end;
    cbn [dt_year dt_month dt_day]; f_equal; lia.
Qed.

Lemma first_cycle_month_ends : forallb year_ok first_cycle = true.
Proof. vm_compute. reflexivity. Qed.

Lemma month_in_list (m : Z) :
  1 <= m <= 11 -> In m [1; 2; 3; 4; 5; 6; 7; 8; 9; 10; 11].
Proof. intro H. simpl. lia. Qed.

Lemma month_end_ok_unfold (y m : Z) :
  date_eqb (_ord2ymd (_ymd2ord y (m + 1) 1 - 1)) (mkDate y m (_days_in_month y m))
  = month_end_ok y m.
Proof.
  exact (@eq_refl bool
           (date_eqb (_ord2ymd (_ymd2ord y (m + 1) 1 - 1))
                     (mkDate y m (_days_in_month y m)))).
Qed.

Lemma year_ok_unfold (y : Z) :
  forallb (month_end_ok y) [1; 2; 3; 4; 5; 6; 7; 8; 9; 10; 11] = year_ok y.
Proof.
  exact (@eq_refl bool (forallb (month_end_ok y) [1; 2; 3; 4; 5; 6; 7; 8; 9; 10; 11])).
Qed.

Lemma first_cycle_month_end (y m : Z) :
  1 <= y <= 400 -> 1 <= m <= 11 -> month_end_ok y m = true.
Proof.
  intros Hy Hm.
  pose proof (proj1 (forallb_forall year_ok first_cycle) first_cycle_month_ends
                y (first_cycle_In y Hy)) as H.
  rewrite <- year_ok_unfold in H. rewrite forallb_forall in H.
  apply H. now apply month_in_list.
Qed.

Lemma month_end_ok_cycle (y m : Z) : month_end_ok (y + 400) m = month_end_ok y m.
Proof.
  rewrite <- !month_end_ok_unfold. rewrite _ymd2ord_cycle, _days_in_month_cycle.
  replace (_ymd2ord y (m + 1) 1 + 146097 - 1)
    with (_ymd2ord y (m + 1) 1 - 1 + 146097) by lia.
  rewrite _ord2ymd_cycle.
  generalize (_ord2ymd (_ymd2ord y (m + 1) 1 - 1)) as d.
  generalize (_days_in_month y m) as k. intros k d.
  unfold date_eqb. cbn [dt_year dt_month dt_day].
  f_equal. f_equal.
  destruct (Z.eqb_spec (dt_year d) y); [apply Z.eqb_eq|apply Z.eqb_neq]; lia.
Qed.

Lemma month_end_ok_all (y m : Z) :
  1 <= y -> 1 <= m <= 11 -> month_end_ok y m = true.
Proof.
  intros Hy Hm. revert y Hy. apply cycle_induction.
  - intros y Hy. now apply first_cycle_month_end.
  - intros y _ IH. now rewrite month_end_ok_cycle.
Qed.

Lemma month_end (y m : Z) :
  1 <= y -> 1 <= m <= 11 ->
  _ord2ymd (_ymd2ord y (m + 1) 1 - 1) = mkDate y m (_days_in_month y m).
Proof.
  intros Hy Hm. pose proof (month_end_ok_all y m Hy Hm) as H.
  rewrite <- month_end_ok_unfold in H. now apply date_eqb_eq.
Qed.

Lemma month_end_in_range (y m : Z) :
  MINYEAR <= y <= MAXYEAR -> 1 <= m <= 11 ->
  1 <= _ymd2ord y (m + 1) 1 - 1 <= _MAXORDINAL.
Proof.
  unfold MINYEAR, MAXYEAR, _MAXORDINAL. intros Hy Hm.
  assert (Hb : 31 <= _days_before_month y (m + 1) <= 335).
  { unfold _days_before_month.
    assert (Hc : m = 1 \/ m = 2 \/ m = 3 \/ m = 4 \/ m = 5 \/ m = 6 \/ m = 7
                 \/ m = 8 \/ m = 9 \/ m = 10 \/ m = 11) by lia.
    destruct (_ && _);
      repeat (destruct Hc as [-> | Hc]; [simpl; lia|]); subst; simpl; lia. }
  unfold _ymd2ord, _days_before_year. cbv zeta.
  Z.div_mod_to_equations. lia.
Qed.

Lemma datetime_valid (y m d : Z) :
  MINYEAR <= y <= MAXYEAR -> 1 <= m <= 12 -> 1 <= d <= _days_in_month y m ->
  datetime y m d = Some (mkDate y m d).
Proof.
  intros [H1 H2] [H3 H4] [H5 H6]. unfold datetime.
  apply Z.leb_le in H1, H2, H3, H4, H5, H6.
  now rewrite H1, H2, H3, H4, H5, H6.
Qed.

Lemma _days_in_month_bounds (y m : Z) :
  1 <= m <= 12 -> 28 <= _days_in_month y m <= 31.
Proof.
  intro Hm. unfold _days_in_month.
  assert (Hc : m = 1 \/ m = 2 \/ m = 3 \/ m = 4 \/ m = 5 \/ m = 6 \/ m = 7
               \/ m = 8 \/ m = 9 \/ m = 10 \/ m = 11 \/ m = 12) by lia.
  destruct (_ && _); [lia|].
  repeat (destruct Hc as [-> | Hc]; [simpl; lia|]); subst; simpl; lia.
Qed.

Lemma get_month_dates_spec (month year : Z) :
  MINYEAR <= year <= MAXYEAR -> 1 <= month <= 12 ->
  get_month_dates month year =
  Some (mkDate year month 1, mkDate year month (_days_in_month year month)).
Proof.
  intros Hy Hm. unfold get_month_dates.
  pose proof (_days_in_month_bounds year month Hm) as Hd.
  rewrite datetime_valid by (auto; lia). cbn [bind].
  destruct (month =? 12) eqn:E.
  - apply Z.eqb_eq in E. subst.
    rewrite datetime_valid by (auto; simpl; lia). reflexivity.
  - apply Z.eqb_neq in E.
    pose proof (_days_in_month_bounds year (month + 1)).
    rewrite datetime_valid by (auto; lia). cbn [bind].
    unfold minus_days, toordinal. cbv zeta. cbn [dt_year dt_month dt_day].
    destruct (month_end_in_range year month Hy) as [H1 H2]; [lia|].
    apply Z.leb_le in H1, H2. rewrite H1, H2. cbn [andb bind].
    rewrite month_end by (unfold MINYEAR in *; lia). reflexivity.
Qed.

(** A quarter before the last ends where its third month ends. *)
Lemma quarter_from_month (y q : Z) :
  MINYEAR <= y <= MAXYEAR -> 1 <= q <= 3 ->
  get_quarter_dates q y =
  Some (mkDate y ((q - 1) * 3 + 1) 1, mkDate y (q * 3) (_days_in_month y (q * 3))).
Proof.
  intros Hy Hq. unfold get_quarter_dates. cbv zeta.
  assert (Hm : 1 <= (q - 1) * 3 + 1 <= 12) by lia.
  pose proof (_days_in_month_bounds y ((q - 1) * 3 + 1) Hm).
  rewrite datetime_valid by (auto; lia). cbn [bind].
  replace ((q - 1) * 3 + 1 + 2) with (q * 3) by lia.
  destruct (q * 3 =? 12) eqn:E; [apply Z.eqb_eq in E; lia|].
  pose proof (_days_in_month_bounds y (q * 3 + 1)).
  rewrite datetime_valid by (auto; lia). cbn [bind].
  unfold minus_days, toordinal. cbv zeta. cbn [dt_year dt_month dt_day].
  destruct (month_end_in_range y (q * 3) Hy) as [H1 H2]; [lia|].
  apply Z.leb_le in H1, H2. rewrite H1, H2. cbn [andb bind].
  rewrite month_end by (unfold MINYEAR in *; lia). reflexivity.
Qed.

(** C9.  For every year of the calendar and every month from 1 to 12,
    [get_month_dates] returns the first day of the month and its last
    calendar day; for every quarter from 1 to 4, [get_quarter_dates]
    returns the first day of the quarter's first month and the last
    calendar day of its third month.  The last day is the 31st for
    December, and otherwise the day before the first of the next month,
    which is the 29th for February in a leap year and the 28th in any
    other year. *)
Theorem month_and_quarter_dates (y : Z) (Hy : MINYEAR <= y <= MAXYEAR) :
  (forall month, 1 <= month <= 12 ->
     get_month_dates month y =
     Some (mkDate y month 1, mkDate y month (_days_in_month y month)))
  /\ (forall quarter, 1 <= quarter <= 4 ->
        get_quarter_dates quarter y =
        Some (mkDate y ((quarter - 1) * 3 + 1) 1,
              mkDate y (quarter * 3) (_days_in_month y (quarter * 3))))
  /\ (forall month, 1 <= month <= 11 ->
        minus_days (mkDate y (month + 1) 1) 1
        = Some (mkDate y month (_days_in_month y month)))
  /\ _days_in_month y 12 = 31
  /\ _days_in_month y 2 = (if _is_leap y then 29 else 28)
  /\ (_is_leap y = true ->
      get_month_dates 2 y = Some (mkDate y 2 1, mkDate y 2 29))
  /\ (_is_leap y = true <->
      y mod 4 = 0 /\ (y mod 100 <> 0 \/ y mod 400 = 0)).
Proof.
  split; [|split; [|split; [|split; [|split; [|split]]]]].
  - intros month Hm. now apply get_month_dates_spec.
  - intros quarter Hq.
    assert (Hc : quarter = 1 \/ quarter = 2 \/ quarter = 3 \/ quarter = 4) by lia.
    destruct Hc as [-> | [-> | [-> | ->]]];
      first [exact (quarter_from_month y 1 Hy ltac:(lia))
            |exact (quarter_from_month y 2 Hy ltac:(lia))
            |exact (quarter_from_month y 3 Hy ltac:(lia))
            |idtac].
    unfold get_quarter_dates. cbv zeta.
    change ((4 - 1) * 3 + 1) with 10. change (10 + 2 =? 12) with true.
    assert (H10 : _days_in_month y 10 = 31) by reflexivity.
    assert (H12 : _days_in_month y 12 = 31) by reflexivity.
    rewrite (datetime_valid y 10 1), (datetime_valid y 12 31)
      by (try exact Hy; lia).
    change (4 * 3) with 12. rewrite H12. reflexivity.
  - intros month Hm. unfold minus_days, toordinal. cbv zeta.
    cbn [dt_year dt_month dt_day].
    destruct (month_end_in_range y month Hy Hm) as [H1 H2].
    apply Z.leb_le in H1, H2. rewrite H1, H2. cbn [andb].
    rewrite month_end by (unfold MINYEAR in *; lia). reflexivity.
  - reflexivity.
  - unfold _days_in_month. simpl. now destruct (_is_leap y).
  - intro Hl. rewrite get_month_dates_spec by (auto; lia).
    unfold _days_in_month. rewrite Hl. reflexivity.
  - unfold _is_leap. rewrite andb_true_iff, orb_true_iff, negb_true_iff.
    rewrite !Z.eqb_eq, Z.eqb_neq. reflexivity.
Qed.

Lemma month_and_quarter_dates_witness :
  get_month_dates 2 2024 = Some (mkDate 2024 2 1, mkDate 2024 2 29).
Proof.
  refine (proj1 (proj2 (proj2 (proj2 (proj2 (proj2
            (month_and_quarter_dates 2024 _)))))) _).
  - unfold MINYEAR, MAXYEAR. lia.
  - reflexivity.
Defined.


(* ================================================================== *)
(** * Further properties of the calendar *)
(* ================================================================== *)

Lemma long_year_cycle (y : Z) : long_year (y + 400) = long_year y.
Proof.
  unfold long_year, weekday, toordinal. cbn [dt_year dt_month dt_day]. cbv zeta.
  rewrite _ymd2ord_cycle, _is_leap_cycle.
  replace ((_ymd2ord y 1 1 + 146097 + 6) mod 7) with ((_ymd2ord y 1 1 + 6) mod 7)
    by (Z.div_mod_to_equations; lia).
  reflexivity.
Qed.

Lemma first_cycle_long_years :
  forallb (fun y => Bool.eqb (weeks_of y =? 53) (long_year y)) first_cycle = true.
Proof. vm_compute. reflexivity. Qed.

Lemma weeks_of_long_year (y : Z) : 1 <= y -> (weeks_of y =? 53) = long_year y.
Proof.
  revert y. apply cycle_induction.
  - intros y Hy. pose proof first_cycle_long_years as H.
    rewrite forallb_forall in H. specialize (H y (first_cycle_In y Hy)).
    now apply Bool.eqb_prop in H.
  - intros y _ IH. now rewrite weeks_of_cycle, long_year_cycle.
Qed.

(** X11.  Every year of the calendar has 52 or 53 weeks, so 26 or 27
    biweeks; it has 53 exactly when 1 January is a Thursday, or a
    Wednesday in a leap year.  Outside the years 1 to 9999 the number of
    weeks is not defined. *)
Theorem max_weeks_in_year (y : Z) :
  (MINYEAR <= y <= MAXYEAR ->
   exists w, get_max_weeks_in_year y = Some w
             /\ (w = 52 \/ w = 53)
             /\ ((w + 1) / 2 = 26 \/ (w + 1) / 2 = 27)
             /\ (w = 53 <-> long_year y = true))
  /\ (y < MINYEAR \/ MAXYEAR < y -> get_max_weeks_in_year y = None).
Proof.
  split.
  - intro Hy. destruct (get_max_weeks_defined y Hy) as [w Hw].
    exists w. split; [exact Hw|].
    destruct (get_max_weeks_in_year_weeks_of y w Hw) as [_ ->].
    assert (H1 : 1 <= y) by (unfold MINYEAR in Hy; lia).
    pose proof (weeks_of_52_53 y H1) as Hc.
    pose proof (weeks_of_long_year y H1) as Hl.
    split; [exact Hc|]. split.
    + destruct Hc as [-> | ->]; [left|right]; reflexivity.
    + rewrite <- Hl. symmetry. apply Z.eqb_eq.
  - intro Hy. unfold get_max_weeks_in_year, datetime.
    destruct Hy as [Hy|Hy].
    + apply Z.leb_gt in Hy. now rewrite Hy.
    + apply Z.leb_gt in Hy. rewrite Hy. now rewrite andb_false_r.
Qed.

Lemma max_weeks_in_year_witness :
  exists w, get_max_weeks_in_year 2020 = Some w /\ (w = 52 \/ w = 53).
Proof.
  destruct (proj1 (max_weeks_in_year 2020)) as (w & Hw & Hc & _).
  - unfold MINYEAR, MAXYEAR. lia.
  - exists w. split; [exact Hw|exact Hc].
Defined.


(** ** Navigation *)

Lemma valid_period_iff (p : Period) :
  valid_period p = true <->
  MINYEAR <= year p <= MAXYEAR /\ 1 <= index p
  /\ match type p with
     | weekly =>
         exists w, get_max_weeks_in_year (year p) = Some w /\ index p <= w
     | biweekly =>
         exists w, get_max_weeks_in_year (year p) = Some w
                   /\ index p <= (w + 1) / 2
     | quarterly => index p <= 4
     | monthly => index p <= 12
     end.
Proof.
  unfold valid_period. rewrite !andb_true_iff, !Z.leb_le.
  destruct (type p).
  - destruct (get_max_weeks_in_year (year p)) as [w|].
    + rewrite Z.leb_le. split.
      * intros [[[H1 H2] H3] H4]. repeat split; auto. now exists w.
      * intros [[H1 H2] [H3 (w' & [= <-] & H4)]]. auto.
    + split; [intros [_ H]; discriminate|].
      intros [_ [_ (w' & H & _)]]. discriminate.
  - destruct (get_max_weeks_in_year (year p)) as [w|].
    + rewrite Z.leb_le. split.
      * intros [[[H1 H2] H3] H4]. repeat split; auto. now exists w.
      * intros [[H1 H2] [H3 (w' & [= <-] & H4)]]. auto.
    + split; [intros [_ H]; discriminate|].
      intros [_ [_ (w' & H & _)]]. discriminate.
  - rewrite Z.leb_le. tauto.
  - rewrite Z.leb_le. tauto.
Qed.

Lemma get_max_weeks_some (y : Z) :
  MINYEAR <= y <= MAXYEAR ->
  exists w, get_max_weeks_in_year y = Some w /\ (w = 52 \/ w = 53).
Proof.
  intro Hy. destruct (get_max_weeks_defined y Hy) as [w Hw].
  exists w. split; [exact Hw|]. now apply (get_max_weeks_in_year_52_53 y).
Qed.

(** X12.  Navigation stays among the valid periods: from a valid period
    in a year before 9999 the next period exists, has the same type and is
    valid; from a valid period in a year after year 1 so does the previous
    one. *)
Theorem navigate_keeps_valid (p : Period) (Hvalid : valid_period p = true) :
  (year p < MAXYEAR ->
   exists q, navigate_period p 1 = Some q
             /\ type q = type p /\ valid_period q = true)
  /\ (MINYEAR < year p ->
      exists q, navigate_period p (-1) = Some q
                /\ type q = type p /\ valid_period q = true).
Proof.
  apply valid_period_iff in Hvalid. destruct Hvalid as (Hy & Hi & Ht).
  destruct p as [t y i]. cbn [type year index] in *.
  unfold MINYEAR, MAXYEAR in *.
  split; intro Hb; unfold MINYEAR, MAXYEAR in Hb;
    unfold navigate_period; cbn [type year index]; destruct t.
  - destruct Ht as (w & Hw & Hiw). rewrite Hw. cbn [bind].
    destruct (i + 1 <? 1) eqn:E1; [lia|].
    destruct (get_max_weeks_some (y + 1)) as (w' & Hw' & Hc');
      [unfold MINYEAR, MAXYEAR; lia|].
    destruct (i + 1 >? w) eqn:E2; eexists; (split; [reflexivity|]);
      (split; [reflexivity|]); apply valid_period_iff; cbn [type year index];
      unfold MINYEAR, MAXYEAR; repeat split; try lia.
    + exists w'. split; [exact Hw'|lia].
    + exists w. split; [exact Hw|lia].
  - destruct Ht as (w & Hw & Hiw). rewrite Hw. cbn [bind].
    destruct (i + 1 <? 1) eqn:E1; [lia|].
    destruct (get_max_weeks_some (y + 1)) as (w' & Hw' & Hc');
      [unfold MINYEAR, MAXYEAR; lia|].
    destruct (i + 1 >? (w + 1) / 2) eqn:E2; eexists; (split; [reflexivity|]);
      (split; [reflexivity|]); apply valid_period_iff; cbn [type year index];
      unfold MINYEAR, MAXYEAR; repeat split; try lia.
    + exists w'. split; [exact Hw'|]. destruct Hc' as [-> | ->]; apply Z.leb_le; reflexivity.
    + exists w. split; [exact Hw|lia].
  - destruct (i + 1 <? 1) eqn:E1; [lia|].
    destruct (i + 1 >? 4) eqn:E2; eexists; (split; [reflexivity|]);
      (split; [reflexivity|]); apply valid_period_iff; cbn [type year index];
      unfold MINYEAR, MAXYEAR; repeat split; lia.
  - destruct (i + 1 <? 1) eqn:E1; [lia|].
    destruct (i + 1 >? 12) eqn:E2; eexists; (split; [reflexivity|]);
      (split; [reflexivity|]); apply valid_period_iff; cbn [type year index];
      unfold MINYEAR, MAXYEAR; repeat split; lia.
  - destruct Ht as (w & Hw & Hiw). rewrite Hw. cbn [bind].
    destruct (get_max_weeks_some (y - 1)) as (w' & Hw' & Hc');
      [unfold MINYEAR, MAXYEAR; lia|].
    rewrite Hw'. cbn [bind].
    destruct (i + -1 <? 1) eqn:E1;
      [|destruct (i + -1 >? w) eqn:E2; [lia|]];
      eexists; (split; [reflexivity|]);
      (split; [reflexivity|]); apply valid_period_iff; cbn [type year index];
      unfold MINYEAR, MAXYEAR; repeat split; try lia.
    + exists w'. split; [exact Hw'|lia].
    + exists w. split; [exact Hw|lia].
  - destruct Ht as (w & Hw & Hiw). rewrite Hw. cbn [bind].
    destruct (get_max_weeks_some (y - 1)) as (w' & Hw' & Hc');
      [unfold MINYEAR, MAXYEAR; lia|].
    rewrite Hw'. cbn [bind].
    destruct (i + -1 <? 1) eqn:E1;
      [|destruct (i + -1 >? (w + 1) / 2) eqn:E2; [lia|]];
      eexists; (split; [reflexivity|]);
      (split; [reflexivity|]); apply valid_period_iff; cbn [type year index];
      unfold MINYEAR, MAXYEAR; repeat split; try lia.
    + destruct Hc' as [-> | ->]; apply Z.leb_le; reflexivity.
    + exists w'. split; [exact Hw'|lia].
    + exists w. split; [exact Hw|lia].
  - destruct (i + -1 <? 1) eqn:E1;
      [|destruct (i + -1 >? 4) eqn:E2; [lia|]];
      eexists; (split; [reflexivity|]);
      (split; [reflexivity|]); apply valid_period_iff; cbn [type year index];
      unfold MINYEAR, MAXYEAR; repeat split; lia.
  - destruct (i + -1 <? 1) eqn:E1;
      [|destruct (i + -1 >? 12) eqn:E2; [lia|]];
      eexists; (split; [reflexivity|]);
      (split; [reflexivity|]); apply valid_period_iff; cbn [type year index];
      unfold MINYEAR, MAXYEAR; repeat split; lia.
Qed.

Lemma navigate_keeps_valid_witness :
  exists q, navigate_period (mkPeriod biweekly 2020 27) 1 = Some q
            /\ type q = biweekly /\ valid_period q = true.
Proof.
  refine (proj1 (navigate_keeps_valid (mkPeriod biweekly 2020 27) _) _).
  - reflexivity.
  - reflexivity.
Defined.

(** X13.  Navigating backward and then forward gives the period back, for
    every valid period in a year after year 1. *)
Theorem navigate_inverse_backward (p : Period)
  (Hvalid : valid_period p = true) (Hyear : MINYEAR < year p) :
  (q <- navigate_period p (-1) ;; navigate_period q 1) = Some p.
Proof.
  apply valid_period_iff in Hvalid. destruct Hvalid as (Hy & Hi & Ht).
  destruct p as [t y i]. cbn [type year index] in *.
  unfold MINYEAR, MAXYEAR in *.
  unfold navigate_period; cbn [type year index]; destruct t.
  - destruct Ht as (w & Hw & Hiw). rewrite Hw. cbn [bind].
    destruct (get_max_weeks_some (y - 1)) as (w' & Hw' & Hc');
      [unfold MINYEAR, MAXYEAR; lia|].
    rewrite Hw'. cbn [bind].
    destruct (i + -1 <? 1) eqn:E1; cbn [bind type year index].
    + rewrite Hw'. cbn [bind].
      destruct (w' + 1 <? 1) eqn:E3; [lia|].
      destruct (w' + 1 >? w') eqn:E4; [|lia].
      do 2 f_equal; lia.
    + destruct (i + -1 >? w) eqn:E2; [lia|]. cbn [bind type year index].
      rewrite Hw. cbn [bind]. replace (i + -1 + 1) with i by lia.
      destruct (i <? 1) eqn:E3; [lia|].
      destruct (i >? w) eqn:E4; [lia|]. reflexivity.
  - destruct Ht as (w & Hw & Hiw). rewrite Hw. cbn [bind].
    destruct (get_max_weeks_some (y - 1)) as (w' & Hw' & Hc');
      [unfold MINYEAR, MAXYEAR; lia|].
    rewrite Hw'. cbn [bind].
    destruct (i + -1 <? 1) eqn:E1; cbn [bind type year index].
    + rewrite Hw'. cbn [bind].
      assert (Hb : 26 <= (w' + 1) / 2)
        by (destruct Hc' as [-> | ->]; apply Z.leb_le; reflexivity).
      destruct ((w' + 1) / 2 + 1 <? 1) eqn:E3; [lia|].
      destruct ((w' + 1) / 2 + 1 >? (w' + 1) / 2) eqn:E4; [|lia].
      do 2 f_equal; lia.
    + destruct (i + -1 >? (w + 1) / 2) eqn:E2; [lia|].
      cbn [bind type year index].
      rewrite Hw. cbn [bind]. replace (i + -1 + 1) with i by lia.
      destruct (i <? 1) eqn:E3; [lia|].
      destruct (i >? (w + 1) / 2) eqn:E4; [lia|]. reflexivity.
  - destruct (i + -1 <? 1) eqn:E1; cbn [bind type year index].
    + replace (4 + 1 <? 1) with false by reflexivity.
      replace (4 + 1 >? 4) with true by reflexivity.
      do 2 f_equal; lia.
    + destruct (i + -1 >? 4) eqn:E2; [lia|]. cbn [bind type year index].
      replace (i + -1 + 1) with i by lia.
      destruct (i <? 1) eqn:E3; [lia|].
      destruct (i >? 4) eqn:E4; [lia|]. reflexivity.
  - destruct (i + -1 <? 1) eqn:E1; cbn [bind type year index].
    + replace (12 + 1 <? 1) with false by reflexivity.
      replace (12 + 1 >? 12) with true by reflexivity.
      do 2 f_equal; lia.
    + destruct (i + -1 >? 12) eqn:E2; [lia|]. cbn [bind type year index].
      replace (i + -1 + 1) with i by lia.
      destruct (i <? 1) eqn:E3; [lia|].
      destruct (i >? 12) eqn:E4; [lia|]. reflexivity.
Qed.

Lemma navigate_inverse_backward_witness :
  (q <- navigate_period (mkPeriod weekly 2021 1) (-1) ;; navigate_period q 1)
  = Some (mkPeriod weekly 2021 1).
Proof.
  apply (navigate_inverse_backward (mkPeriod weekly 2021 1)).
  - reflexivity.
  - reflexivity.
Defined.


(** ** The current period *)

Lemma datetime_inv (y m d : Z) (now : date) :
  datetime y m d = Some now ->
  now = mkDate y m d
  /\ MINYEAR <= y <= MAXYEAR /\ 1 <= m <= 12 /\ 1 <= d <= _days_in_month y m.
Proof.
  unfold datetime.
  destruct (MINYEAR <=? y) eqn:E1; [|discriminate].
  destruct (y <=? MAXYEAR) eqn:E2; [|discriminate].
  destruct (1 <=? m) eqn:E3; [|discriminate].
  destruct (m <=? 12) eqn:E4; [|discriminate].
  destruct (1 <=? d) eqn:E5; [|discriminate].
  destruct (d <=? _days_in_month y m) eqn:E6; [|discriminate].
  apply Z.leb_le in E1, E2, E3, E4, E5, E6.
  intros [= <-]. repeat split; assumption.
Qed.

Lemma get_quarter_dates_spec (q y : Z) :
  MINYEAR <= y <= MAXYEAR -> 1 <= q <= 4 ->
  get_quarter_dates q y =
  Some (mkDate y ((q - 1) * 3 + 1) 1, mkDate y (q * 3) (_days_in_month y (q * 3))).
Proof.
  intros Hy Hq.
  destruct (Z.eq_dec q 4) as [-> |Hne]; [|apply quarter_from_month; [exact Hy|lia]].
  unfold get_quarter_dates. cbv zeta.
  change ((4 - 1) * 3 + 1) with 10. change (10 + 2 =? 12) with true.
  assert (H10 : _days_in_month y 10 = 31) by reflexivity.
  assert (H12 : _days_in_month y 12 = 31) by reflexivity.
  rewrite (datetime_valid y 10 1), (datetime_valid y 12 31)
    by (try exact Hy; lia).
  change (4 * 3) with 12. rewrite H12. reflexivity.
Qed.

(** X14.  The current monthly period and the current quarterly period of
    any date of the calendar are valid periods, and their date ranges
    contain the date. *)
Theorem current_period_contains_today (y m d : Z) (now : date)
  (Hnow : datetime y m d = Some now) :
  (let p := get_current_period monthly now in
   valid_period p = true
   /\ exists first last,
        get_month_dates (index p) (year p) = Some (first, last)
        /\ date_le first now /\ date_le now last)
  /\
  (let p := get_current_period quarterly now in
   valid_period p = true
   /\ exists first last,
        get_quarter_dates (index p) (year p) = Some (first, last)
        /\ date_le first now /\ date_le now last).
Proof.
  destruct (datetime_inv y m d now Hnow) as (-> & Hy & Hm & Hd).
  unfold get_current_period. cbn [dt_year dt_month dt_day]. cbv zeta.
  split; cbn [type year index].
  - split.
    + apply valid_period_iff. cbn [type year index]. repeat split; lia.
    + rewrite get_month_dates_spec by assumption.
      eexists. eexists. split; [reflexivity|].
      unfold date_le. cbn [dt_year dt_month dt_day]. split; right; lia.
  - assert (Hq : 1 <= (m - 1) / 3 + 1 <= 4) by (Z.div_mod_to_equations; lia).
    split.
    + apply valid_period_iff. cbn [type year index]. repeat split; lia.
    + rewrite get_quarter_dates_spec by assumption.
      eexists. eexists. split; [reflexivity|].
      unfold date_le. cbn [dt_year dt_month dt_day].
      assert (Hlo : ((m - 1) / 3 + 1 - 1) * 3 + 1 <= m)
        by (Z.div_mod_to_equations; lia).
      assert (Hhi : m <= ((m - 1) / 3 + 1) * 3)
        by (Z.div_mod_to_equations; lia).
      split; right; split; try reflexivity.
      * destruct (Z.eq_dec (((m - 1) / 3 + 1 - 1) * 3 + 1) m) as [E|E];
          [right; split; [exact E|lia]|left; lia].
      * destruct (Z.eq_dec m (((m - 1) / 3 + 1) * 3)) as [E|E];
          [right; split; [exact E|rewrite <- E; lia]|left; lia].
Qed.

Lemma current_period_contains_today_witness :
  valid_period (get_current_period quarterly (mkDate 2024 2 29)) = true.
Proof.
  refine (proj1 (proj2 (current_period_contains_today 2024 2 29
                          (mkDate 2024 2 29) _))).
  reflexivity.
Defined.


(** ** The order of the keys *)

Lemma four_digit_years_In (y : Z) : 1000 <= y <= 9999 -> In y four_digit_years.
Proof.
  intro H. unfold four_digit_years. rewrite <- (Z2Nat.id y) by lia.
  apply in_map, in_seq. lia.
Qed.

Lemma four_digit_years_str :
  forallb (fun y => String.eqb (str y) (digits_string (four_digits y)))
          four_digit_years = true.
Proof. vm_compute. reflexivity. Qed.

Lemma str_four_digits (y : Z) :
  1000 <= y <= 9999 -> str y = digits_string (four_digits y).
Proof.
  intro H. apply String.eqb_eq.
  exact (proj1 (forallb_forall _ _) four_digit_years_str y (four_digit_years_In y H)).
Qed.

Lemma small_cases (f : Z -> bool) (n : nat) (i : Z) :
  forallb f (map Z.of_nat (seq 0 n)) = true -> 0 <= i < Z.of_nat n -> f i = true.
Proof.
  intros H Hi. rewrite forallb_forall in H. apply H.
  rewrite <- (Z2Nat.id i) by lia. apply in_map, in_seq. lia.
Qed.

Lemma format_02d_two_digits (i : Z) :
  0 <= i <= 99 -> format_02d i = digits_string (two_digits i).
Proof.
  intro H. apply String.eqb_eq.
  apply (small_cases
           (fun i => String.eqb (format_02d i) (digits_string (two_digits i)))
           100); [vm_compute; reflexivity|lia].
Qed.

Lemma str_one_digit (i : Z) : 0 <= i <= 9 -> str i = digits_string [i].
Proof.
  intro H. apply String.eqb_eq.
  apply (small_cases (fun i => String.eqb (str i) (digits_string [i])) 10);
    [vm_compute; reflexivity|lia].
Qed.

Lemma digit_code (a : Z) :
  0 <= a <= 9 -> Z.of_N (N_of_ascii (digit a)) = 48 + a.
Proof.
  intro H. unfold digit, ascii_of_nat.
  rewrite N_ascii_embedding by lia. lia.
Qed.

Lemma digit_compare (a b : Z) :
  0 <= a <= 9 -> 0 <= b <= 9 -> Ascii.compare (digit a) (digit b) = (a ?= b).
Proof.
  intros Ha Hb. unfold Ascii.compare.
  rewrite <- N2Z.inj_compare, !digit_code by assumption.
  apply Z.add_compare_mono_l.
Qed.

Lemma compare_cons (c c' : ascii) (s s' : string) :
  String.compare (String c s) (String c' s') =
  match Ascii.compare c c' with
  | Eq => String.compare s s'
  | r => r
  end.
Proof. reflexivity. Qed.

(** Strings of digits of one length compare like the numbers. *)
Lemma compare_four_digits (y y' : Z) (r r' : string) :
  1000 <= y <= 9999 -> 1000 <= y' <= 9999 ->
  String.compare (digits_string (four_digits y) ++ r)
                 (digits_string (four_digits y') ++ r') =
  match y ?= y' with
  | Eq => String.compare r r'
  | c => c
  end.
Proof.
  intros Hy Hy'. unfold four_digits. cbn [digits_string append].
  rewrite !compare_cons.
  rewrite !digit_compare by (Z.div_mod_to_equations; lia).
  destruct (Z.compare_spec (y / 1000) (y' / 1000)) as [E3|E3|E3];
    [destruct (Z.compare_spec (y / 100 mod 10) (y' / 100 mod 10)) as [E2|E2|E2];
     [destruct (Z.compare_spec (y / 10 mod 10) (y' / 10 mod 10)) as [E1|E1|E1];
      [destruct (Z.compare_spec (y mod 10) (y' mod 10)) as [E0|E0|E0]| |]| |]| |];
    destruct (Z.compare_spec y y') as [E|E|E]; try reflexivity;
    exfalso; Z.div_mod_to_equations; lia.
Qed.

Lemma compare_two_digits (i i' : Z) :
  0 <= i <= 99 -> 0 <= i' <= 99 ->
  String.compare (digits_string (two_digits i)) (digits_string (two_digits i'))
  = (i ?= i').
Proof.
  intros Hi Hi'. unfold two_digits. cbn [digits_string].
  rewrite !compare_cons.
  rewrite !digit_compare by (Z.div_mod_to_equations; lia).
  cbn [String.compare].
  destruct (Z.compare_spec (i / 10) (i' / 10)) as [E1|E1|E1];
    [destruct (Z.compare_spec (i mod 10) (i' mod 10)) as [E0|E0|E0]| |];
    destruct (Z.compare_spec i i') as [E|E|E]; try reflexivity;
    exfalso; Z.div_mod_to_equations; lia.
Qed.

Lemma compare_one_digit (i i' : Z) :
  0 <= i <= 9 -> 0 <= i' <= 9 ->
  String.compare (digits_string [i]) (digits_string [i']) = (i ?= i').
Proof.
  intros Hi Hi'. cbn [digits_string]. rewrite compare_cons, digit_compare by lia.
  cbn [String.compare]. now destruct (i ?= i').
Qed.

Lemma valid_period_index (p : Period) :
  valid_period p = true ->
  1 <= index p <= 99 /\ (type p = quarterly -> index p <= 9)
  /\ MINYEAR <= year p <= MAXYEAR.
Proof.
  intro H. apply valid_period_iff in H. destruct H as (Hy & Hi & Ht).
  destruct (type p).
  - destruct Ht as (w & Hw & Hiw).
    destruct (get_max_weeks_in_year_52_53 _ _ Hw); repeat split; try lia;
      discriminate.
  - destruct Ht as (w & Hw & Hiw).
    destruct (get_max_weeks_in_year_52_53 _ _ Hw); subst;
      repeat split; try discriminate; try lia;
      apply (Z.le_trans _ _ _ Hiw); apply Z.leb_le; reflexivity.
  - repeat split; lia.
  - repeat split; try lia. discriminate.
Qed.

(** The keys of two valid periods of one type, in years of four digits,
    compare as strings the way the periods compare in the calendar. *)
Lemma period_key_compare (p q : Period) :
  type p = type q -> valid_period p = true -> valid_period q = true ->
  1000 <= year p -> 1000 <= year q ->
  String.compare (get_period_key p) (get_period_key q) = period_compare p q.
Proof.
  intros Ht Hp Hq Hyp Hyq.
  destruct (valid_period_index p Hp) as (Hip & Hqp & Hrp).
  destruct (valid_period_index q Hq) as (Hiq & Hqq & Hrq).
  unfold MAXYEAR in *.
  destruct p as [t y i], q as [t' y' i']. cbn [type year index] in *. subst t'.
  unfold get_period_key, period_compare. cbn [type year index].
  rewrite !(str_four_digits y), !(str_four_digits y') by lia.
  destruct t; rewrite compare_four_digits by lia;
    destruct (y ?= y'); try reflexivity.
  - rewrite !format_02d_two_digits by lia. cbn [append]. rewrite !compare_cons.
    change (Ascii.compare "-" "-") with Eq. change (Ascii.compare "W" "W") with Eq.
    cbv iota. apply compare_two_digits; lia.
  - rewrite !format_02d_two_digits by lia. cbn [append]. rewrite !compare_cons.
    change (Ascii.compare "-" "-") with Eq. change (Ascii.compare "B" "B") with Eq.
    change (Ascii.compare "W" "W") with Eq.
    cbv iota. apply compare_two_digits; lia.
  - rewrite !str_one_digit by (split; [lia|auto]). cbn [append]. rewrite !compare_cons.
    change (Ascii.compare "-" "-") with Eq. change (Ascii.compare "Q" "Q") with Eq.
    cbv iota. apply compare_one_digit; split; try lia; auto.
  - rewrite !format_02d_two_digits by lia. cbn [append]. rewrite !compare_cons.
    change (Ascii.compare "-" "-") with Eq.
    cbv iota. apply compare_two_digits; lia.
Qed.

(** X15.  For valid periods of one type in years written with four digits
    (1000 to 9999), the order of the keys as strings is the order of the
    periods in the calendar: the key of [p] is smaller than the key of [q]
    exactly when [p] is earlier than [q], and the keys are equal exactly
    when the periods are. *)
Theorem period_key_order (p q : Period)
  (Htype : type p = type q)
  (Hp : valid_period p = true) (Hq : valid_period q = true)
  (Hyp : 1000 <= year p) (Hyq : 1000 <= year q) :
  ((get_period_key p <? get_period_key q)%string = true <-> period_lt p q)
  /\ ((get_period_key p <=? get_period_key q)%string = true
      <-> period_lt p q \/ p = q)
  /\ (get_period_key p = get_period_key q <-> p = q).
Proof.
  pose proof (period_key_compare p q Htype Hp Hq Hyp Hyq) as Hc.
  assert (Heq : period_compare p q = Eq <-> p = q).
  { unfold period_compare. split.
    - destruct p as [t y i], q as [t' y' i']. cbn [type year index] in *.
      subst t'.
      destruct (Z.compare_spec y y') as [E|E|E]; try discriminate.
      destruct (Z.compare_spec i i') as [E'|E'|E']; try discriminate.
      now subst.
    - intros <-. now rewrite !Z.compare_refl. }
  assert (Hlt : period_compare p q = Lt <-> period_lt p q).
  { unfold period_compare, period_lt.
    destruct (Z.compare_spec (year p) (year q)) as [E|E|E];
      [destruct (Z.compare_spec (index p) (index q)) as [E'|E'|E']| |];
      split; intro H; try discriminate; try reflexivity; try lia. }
  unfold String.ltb, String.leb. rewrite Hc.
  split; [|split].
  - rewrite <- Hlt. destruct (period_compare p q); split; congruence.
  - rewrite <- Hlt, <- Heq.
    destruct (period_compare p q); split; intro H; auto; try discriminate;
      destruct H; discriminate.
  - rewrite <- Heq, <- Hc. split.
    + intros ->. apply KeyOrder.compare_refl.
    + apply String.compare_eq_iff.
Qed.

Lemma period_key_order_witness :
  (get_period_key (mkPeriod weekly 2023 52) <? get_period_key (mkPeriod weekly 2024 1))%string
  = true.
Proof.
  apply (proj1 (period_key_order (mkPeriod weekly 2023 52) (mkPeriod weekly 2024 1)
                  eq_refl eq_refl eq_refl ltac:(simpl; lia) ltac:(simpl; lia))).
  left. simpl. lia.
Defined.

(* ================================================================== *)
(** * Ordinals and dates *)
(* ================================================================== *)

Lemma _days_before_year_split (a b c e : Z) :
  0 <= a -> 0 <= b <= 3 -> 0 <= c <= 24 -> 0 <= e <= 3 ->
  _days_before_year (a * 400 + 1 + b * 100 + c * 4 + e)
  = a * 146097 + b * 36524 + c * 1461 + e * 365.
Proof.
  intros Ha Hb Hc He. unfold _days_before_year. cbv zeta.
  replace (a * 400 + 1 + b * 100 + c * 4 + e - 1)
    with (a * 400 + b * 100 + c * 4 + e) by lia.
  assert (H4 : (a * 400 + b * 100 + c * 4 + e) / 4 = a * 100 + b * 25 + c).
  { symmetry. apply Z.div_unique with (r := e); lia. }
  assert (H100 : (a * 400 + b * 100 + c * 4 + e) / 100 = a * 4 + b).
  { symmetry. apply Z.div_unique with (r := c * 4 + e); lia. }
  assert (H400 : (a * 400 + b * 100 + c * 4 + e) / 400 = a).
  { symmetry. apply Z.div_unique with (r := b * 100 + c * 4 + e); lia. }
  rewrite H4, H100, H400. lia.
Qed.

Lemma _is_leap_split (a b c e : Z) :
  0 <= a -> 0 <= b <= 3 -> 0 <= c <= 24 -> 0 <= e <= 3 ->
  _is_leap (a * 400 + 1 + b * 100 + c * 4 + e)
  = (e =? 3) && (negb (c =? 24) || (b =? 3)).
Proof.
  intros Ha Hb Hc He. unfold _is_leap.
  assert (H4 : (a * 400 + 1 + b * 100 + c * 4 + e) mod 4 = (e + 1) mod 4).
  { replace (a * 400 + 1 + b * 100 + c * 4 + e)
      with (e + 1 + (a * 100 + b * 25 + c) * 4) by lia.
    apply Z.mod_add. lia. }
  assert (H100 : (a * 400 + 1 + b * 100 + c * 4 + e) mod 100
                 = (c * 4 + e + 1) mod 100).
  { replace (a * 400 + 1 + b * 100 + c * 4 + e)
      with (c * 4 + e + 1 + (a * 4 + b) * 100) by lia.
    apply Z.mod_add. lia. }
  assert (H400 : (a * 400 + 1 + b * 100 + c * 4 + e) mod 400
                 = (b * 100 + c * 4 + e + 1) mod 400).
  { replace (a * 400 + 1 + b * 100 + c * 4 + e)
      with (b * 100 + c * 4 + e + 1 + a * 400) by lia.
    apply Z.mod_add. lia. }
  rewrite H4, H100, H400.
  destruct (e =? 3) eqn:E3.
  - apply Z.eqb_eq in E3. subst e.
    replace ((3 + 1) mod 4) with 0 by reflexivity. cbn [Z.eqb andb].
    destruct (c =? 24) eqn:E24.
    + apply Z.eqb_eq in E24. subst c.
      replace ((24 * 4 + 3 + 1) mod 100) with 0 by reflexivity.
      cbn [Z.eqb negb orb].
      destruct (b =? 3) eqn:Eb.
      * apply Z.eqb_eq in Eb. subst b. reflexivity.
      * apply Z.eqb_neq in Eb. apply Z.eqb_neq.
        rewrite Z.mod_small by lia. lia.
    + apply Z.eqb_neq in E24. cbn [negb orb].
      replace ((c * 4 + 3 + 1) mod 100 =? 0) with false; [reflexivity|].
      symmetry. apply Z.eqb_neq. rewrite Z.mod_small by lia. lia.
  - apply Z.eqb_neq in E3. cbn [andb].
    replace ((e + 1) mod 4 =? 0) with false; [reflexivity|].
    symmetry. apply Z.eqb_neq. rewrite Z.mod_small by lia. lia.
Qed.

Lemma _ord2ymd_tail (n : Z) :
  let n0 := n - 1 in
  let a := n0 / 146097 in
  let b := n0 mod 146097 / 36524 in
  let c := (n0 mod 146097) mod 36524 / 1461 in
  let e := ((n0 mod 146097) mod 36524) mod 1461 / 365 in
  let r := ((n0 mod 146097) mod 36524) mod 1461 mod 365 in
  let year := a * 400 + 1 + b * 100 + c * 4 + e in
  _ord2ymd n =
  if (e =? 4) || (b =? 4) then mkDate (year - 1) 12 31
  else
    let md := month_and_day r ((e =? 3) && (negb (c =? 24) || (b =? 3))) in
    mkDate year (fst md) (snd md).
Proof.
  cbv zeta. unfold _ord2ymd, month_and_day, _DI400Y, _DI100Y, _DI4Y. cbv zeta.
  destruct (_ || _); [reflexivity|].
  destruct (_ >? _); reflexivity.
Qed.

Lemma month_and_day_table (leapyear : bool) (n : Z) :
  0 <= n < 365 -> month_and_day_ok leapyear n = true.
Proof.
  intro Hn. apply (small_cases (month_and_day_ok leapyear) 365); [|lia].
  destruct leapyear; vm_compute; reflexivity.
Qed.

Lemma _days_before_year_succ (y : Z) :
  _days_before_year (y + 1) = _days_before_year y + _days_in_year y.
Proof.
  unfold _days_before_year, _days_in_year, _is_leap. cbv zeta.
  replace (y + 1 - 1) with (y - 1 + 1) by lia.
  destruct (y mod 4 =? 0) eqn:E4; destruct (y mod 100 =? 0) eqn:E100;
    destruct (y mod 400 =? 0) eqn:E400; cbn [andb orb negb];
    rewrite ?Z.eqb_eq, ?Z.eqb_neq in *;
    Z.div_mod_to_equations; lia.
Qed.

(** [date.fromordinal] inverts [toordinal]: the date of the ordinal [n]
    is a date of the calendar and its ordinal is [n]. *)
Lemma _ord2ymd_spec (n : Z) :
  1 <= n ->
  let d := _ord2ymd n in
  1 <= dt_year d
  /\ 1 <= dt_month d <= 12
  /\ 1 <= dt_day d <= _days_in_month (dt_year d) (dt_month d)
  /\ toordinal d = n.
Proof.
  intro Hn. cbv zeta. rewrite _ord2ymd_tail. cbv zeta.
  set (n0 := n - 1).
  assert (Hn0 : 0 <= n0) by (unfold n0; lia).
  pose proof (Z.div_mod n0 146097 ltac:(lia)) as D1.
  pose proof (Z.mod_pos_bound n0 146097 ltac:(lia)) as B1.
  set (a := n0 / 146097) in *. set (r1 := n0 mod 146097) in *.
  assert (Ha : 0 <= a) by lia.
  pose proof (Z.div_mod r1 36524 ltac:(lia)) as D2.
  pose proof (Z.mod_pos_bound r1 36524 ltac:(lia)) as B2.
  set (b := r1 / 36524) in *. set (r2 := r1 mod 36524) in *.
  assert (Hb : 0 <= b <= 4).
  { lia. }
  pose proof (Z.div_mod r2 1461 ltac:(lia)) as D3.
  pose proof (Z.mod_pos_bound r2 1461 ltac:(lia)) as B3.
  set (c := r2 / 1461) in *. set (r3 := r2 mod 1461) in *.
  assert (Hc : 0 <= c <= 24).
  { lia. }
  pose proof (Z.div_mod r3 365 ltac:(lia)) as D4.
  pose proof (Z.mod_pos_bound r3 365 ltac:(lia)) as B4.
  set (e := r3 / 365) in *. set (r := r3 mod 365) in *.
  assert (He : 0 <= e <= 4).
  { lia. }
  destruct ((e =? 4) || (b =? 4)) eqn:Elast.
  - cbn [dt_year dt_month dt_day]. unfold toordinal, _ymd2ord.
    cbn [dt_year dt_month dt_day].
    apply orb_true_iff in Elast. rewrite !Z.eqb_eq in Elast.
    assert (Hyear : exists b' c',
               0 <= b' <= 3 /\ 0 <= c' <= 24 /\ (c' <> 24 \/ b' = 3) /\
               a * 400 + 1 + b * 100 + c * 4 + e - 1
               = a * 400 + 1 + b' * 100 + c' * 4 + 3
               /\ n = a * 146097 + b' * 36524 + c' * 1461 + 1461).
    { destruct Elast as [E | E].
      - exists b, c. unfold n0 in *. lia.
      - exists 3, 24. unfold n0 in *. lia. }
    destruct Hyear as (b' & c' & Hb' & Hc' & Hleap & Hy' & Hn').
    rewrite Hy'. unfold _days_in_month, _days_before_month.
    rewrite _is_leap_split, _days_before_year_split by lia.
    replace (negb (c' =? 24) || (b' =? 3)) with true.
    + cbn. lia.
    + symmetry. apply orb_true_iff. rewrite negb_true_iff, Z.eqb_neq, Z.eqb_eq.
      exact Hleap.
  - apply orb_false_iff in Elast. rewrite !Z.eqb_neq in Elast.
    pose proof (month_and_day_table
                  ((e =? 3) && (negb (c =? 24) || (b =? 3))) r B4) as T.
    unfold month_and_day_ok in T.
    destruct (month_and_day r _) as [m dd].
    cbn [fst snd dt_year dt_month dt_day].
    rewrite !andb_true_iff, !Z.leb_le, Z.eqb_eq in T.
    destruct T as ((((T1 & T2) & T3) & T4) & T5).
    unfold toordinal, _ymd2ord, _days_in_month, _days_before_month.
    cbn [dt_year dt_month dt_day].
    rewrite _is_leap_split, _days_before_year_split by lia.
    repeat split; try lia.
    destruct ((m =? 2) && _) eqn:E; [|lia].
    apply andb_true_iff in E. destruct E as [E _].
    apply Z.eqb_eq in E. subst m. cbn in T4. lia.
Qed.
Lemma _days_before_year_mono (y y' : Z) :
  y <= y' -> _days_before_year y <= _days_before_year y'.
Proof.
  intro H. unfold _days_before_year. cbv zeta.
  Z.div_mod_to_equations. lia.
Qed.

Lemma _days_in_year_bounds (y : Z) : 365 <= _days_in_year y <= 366.
Proof. unfold _days_in_year. destruct (_is_leap y); lia. Qed.

Lemma _days_before_month_in_year (y m d : Z) :
  1 <= m <= 12 -> 1 <= d <= _days_in_month y m ->
  1 <= _days_before_month y m + d <= _days_in_year y.
Proof.
  intros Hm Hd. unfold _days_before_month, _days_in_month, _days_in_year in *.
  assert (C : m = 1 \/ m = 2 \/ m = 3 \/ m = 4 \/ m = 5 \/ m = 6 \/ m = 7
              \/ m = 8 \/ m = 9 \/ m = 10 \/ m = 11 \/ m = 12) by lia.
  revert Hd. destruct (_is_leap y); intro Hd;
    repeat (destruct C as [-> | C]; [now_month|]); subst m; now_month.
Qed.

(** The ordinal of a date of the year [y] lies in the year [y]. *)
Lemma toordinal_in_year (d : date) :
  1 <= dt_month d <= 12 ->
  1 <= dt_day d <= _days_in_month (dt_year d) (dt_month d) ->
  _days_before_year (dt_year d) < toordinal d
  <= _days_before_year (dt_year d + 1).
Proof.
  intros Hm Hd. rewrite _days_before_year_succ. unfold toordinal, _ymd2ord.
  pose proof (_days_before_month_in_year _ _ _ Hm Hd). lia.
Qed.

Lemma _ord2ymd_in_year (n : Z) :
  1 <= n ->
  _days_before_year (dt_year (_ord2ymd n)) < n
  <= _days_before_year (dt_year (_ord2ymd n) + 1).
Proof.
  intro Hn. destruct (_ord2ymd_spec n Hn) as (_ & Hm & Hd & Ho).
  pose proof (toordinal_in_year _ Hm Hd) as H. rewrite Ho in H. exact H.
Qed.

(** The Monday of ISO week 1: at most three days from 1 January. *)
Lemma _isoweek1monday_spec (y : Z) :
  _days_before_year y - 2 <= _isoweek1monday y <= _days_before_year y + 4
  /\ (_isoweek1monday y + 6) mod 7 = 0.
Proof.
  unfold _isoweek1monday, _ymd2ord, _days_before_month. cbv zeta.
  cbn [_DAYS_BEFORE_MONTH Z.gtb Z.compare Pos.compare Pos.compare_cont andb].
  generalize (_days_before_year y). intro b.
  destruct (_ >? 3) eqn:E.
  - apply Z.gtb_lt in E. Z.div_mod_to_equations. lia.
  - rewrite Z.gtb_ltb in E. apply Z.ltb_ge in E.
    Z.div_mod_to_equations. lia.
Qed.

Lemma _isoweek1monday_next (y : Z) :
  _isoweek1monday (y + 1) = _isoweek1monday y + 364
  \/ _isoweek1monday (y + 1) = _isoweek1monday y + 371.
Proof.
  pose proof (_isoweek1monday_spec y) as [B M].
  pose proof (_isoweek1monday_spec (y + 1)) as [B' M'].
  rewrite _days_before_year_succ in B'.
  pose proof (_days_in_year_bounds y).
  Z.div_mod_to_equations. lia.
Qed.

Lemma _isoweek1monday_mono (y y' : Z) :
  y < y' -> _isoweek1monday (y + 1) <= _isoweek1monday y'.
Proof.
  intro H. destruct (Z.eq_dec (y + 1) y') as [<- | Hne]; [lia|].
  pose proof (_isoweek1monday_spec (y + 1)) as [B _].
  pose proof (_isoweek1monday_spec y') as [B' _].
  pose proof (_days_before_year_mono (y + 1 + 1) y' ltac:(lia)) as Hm.
  rewrite _days_before_year_succ in Hm.
  pose proof (_days_in_year_bounds (y + 1)). lia.
Qed.

(** What [isocalendar] returns: the ISO year [Y], the week [W] and the
    day [D] count the date from the Monday of week 1 of [Y], and the week
    lies before week 1 of the next ISO year. *)
Lemma isocalendar_spec (d : date) (Y W D : Z) :
  _days_before_year (dt_year d) < toordinal d
  <= _days_before_year (dt_year d + 1) ->
  isocalendar d = (Y, W, D) ->
  toordinal d = _isoweek1monday Y + 7 * (W - 1) + (D - 1)
  /\ 1 <= W /\ _isoweek1monday Y + 7 * W <= _isoweek1monday (Y + 1)
  /\ 1 <= D <= 7
  /\ dt_year d - 1 <= Y <= dt_year d + 1.
Proof.
  intro Ht. unfold isocalendar. cbv zeta.
  set (y := dt_year d) in *. set (t := toordinal d) in *.
  pose proof (_isoweek1monday_spec (y - 1)) as [Bp Mp].
  pose proof (_isoweek1monday_spec y) as [B0 M0].
  pose proof (_isoweek1monday_spec (y + 1)) as [B1 M1].
  pose proof (_isoweek1monday_next (y - 1)) as Np.
  replace (y - 1 + 1) with y in Np by lia.
  pose proof (_isoweek1monday_next y) as N0.
  pose proof (_isoweek1monday_next (y + 1)) as N1.
  pose proof (_days_before_year_succ (y - 1)) as Sp.
  replace (y - 1 + 1) with y in Sp by lia.
  pose proof (_days_in_year_bounds (y - 1)) as Ip.
  pose proof (_days_before_year_succ y) as S0.
  pose proof (_days_in_year_bounds y) as I0.
  destruct ((t - _isoweek1monday y) / 7 <? 0) eqn:E1.
  - apply Z.ltb_lt in E1. intro H. injection H as HY HW HD. subst Y W D.
    replace (y - 1 + 1) with y by lia.
    revert E1 Bp Mp B0 M0 Np.
    generalize (_isoweek1monday (y - 1)) (_isoweek1monday y). intros wp w0.
    intros. Z.div_mod_to_equations. lia.
  - apply Z.ltb_ge in E1.
    destruct (((t - _isoweek1monday y) / 7 >=? 52)
              && (t >=? _isoweek1monday (y + 1))) eqn:E2.
    + apply andb_true_iff in E2. destruct E2 as [E2 E3].
      apply Z.geb_le in E2, E3.
      intro H. injection H as HY HW HD. subst Y W D.
      revert E1 E2 E3 B0 M0 B1 M1 N0 N1.
      generalize (_isoweek1monday (y + 1 + 1)) (_isoweek1monday (y + 1))
                 (_isoweek1monday y).
      intros w2 w1 w0. intros. Z.div_mod_to_equations. lia.
    + intro H. injection H as HY HW HD. subst Y W D.
      assert (E : (t - _isoweek1monday y) / 7 < 52 \/ t < _isoweek1monday (y + 1)).
      { apply andb_false_iff in E2. destruct E2 as [E2 | E2].
        - left. rewrite Z.geb_leb in E2. apply Z.leb_gt in E2. exact E2.
        - right. rewrite Z.geb_leb in E2. apply Z.leb_gt in E2. exact E2. }
      revert E1 E B0 M0 B1 M1 N0.
      generalize (_isoweek1monday (y + 1)) (_isoweek1monday y).
      intros w1 w0. intros. Z.div_mod_to_equations. lia.
Qed.

(** A date has one ISO year, week and day. *)
Lemma iso_week_unique (Y W D Y' W' D' : Z) :
  1 <= W -> _isoweek1monday Y + 7 * W <= _isoweek1monday (Y + 1) -> 1 <= D <= 7 ->
  1 <= W' -> _isoweek1monday Y' + 7 * W' <= _isoweek1monday (Y' + 1) -> 1 <= D' <= 7 ->
  _isoweek1monday Y + 7 * (W - 1) + (D - 1)
  = _isoweek1monday Y' + 7 * (W' - 1) + (D' - 1) ->
  Y = Y' /\ W = W' /\ D = D'.
Proof.
  intros HW HY HD HW' HY' HD' H.
  assert (Y = Y').
  { destruct (Z.lt_trichotomy Y Y') as [L | [E | L]]; [|exact E|].
    - pose proof (_isoweek1monday_mono _ _ L). lia.
    - pose proof (_isoweek1monday_mono _ _ L). lia. }
  subst Y'. lia.
Qed.

(** The date at the day [D] of the week [W] of the ISO year [Y]. *)
Lemma isocalendar_week (d : date) (Y W D : Z) :
  _days_before_year (dt_year d) < toordinal d
  <= _days_before_year (dt_year d + 1) ->
  1 <= W -> _isoweek1monday Y + 7 * W <= _isoweek1monday (Y + 1) ->
  1 <= D <= 7 ->
  toordinal d = _isoweek1monday Y + 7 * (W - 1) + (D - 1) ->
  isocalendar d = (Y, W, D).
Proof.
  intros Ht HW HY HD Ho.
  destruct (isocalendar d) as [[Y' W'] D'] eqn:E.
  destruct (isocalendar_spec d Y' W' D' Ht E) as (Ho' & HW' & HY' & HD' & _).
  rewrite Ho in Ho'.
  destruct (iso_week_unique _ _ _ _ _ _ HW HY HD HW' HY' HD' Ho') as (-> & -> & ->).
  reflexivity.
Qed.

Lemma weeks_of_isoweek1monday (y : Z) :
  _isoweek1monday (y + 1) = _isoweek1monday y + 7 * weeks_of y.
Proof.
  assert (Ht : _days_before_year (dt_year (mkDate y 12 28))
               < toordinal (mkDate y 12 28)
               <= _days_before_year (dt_year (mkDate y 12 28) + 1)).
  { apply toordinal_in_year; cbn [dt_year dt_month dt_day]; [lia|].
    unfold _days_in_month. cbn. lia. }
  unfold weeks_of.
  destruct (isocalendar (mkDate y 12 28)) as [[Y W] D] eqn:E.
  destruct (isocalendar_spec _ _ _ _ Ht E) as (Ho & HW & HY & HD & Hyear).
  cbn [fst snd dt_year] in *.
  assert (T : toordinal (mkDate y 12 28) = _days_before_year (y + 1) - 3).
  { rewrite _days_before_year_succ.
    unfold toordinal, _ymd2ord, _days_before_month, _days_in_year.
    cbn [dt_year dt_month dt_day]. destruct (_is_leap y); cbn; lia. }
  rewrite T in Ho.
  pose proof (_isoweek1monday_spec y) as [B0 _].
  pose proof (_isoweek1monday_spec (y + 1)) as [B1 _].
  pose proof (_days_before_year_succ y) as S0.
  pose proof (_days_in_year_bounds y) as I0.
  assert (Y = y).
  { destruct (Z.lt_trichotomy Y y) as [L | [Eq | L]]; [|exact Eq|].
    - pose proof (_isoweek1monday_mono _ _ L). lia.
    - pose proof (_isoweek1monday_mono _ _ L). lia. }
  subst Y.
  destruct (_isoweek1monday_next y) as [N | N]; lia.
Qed.
(* ================================================================== *)
(** * The dates of weeks and biweeks *)
(* ================================================================== *)

Lemma _days_before_year_range (y : Z) :
  MINYEAR <= y <= MAXYEAR -> 0 <= _days_before_year y <= 3651694.
Proof.
  unfold MINYEAR, MAXYEAR. intros [H1 H2].
  pose proof (_days_before_year_mono 1 y H1) as L.
  pose proof (_days_before_year_mono y 9999 H2) as U.
  change (_days_before_year 1) with 0 in L.
  change (_days_before_year 9999) with 3651694 in U. lia.
Qed.

Lemma _isoweek1monday_range (y : Z) :
  MINYEAR <= y <= MAXYEAR -> 1 <= _isoweek1monday y <= 3651698.
Proof.
  intro Hy. pose proof (_isoweek1monday_spec y) as [B _].
  pose proof (_days_before_year_range y Hy) as R.
  unfold MINYEAR, MAXYEAR in Hy.
  destruct (Z.eq_dec y 1) as [-> | Hne]; [vm_compute; split; discriminate|].
  pose proof (_days_before_year_mono 2 y ltac:(lia)) as L.
  change (_days_before_year 2) with 365 in L. lia.
Qed.

Lemma toordinal_ord2ymd (n : Z) : 1 <= n -> toordinal (_ord2ymd n) = n.
Proof. intro H. apply (_ord2ymd_spec n H). Qed.

(** The Monday of the week of 4 January, as [get_week_dates] finds it. *)
Lemma start_of_week_1 (year : Z) :
  toordinal (mkDate year 1 4) - weekday (mkDate year 1 4)
  = _isoweek1monday year.
Proof.
  unfold weekday, _isoweek1monday, toordinal, _ymd2ord, _days_before_month.
  cbv zeta.
  cbn [dt_year dt_month dt_day _DAYS_BEFORE_MONTH Z.gtb Z.compare Pos.compare
       Pos.compare_cont andb].
  generalize (_days_before_year year). intro b.
  destruct (_ >? 3) eqn:E.
  - apply Z.gtb_lt in E. Z.div_mod_to_equations. lia.
  - rewrite Z.gtb_ltb in E. apply Z.ltb_ge in E. Z.div_mod_to_equations. lia.
Qed.

(** [get_week_dates] in ordinals: the week starts [week - 1] weeks after
    the Monday of ISO week 1, and its seven days must lie in the
    calendar. *)
Lemma get_week_dates_eq (week year : Z) :
  MINYEAR <= year <= MAXYEAR ->
  get_week_dates week year =
  let o := _isoweek1monday year + 7 * (week - 1) in
  if (1 <=? o) && (o + 6 <=? _MAXORDINAL)
  then Some (_ord2ymd o, _ord2ymd (o + 6)) else None.
Proof.
  intro Hy. unfold get_week_dates.
  rewrite datetime_valid; [|exact Hy|lia|unfold _days_in_month; cbn; lia].
  cbn [bind]. unfold minus_days. cbv zeta. rewrite start_of_week_1.
  pose proof (_isoweek1monday_range year Hy) as R.
  replace ((1 <=? _isoweek1monday year) && (_isoweek1monday year <=? _MAXORDINAL))
    with true
    by (symmetry; apply andb_true_iff; rewrite !Z.leb_le; unfold _MAXORDINAL; lia).
  cbn [bind]. unfold plus_days. cbv zeta.
  rewrite toordinal_ord2ymd by lia.
  set (o := _isoweek1monday year + 7 * (week - 1)).
  unfold _MAXORDINAL in *.
  destruct (1 <=? o) eqn:E1; cbn [andb bind]; [|reflexivity].
  apply Z.leb_le in E1.
  destruct (o <=? 3652059) eqn:E2; cbn [andb bind].
  - rewrite toordinal_ord2ymd by lia.
    replace (1 <=? o + 6) with true by (symmetry; apply Z.leb_le; lia).
    cbn [andb]. destruct (o + 6 <=? 3652059); reflexivity.
  - apply Z.leb_gt in E2.
    replace (o + 6 <=? 3652059) with false by (symmetry; apply Z.leb_gt; lia).
    reflexivity.
Qed.

Lemma get_biweek_dates_eq (biweek year : Z) :
  MINYEAR <= year <= MAXYEAR ->
  get_biweek_dates biweek year =
  let o := _isoweek1monday year + 14 * (biweek - 1) in
  if (1 <=? o) && (o + 13 <=? _MAXORDINAL)
  then Some (_ord2ymd o, _ord2ymd (o + 13)) else None.
Proof.
  intro Hy. unfold get_biweek_dates. cbv zeta.
  rewrite !get_week_dates_eq by exact Hy. cbv zeta.
  replace (_isoweek1monday year + 7 * ((biweek - 1) * 2 + 1 - 1))
    with (_isoweek1monday year + 14 * (biweek - 1)) by lia.
  replace (_isoweek1monday year + 7 * ((biweek - 1) * 2 + 1 + 1 - 1) + 6)
    with (_isoweek1monday year + 14 * (biweek - 1) + 13) by lia.
  replace (_isoweek1monday year + 7 * ((biweek - 1) * 2 + 1 + 1 - 1))
    with (_isoweek1monday year + 14 * (biweek - 1) + 7) by lia.
  set (o := _isoweek1monday year + 14 * (biweek - 1)).
  unfold _MAXORDINAL.
  destruct (1 <=? o) eqn:E1; cbn [andb bind]; [|reflexivity].
  apply Z.leb_le in E1.
  replace (1 <=? o + 7) with true by (symmetry; apply Z.leb_le; lia).
  cbn [andb].
  destruct (o + 13 <=? 3652059) eqn:E2.
  - apply Z.leb_le in E2.
    replace (o + 6 <=? 3652059) with true by (symmetry; apply Z.leb_le; lia).
    reflexivity.
  - destruct (o + 6 <=? 3652059); reflexivity.
Qed.

Lemma valid_weekly (y week : Z) :
  valid_period (mkPeriod weekly y week) = true <->
  MINYEAR <= y <= MAXYEAR
  /\ 1 <= week
  /\ _isoweek1monday y + 7 * week <= _isoweek1monday (y + 1).
Proof.
  rewrite valid_period_iff. cbn [type year index].
  rewrite weeks_of_isoweek1monday. split.
  - intros (Hy & Hw & w & Hmax & Hle).
    apply get_max_weeks_in_year_weeks_of in Hmax. destruct Hmax as [_ ->].
    repeat split; lia.
  - intros (Hy & Hw & Hle). repeat split; try lia.
    destruct (get_max_weeks_defined y Hy) as [w Hmax].
    exists w. split; [exact Hmax|].
    apply get_max_weeks_in_year_weeks_of in Hmax. destruct Hmax as [_ ->]. lia.
Qed.

Lemma valid_biweekly (y biweek : Z) :
  valid_period (mkPeriod biweekly y biweek) = true <->
  MINYEAR <= y <= MAXYEAR
  /\ 1 <= biweek
  /\ _isoweek1monday y + 7 * (2 * biweek - 1) <= _isoweek1monday (y + 1).
Proof.
  rewrite valid_period_iff. cbn [type year index].
  rewrite weeks_of_isoweek1monday. split.
  - intros (Hy & Hw & w & Hmax & Hle).
    apply get_max_weeks_in_year_weeks_of in Hmax. destruct Hmax as [_ ->].
    repeat split; try lia. Z.div_mod_to_equations. lia.
  - intros (Hy & Hw & Hle). repeat split; try lia.
    destruct (get_max_weeks_defined y Hy) as [w Hmax].
    exists w. split; [exact Hmax|].
    apply get_max_weeks_in_year_weeks_of in Hmax. destruct Hmax as [_ ->].
    Z.div_mod_to_equations. lia.
Qed.

Lemma isocalendar_ord2ymd (n Y W D : Z) :
  1 <= n ->
  1 <= W -> _isoweek1monday Y + 7 * W <= _isoweek1monday (Y + 1) ->
  1 <= D <= 7 ->
  n = _isoweek1monday Y + 7 * (W - 1) + (D - 1) ->
  isocalendar (_ord2ymd n) = (Y, W, D).
Proof.
  intros Hn HW HY HD Ho. apply isocalendar_week; try assumption.
  - rewrite toordinal_ord2ymd by exact Hn. apply _ord2ymd_in_year. exact Hn.
  - rewrite toordinal_ord2ymd by exact Hn. exact Ho.
Qed.

(** X16. For a week [week] of the year [year] (1 to the number of weeks of
    the year), [get_week_dates] returns the Monday and the Sunday of that
    ISO week: the ISO calendar of the start is ([year], [week], Monday),
    that of the end is ([year], [week], Sunday), the end is six days after
    the start, and week 1 contains 4 January.  The last week of the year
    9999 is left out: it ends in the year 10000 and the call fails. *)
Theorem week_dates (week year : Z) :
  (valid_period (mkPeriod weekly year week) = true ->
   year < MAXYEAR \/ week < 52 ->
   exists start_date end_date,
     get_week_dates week year = Some (start_date, end_date)
     /\ isocalendar start_date = (year, week, 1)
     /\ isocalendar end_date = (year, week, 7)
     /\ toordinal end_date = toordinal start_date + 6
     /\ (week = 1 ->
         toordinal start_date <= toordinal (mkDate year 1 4)
         <= toordinal end_date))
  /\ valid_period (mkPeriod weekly MAXYEAR 52) = true
  /\ get_week_dates 52 MAXYEAR = None.
Proof.
  split; [|split; vm_compute; reflexivity].
  intros Hvalid Hlast. apply valid_weekly in Hvalid.
  destruct Hvalid as (Hy & Hw & Hle).
  pose proof (_isoweek1monday_range year Hy) as R.
  pose proof (_isoweek1monday_spec year) as [B _].
  pose proof (_isoweek1monday_spec (year + 1)) as [B1 _].
  pose proof (_days_before_year_range year Hy) as Ry.
  pose proof (_days_before_year_succ year) as Sy.
  pose proof (_days_in_year_bounds year) as Iy.
  set (o := _isoweek1monday year + 7 * (week - 1)).
  assert (Ho : 1 <= o /\ o + 6 <= _MAXORDINAL).
  { unfold o, _MAXORDINAL, MINYEAR, MAXYEAR in *. split; [lia|].
    destruct Hlast as [Hlast | Hlast].
    - pose proof (_days_before_year_range (year + 1)
                    ltac:(unfold MINYEAR, MAXYEAR; lia)). lia.
    - lia. }
  exists (_ord2ymd o), (_ord2ymd (o + 6)).
  rewrite get_week_dates_eq by exact Hy. cbv zeta. fold o.
  replace ((1 <=? o) && (o + 6 <=? _MAXORDINAL)) with true
    by (symmetry; apply andb_true_iff; rewrite !Z.leb_le; exact Ho).
  split; [reflexivity|].
  split; [apply isocalendar_ord2ymd; unfold o; lia|].
  split; [apply isocalendar_ord2ymd; unfold o; lia|].
  rewrite !toordinal_ord2ymd by lia.
  split; [lia|].
  intros ->. pose proof (start_of_week_1 year) as S1.
  assert (0 <= weekday (mkDate year 1 4) < 7)
    by (unfold weekday; apply Z.mod_pos_bound; lia).
  unfold o. lia.
Qed.

Lemma week_dates_witness :
  exists start_date end_date,
    get_week_dates 1 2025 = Some (start_date, end_date)
    /\ isocalendar start_date = (2025, 1, 1)
    /\ isocalendar end_date = (2025, 1, 7)
    /\ toordinal end_date = toordinal start_date + 6
    /\ (1 = 1 ->
        toordinal start_date <= toordinal (mkDate 2025 1 4)
        <= toordinal end_date).
Proof.
  apply (proj1 (week_dates 1 2025)).
  - vm_compute. reflexivity.
  - left. vm_compute. reflexivity.
Defined.

(** X17. For a biweek of the year [year] before 9999 (1 to the number of
    biweeks of the year), [get_biweek_dates] returns the Monday of the ISO
    week [2 * biweek - 1] and the Sunday thirteen days later.  That Sunday
    ends the week [2 * biweek] of the year, except for the biweek 27 of a
    year of 53 weeks, which runs on to the Sunday of week 1 of the next
    year. *)
Theorem biweek_dates (biweek year : Z)
  (Hvalid : valid_period (mkPeriod biweekly year biweek) = true)
  (Hyear : year < MAXYEAR) :
  exists max_weeks start_date end_date,
    get_max_weeks_in_year year = Some max_weeks
    /\ get_biweek_dates biweek year = Some (start_date, end_date)
    /\ isocalendar start_date = (year, 2 * biweek - 1, 1)
    /\ toordinal end_date = toordinal start_date + 13
    /\ isocalendar end_date
       = (if 2 * biweek <=? max_weeks then (year, 2 * biweek, 7)
          else (year + 1, 1, 7)).
Proof.
  apply valid_biweekly in Hvalid. destruct Hvalid as (Hy & Hb & Hle).
  destruct (get_max_weeks_defined year Hy) as [w Hmax].
  pose proof (get_max_weeks_in_year_weeks_of _ _ Hmax) as [_ Hw].
  pose proof (weeks_of_isoweek1monday year) as Hweeks. rewrite <- Hw in Hweeks.
  pose proof (_isoweek1monday_range year Hy) as R.
  pose proof (_isoweek1monday_spec (year + 1)) as [B1 _].
  pose proof (_isoweek1monday_next (year + 1)) as N1.
  pose proof (_days_before_year_range (year + 1)
                ltac:(unfold MINYEAR, MAXYEAR in *; lia)) as Ry.
  set (o := _isoweek1monday year + 14 * (biweek - 1)).
  assert (Ho : 1 <= o /\ o + 13 <= _MAXORDINAL).
  { unfold o, _MAXORDINAL in *. lia. }
  exists w, (_ord2ymd o), (_ord2ymd (o + 13)).
  split; [exact Hmax|].
  rewrite get_biweek_dates_eq by exact Hy. cbv zeta. fold o.
  replace ((1 <=? o) && (o + 13 <=? _MAXORDINAL)) with true
    by (symmetry; apply andb_true_iff; rewrite !Z.leb_le; exact Ho).
  split; [reflexivity|].
  split; [apply isocalendar_ord2ymd; unfold o; lia|].
  rewrite !toordinal_ord2ymd by lia.
  split; [lia|].
  destruct (2 * biweek <=? w) eqn:E.
  - apply Z.leb_le in E. apply isocalendar_ord2ymd; unfold o; lia.
  - apply Z.leb_gt in E. apply isocalendar_ord2ymd; unfold o; lia.
Qed.

Lemma biweek_dates_witness :
  exists max_weeks start_date end_date,
    get_max_weeks_in_year 2020 = Some max_weeks
    /\ get_biweek_dates 27 2020 = Some (start_date, end_date)
    /\ isocalendar start_date = (2020, 2 * 27 - 1, 1)
    /\ toordinal end_date = toordinal start_date + 13
    /\ isocalendar end_date
       = (if 2 * 27 <=? max_weeks then (2020, 2 * 27, 7)
          else (2020 + 1, 1, 7)).
Proof.
  apply (biweek_dates 27 2020); vm_compute; reflexivity.
Defined.
Lemma Some_pair_inv (a s b e : date) :
  Some (a, b) = Some (s, e) -> s = a /\ e = b.
Proof. intros [= -> ->]. split; reflexivity. Qed.

(** X18. The current weekly and biweekly periods take the calendar year of
    the date and its ISO week.  When the ISO year of the date is its
    calendar year (and the year is before 9999), both periods are valid
    and their date ranges contain the date.  On the days around New Year
    whose ISO year is another year, the date range of the current weekly
    period, and that of the current biweekly period, do not contain the
    date. *)
Theorem current_week_contains_today (y m d : Z) (now : date)
  (Hnow : datetime y m d = Some now) :
  let iso_year := fst (fst (isocalendar now)) in
  let p := get_current_period weekly now in
  let q := get_current_period biweekly now in
  (iso_year = y -> y < MAXYEAR ->
   valid_period p = true
   /\ (exists s e, get_week_dates (index p) (year p) = Some (s, e)
                   /\ toordinal s <= toordinal now <= toordinal e)
   /\ valid_period q = true
   /\ (exists s e, get_biweek_dates (index q) (year q) = Some (s, e)
                   /\ toordinal s <= toordinal now <= toordinal e))
  /\ (iso_year <> y ->
      (forall s e, get_week_dates (index p) (year p) = Some (s, e) ->
                   ~ toordinal s <= toordinal now <= toordinal e)
      /\ (forall s e, get_biweek_dates (index q) (year q) = Some (s, e) ->
                      ~ toordinal s <= toordinal now <= toordinal e)).
Proof.
  apply datetime_inv in Hnow. destruct Hnow as (-> & Hy & Hm & Hd).
  cbv zeta. unfold get_current_period, get_week_number. cbv zeta.
  cbn [index year dt_year dt_month].
  assert (Ht : _days_before_year (dt_year (mkDate y m d))
               < toordinal (mkDate y m d)
               <= _days_before_year (dt_year (mkDate y m d) + 1))
    by (apply toordinal_in_year; assumption).
  destruct (isocalendar (mkDate y m d)) as [[Y W] D] eqn:E.
  destruct (isocalendar_spec _ _ _ _ Ht E) as (Ho & HW & HY & HD & Hyear).
  cbn [fst snd dt_year] in *.
  set (t := toordinal (mkDate y m d)) in *.
  pose proof (_isoweek1monday_range y Hy) as R.
  pose proof (_isoweek1monday_spec y) as [B _].
  pose proof (_isoweek1monday_spec (y + 1)) as [B1 _].
  pose proof (_isoweek1monday_next y) as N.
  pose proof (_days_before_year_succ y) as Sy.
  pose proof (_days_in_year_bounds y) as Iy.
  rewrite get_week_dates_eq, get_biweek_dates_eq by exact Hy. cbv zeta.
  split.
  - intros -> Hlast.
    pose proof (_days_before_year_range (y + 1)
                  ltac:(unfold MINYEAR, MAXYEAR in *; lia)) as Ry.
    split; [apply valid_weekly; repeat split; lia|].
    split.
    { replace ((1 <=? _isoweek1monday y + 7 * (W - 1))
               && (_isoweek1monday y + 7 * (W - 1) + 6 <=? _MAXORDINAL))
        with true
        by (symmetry; apply andb_true_iff; rewrite !Z.leb_le;
            unfold _MAXORDINAL; lia).
      eexists _, _. split; [reflexivity|].
      rewrite !toordinal_ord2ymd by lia. lia. }
    assert (Hb : (W + 1) / 2 * 2 <= W + 1 < (W + 1) / 2 * 2 + 2)
      by (Z.div_mod_to_equations; lia).
    split; [apply valid_biweekly; repeat split; lia|].
    replace ((1 <=? _isoweek1monday y + 14 * ((W + 1) / 2 - 1))
             && (_isoweek1monday y + 14 * ((W + 1) / 2 - 1) + 13 <=? _MAXORDINAL))
      with true
      by (symmetry; apply andb_true_iff; rewrite !Z.leb_le;
          unfold _MAXORDINAL; lia).
    eexists _, _. split; [reflexivity|].
    rewrite !toordinal_ord2ymd by lia. lia.
  - intro Hne.
    assert (Hb : (W + 1) / 2 * 2 <= W + 1 < (W + 1) / 2 * 2 + 2)
      by (Z.div_mod_to_equations; lia).
    assert (Hout : (Y = y - 1 /\ t < _isoweek1monday y)
                   \/ (Y = y + 1 /\ W = 1 /\ _isoweek1monday y + 364 <= t)).
    { destruct (Z.eq_dec Y (y - 1)) as [-> | Hp].
      - left. split; [reflexivity|]. replace (y - 1 + 1) with y in HY by lia. lia.
      - right. assert (Y = y + 1) by lia. subst Y. lia. }
    split; intros s e.
    + destruct (_ && _) eqn:Er; [|discriminate].
      apply andb_true_iff in Er. rewrite !Z.leb_le in Er.
      intro H. apply Some_pair_inv in H. destruct H as [-> ->].
      rewrite !toordinal_ord2ymd by lia. lia.
    + destruct (_ && _) eqn:Er; [|discriminate].
      apply andb_true_iff in Er. rewrite !Z.leb_le in Er.
      intro H. apply Some_pair_inv in H. destruct H as [-> ->].
      rewrite !toordinal_ord2ymd by lia. lia.
Qed.

Lemma current_week_contains_today_witness :
  let now := mkDate 2024 12 30 in
  fst (fst (isocalendar now)) <> 2024
  /\ forall s e,
       get_week_dates (index (get_current_period weekly now))
                      (year (get_current_period weekly now)) = Some (s, e) ->
       ~ toordinal s <= toordinal now <= toordinal e.
Proof.
  cbv zeta.
  assert (H : fst (fst (isocalendar (mkDate 2024 12 30))) <> 2024)
    by (vm_compute; discriminate).
  split; [exact H|].
  exact (proj1 (proj2 (current_week_contains_today 2024 12 30 (mkDate 2024 12 30)
                         eq_refl) H)).
Defined.

(* ================================================================== *)
(** * Choosing a year in the selector *)
(* ================================================================== *)

Lemma valid_period_max_index (p : Period) :
  valid_period p = true <->
  MINYEAR <= year p <= MAXYEAR /\ 1 <= index p <= max_index (type p) (year p).
Proof.
  rewrite valid_period_iff. unfold max_index. split.
  - intros (Hy & Hi & H). split; [exact Hy|]. split; [exact Hi|].
    destruct (type p).
    + destruct H as (w & Hw & Hle).
      apply get_max_weeks_in_year_weeks_of in Hw. destruct Hw as [_ <-]. exact Hle.
    + destruct H as (w & Hw & Hle).
      apply get_max_weeks_in_year_weeks_of in Hw. destruct Hw as [_ <-]. exact Hle.
    + exact H.
    + exact H.
  - intros (Hy & Hi & H). split; [exact Hy|]. split; [exact Hi|].
    destruct (type p); try exact H.
    + destruct (get_max_weeks_defined (year p) Hy) as [w Hw]. exists w.
      split; [exact Hw|].
      apply get_max_weeks_in_year_weeks_of in Hw. destruct Hw as [_ ->]. exact H.
    + destruct (get_max_weeks_defined (year p) Hy) as [w Hw]. exists w.
      split; [exact Hw|].
      apply get_max_weeks_in_year_weeks_of in Hw. destruct Hw as [_ ->]. exact H.
Qed.

(** X24. Choosing a year of the calendar in the year menu keeps the period
    of the selector valid: the new period has the chosen year and the same
    type, and its index is the old index, cut down to the last week or
    biweek of the chosen year when that year is shorter.  For a year
    outside 1..9999 a weekly or biweekly selector fails. *)
Theorem year_change_keeps_valid (p : Period) (value : Z)
  (Hvalid : valid_period p = true) :
  (MINYEAR <= value <= MAXYEAR ->
   exists q,
     _on_year_change p value = Some q
     /\ valid_period q = true
     /\ type q = type p /\ year q = value
     /\ index q = Z.min (index p) (max_index (type p) value))
  /\ (value < MINYEAR \/ MAXYEAR < value ->
      type p = weekly \/ type p = biweekly ->
      _on_year_change p value = None).
Proof.
  apply valid_period_max_index in Hvalid. destruct Hvalid as (Hy & Hi).
  split.
  - intro Hv. destruct (get_max_weeks_defined value Hv) as [w Hw].
    pose proof (get_max_weeks_in_year_weeks_of _ _ Hw) as [_ Hweeks].
    pose proof (weeks_of_52_53 value ltac:(unfold MINYEAR in Hv; lia)) as H52.
    destruct p as [t y i]. cbn [type year index] in *.
    unfold _on_year_change. cbn [type year index]. cbv zeta.
    destruct t; cbn [max_index] in *.
    + rewrite Hw. cbn [bind]. rewrite <- Hweeks.
      destruct (Z.gtb_spec i w) as [E | E]; eexists; (split; [reflexivity|]);
        (split; [apply valid_period_max_index; cbn [type year index max_index]; lia|]);
        cbn [type year index]; repeat split; lia.
    + rewrite Hw. cbn [bind]. rewrite <- Hweeks.
      assert (Hb : 1 <= (w + 1) / 2) by (Z.div_mod_to_equations; lia).
      destruct (Z.gtb_spec i ((w + 1) / 2)) as [E | E]; eexists;
        (split; [reflexivity|]);
        (split; [apply valid_period_max_index; cbn [type year index max_index];
                 rewrite <- ?Hweeks; lia|]);
        cbn [type year index]; repeat split; lia.
    + eexists. split; [reflexivity|].
      split; [apply valid_period_max_index; cbn [type year index max_index]; lia|].
      cbn [type year index]. repeat split; lia.
    + eexists. split; [reflexivity|].
      split; [apply valid_period_max_index; cbn [type year index max_index]; lia|].
      cbn [type year index]. repeat split; lia.
  - intros Hout Ht.
    assert (Hmax : get_max_weeks_in_year value = None).
    { destruct (get_max_weeks_in_year value) as [w|] eqn:Hw; [|reflexivity].
      apply get_max_weeks_in_year_weeks_of in Hw. lia. }
    unfold _on_year_change. destruct Ht as [-> | ->]; now rewrite Hmax.
Qed.

Lemma year_change_keeps_valid_witness :
  exists q,
    _on_year_change (mkPeriod weekly 2020 53) 2021 = Some q
    /\ valid_period q = true
    /\ type q = weekly /\ year q = 2021
    /\ index q = Z.min 53 (max_index weekly 2021).
Proof.
  apply (proj1 (year_change_keeps_valid (mkPeriod weekly 2020 53) 2021 eq_refl)).
  vm_compute. split; discriminate.
Defined.

(* ================================================================== *)
(** * Consecutive periods *)
(* ================================================================== *)

Lemma _days_before_month_succ (y m : Z) :
  1 <= m <= 11 ->
  _days_before_month y (m + 1) = _days_before_month y m + _days_in_month y m.
Proof.
  intro Hm. unfold _days_before_month, _days_in_month.
  assert (C : m = 1 \/ m = 2 \/ m = 3 \/ m = 4 \/ m = 5 \/ m = 6 \/ m = 7
              \/ m = 8 \/ m = 9 \/ m = 10 \/ m = 11) by lia.
  destruct (_is_leap y);
    repeat (destruct C as [-> | C]; [reflexivity|]); subst m; reflexivity.
Qed.

(** The day after the last day of a month is the first day of the next
    month. *)
Lemma month_after (y m : Z) :
  1 <= m <= 12 ->
  toordinal (mkDate y m (_days_in_month y m)) + 1
  = if m =? 12 then toordinal (mkDate (y + 1) 1 1)
    else toordinal (mkDate y (m + 1) 1).
Proof.
  intro Hm. unfold toordinal, _ymd2ord. cbn [dt_year dt_month dt_day].
  destruct (m =? 12) eqn:E.
  - apply Z.eqb_eq in E. subst m. rewrite _days_before_year_succ.
    unfold _days_before_month, _days_in_month, _days_in_year.
    destruct (_is_leap y), (_is_leap (y + 1)); cbn; lia.
  - apply Z.eqb_neq in E. rewrite _days_before_month_succ by lia. lia.
Qed.

Lemma month_first_last (y m : Z) :
  1 <= m <= 12 ->
  toordinal (mkDate y m 1) <= toordinal (mkDate y m (_days_in_month y m)).
Proof.
  intro Hm. unfold toordinal, _ymd2ord. cbn [dt_year dt_month dt_day].
  pose proof (_days_in_month_bounds y m Hm). lia.
Qed.

Lemma month_order (y m m' : Z) :
  1 <= m -> m <= m' -> m' <= 12 ->
  _days_before_month y m <= _days_before_month y m'.
Proof.
  intros H1 H2 H3.
  replace m' with (m + Z.of_nat (Z.to_nat (m' - m))) in * by lia.
  induction (Z.to_nat (m' - m)) as [|n IH]; [rewrite Z.add_0_r; lia|].
  rewrite Nat2Z.inj_succ in *.
  replace (m + Z.succ (Z.of_nat n)) with (m + Z.of_nat n + 1) in * by lia.
  rewrite _days_before_month_succ by lia.
  pose proof (_days_in_month_bounds y (m + Z.of_nat n) ltac:(lia)).
  specialize (IH ltac:(lia) ltac:(lia)). lia.
Qed.

(** X25. Consecutive periods tile the calendar.  For a valid period of a
    year before 9999, the period and the next one have date ranges, and the
    next period starts on the day after the period ends.  The one exception
    is the biweek 27 of a year of 53 weeks: the first biweek of the next
    year starts six days before that biweek ends, so the two overlap by a
    week. *)
Theorem next_period_starts_after (p : Period)
  (Hvalid : valid_period p = true) (Hyear : year p < MAXYEAR) :
  exists q first last first' last',
    navigate_period p 1 = Some q
    /\ period_dates p = Some (first, last)
    /\ period_dates q = Some (first', last')
    /\ toordinal first <= toordinal last
    /\ toordinal first'
       = match type p with
         | biweekly =>
             if index p =? 27 then toordinal last - 6 else toordinal last + 1
         | _ => toordinal last + 1
         end.
Proof.
  pose proof Hvalid as Hv.
  apply valid_period_max_index in Hv. destruct Hv as (Hy & Hi).
  assert (Hy1 : MINYEAR <= year p + 1 <= MAXYEAR)
    by (unfold MINYEAR, MAXYEAR in *; lia).
  destruct p as [t y i]. cbn [type year index] in *.
  unfold navigate_period, period_dates. cbn [type year index]. cbv zeta.
  destruct t; cbn [max_index] in *.
  - (* weekly *)
    destruct (get_max_weeks_defined y Hy) as [w Hw]. rewrite Hw. cbn [bind].
    pose proof (get_max_weeks_in_year_weeks_of _ _ Hw) as [_ Hweeks].
    pose proof (weeks_of_isoweek1monday y) as Hnext. rewrite <- Hweeks in *.
    pose proof (_isoweek1monday_range y Hy) as R.
    pose proof (_isoweek1monday_range (y + 1) Hy1) as R1.
    pose proof (_isoweek1monday_next (y + 1)) as N1.
    replace (i + 1 <? 1) with false by (symmetry; apply Z.ltb_ge; lia).
    unfold _MAXORDINAL in *.
    assert (Hin : forall o, 1 <= o -> o + 6 <= 3652059 ->
                    (1 <=? o) && (o + 6 <=? 3652059) = true).
    { intros o H1 H2. apply andb_true_iff. rewrite !Z.leb_le. lia. }
    destruct (Z.gtb_spec (i + 1) w) as [E | E].
    + eexists _, _, _, _, _. split; [reflexivity|]. cbn [type year index].
      rewrite !get_week_dates_eq by assumption. cbv zeta. unfold _MAXORDINAL.
      rewrite !Hin by lia.
      split; [reflexivity|]. split; [reflexivity|].
      rewrite !toordinal_ord2ymd by lia. lia.
    + eexists _, _, _, _, _. split; [reflexivity|]. cbn [type year index].
      rewrite !get_week_dates_eq by assumption. cbv zeta. unfold _MAXORDINAL.
      rewrite !Hin by lia.
      split; [reflexivity|]. split; [reflexivity|].
      rewrite !toordinal_ord2ymd by lia. lia.
  - (* biweekly *)
    destruct (get_max_weeks_defined y Hy) as [w Hw]. rewrite Hw. cbn [bind].
    pose proof (get_max_weeks_in_year_weeks_of _ _ Hw) as [_ Hweeks].
    pose proof (weeks_of_isoweek1monday y) as Hnext. rewrite <- Hweeks in *.
    pose proof (weeks_of_52_53 y ltac:(unfold MINYEAR in *; lia)) as H52.
    rewrite <- Hweeks in H52.
    pose proof (_isoweek1monday_range y Hy) as R.
    pose proof (_isoweek1monday_range (y + 1) Hy1) as R1.
    pose proof (_isoweek1monday_next (y + 1)) as N1.
    replace (i + 1 <? 1) with false by (symmetry; apply Z.ltb_ge; lia).
    unfold _MAXORDINAL in *.
    assert (Hin : forall o, 1 <= o -> o + 13 <= 3652059 ->
                    (1 <=? o) && (o + 13 <=? 3652059) = true).
    { intros o H1 H2. apply andb_true_iff. rewrite !Z.leb_le. lia. }
    assert (Hb : (w + 1) / 2 = 26 /\ w = 52 \/ (w + 1) / 2 = 27 /\ w = 53)
      by (destruct H52 as [-> | ->]; [left | right]; split; reflexivity).
    destruct (Z.gtb_spec (i + 1) ((w + 1) / 2)) as [E | E].
    + eexists _, _, _, _, _. split; [reflexivity|]. cbn [type year index].
      rewrite !get_biweek_dates_eq by assumption. cbv zeta. unfold _MAXORDINAL.
      rewrite !Hin by lia.
      split; [reflexivity|]. split; [reflexivity|].
      rewrite !toordinal_ord2ymd by lia.
      split; [lia|]. destruct (Z.eqb_spec i 27); lia.
    + eexists _, _, _, _, _. split; [reflexivity|]. cbn [type year index].
      rewrite !get_biweek_dates_eq by assumption. cbv zeta. unfold _MAXORDINAL.
      rewrite !Hin by lia.
      split; [reflexivity|]. split; [reflexivity|].
      rewrite !toordinal_ord2ymd by lia.
      split; [lia|]. destruct (Z.eqb_spec i 27); lia.
  - (* quarterly *)
    replace (i + 1 <? 1) with false by (symmetry; apply Z.ltb_ge; lia).
    pose proof (month_after y (i * 3) ltac:(lia)) as Hafter.
    pose proof (month_first_last y (i * 3) ltac:(lia)) as Hfl.
    pose proof (month_order y ((i - 1) * 3 + 1) (i * 3) ltac:(lia) ltac:(lia)
                  ltac:(lia)) as Hord.
    assert (Hs : toordinal (mkDate y ((i - 1) * 3 + 1) 1)
                 <= toordinal (mkDate y (i * 3) 1)).
    { unfold toordinal, _ymd2ord. cbn [dt_year dt_month dt_day]. lia. }
    destruct (Z.gtb_spec (i + 1) 4) as [E | E].
    + eexists _, _, _, _, _. split; [reflexivity|]. cbn [type year index].
      rewrite !get_quarter_dates_spec by (assumption || lia).
      split; [reflexivity|]. split; [reflexivity|].
      assert (i = 4) by lia. subst i. cbn [Z.mul Pos.mul Z.eqb Pos.eqb] in Hafter.
      split; [lia|]. cbn [Z.sub Z.add Z.mul Z.opp Z.pos_sub Pos.mul Pos.add
                          Pos.succ].
      symmetry. exact Hafter.
    + eexists _, _, _, _, _. split; [reflexivity|]. cbn [type year index].
      rewrite !get_quarter_dates_spec by (assumption || lia).
      split; [reflexivity|]. split; [reflexivity|].
      split; [lia|].
      replace (i * 3 =? 12) with false in Hafter
        by (symmetry; apply Z.eqb_neq; lia).
      replace ((i + 1 - 1) * 3 + 1) with (i * 3 + 1) by lia.
      symmetry. exact Hafter.
  - (* monthly *)
    replace (i + 1 <? 1) with false by (symmetry; apply Z.ltb_ge; lia).
    pose proof (month_after y i ltac:(lia)) as Hafter.
    pose proof (month_first_last y i ltac:(lia)) as Hfl.
    destruct (Z.gtb_spec (i + 1) 12) as [E | E].
    + eexists _, _, _, _, _. split; [reflexivity|]. cbn [type year index].
      rewrite !get_month_dates_spec by (assumption || lia).
      split; [reflexivity|]. split; [reflexivity|].
      assert (i = 12) by lia. subst i. cbn [Z.eqb Pos.eqb] in Hafter.
      split; [lia|]. symmetry. exact Hafter.
    + eexists _, _, _, _, _. split; [reflexivity|]. cbn [type year index].
      rewrite !get_month_dates_spec by (assumption || lia).
      split; [reflexivity|]. split; [reflexivity|].
      split; [lia|].
      replace (i =? 12) with false in Hafter
        by (symmetry; apply Z.eqb_neq; lia).
      symmetry. exact Hafter.
Qed.

Lemma next_period_starts_after_witness :
  exists q first last first' last',
    navigate_period (mkPeriod biweekly 2020 27) 1 = Some q
    /\ period_dates (mkPeriod biweekly 2020 27) = Some (first, last)
    /\ period_dates q = Some (first', last')
    /\ toordinal first <= toordinal last
    /\ toordinal first' = toordinal last - 6.
Proof.
  apply (next_period_starts_after (mkPeriod biweekly 2020 27)).
  - vm_compute. reflexivity.
  - vm_compute. reflexivity.
Defined.
